(** * SGD-to-MYR monitor: a shallow embedding of [src/App.tsx]

    The file models the polling-and-alerting logic of the React component
    [App]: the JavaScript numbers and the string conversions the component
    relies on ([parseFloat], [parseInt], [toFixed], [toString]), the
    component state, the [fetchRate] callback, the polling effect, the
    form handlers and the unmount that follows a render that throws,
    followed by the properties proved about them. *)

From Stdlib Require Import ZArith Bool List String Ascii Lia.
From Stdlib Require Import Floats.SpecFloat.
Import ListNotations.

Local Open Scope string_scope.
Local Open Scope Z_scope.

(** ** Strings

    A JavaScript string is modelled as a Rocq [string]; each character
    stands for one code unit in the range 0..255. *)

Module Str.

Definition is_digit (c : ascii) : bool :=
  let n := nat_of_ascii c in (48 <=? n)%nat && (n <=? 57)%nat.

Definition digit_val (c : ascii) : Z := Z.of_nat (nat_of_ascii c) - 48.

Definition digit_char (d : Z) : ascii := ascii_of_nat (Z.to_nat (48 + d)).

(** WhiteSpace and LineTerminator code units below 256: TAB, LF, VT, FF, CR,
    SP and NBSP. *)
Definition is_space (c : ascii) : bool :=
  let n := nat_of_ascii c in
  ((9 <=? n)%nat && (n <=? 13)%nat) || (n =? 32)%nat || (n =? 160)%nat.

(** TrimString(s, start). *)
Fixpoint trim_start (s : string) : string :=
  match s with
  | String c r => if is_space c then trim_start r else s
  | EmptyString => s
  end.

(** Longest prefix made of decimal digits, and the rest. *)
Fixpoint span_digits (s : string) : string * string :=
  match s with
  | String c r =>
      if is_digit c then let '(d, t) := span_digits r in (String c d, t)
      else (EmptyString, s)
  | EmptyString => (EmptyString, EmptyString)
  end.

(** Mathematical value of a string of decimal digits, most significant
    first ([acc] is the value read so far). *)
Fixpoint digits_value (acc : Z) (s : string) : Z :=
  match s with
  | String c r => digits_value (10 * acc + digit_val c) r
  | EmptyString => acc
  end.

(** Decimal digits of a non-negative integer, prepended to [acc]. *)
Fixpoint digits_of (fuel : nat) (z : Z) (acc : string) : string :=
  match fuel with
  | O => acc
  | S f =>
      let acc' := String (digit_char (z mod 10)) acc in
      if z <? 10 then acc' else digits_of f (z / 10) acc'
  end.

(** Decimal representation of a non-negative integer: ["0"] for zero, no
    leading zero otherwise. *)
Definition of_Z (z : Z) : string :=
  digits_of (S (Z.to_nat (Z.log2 z))) z EmptyString.

Fixpoint zeros (n : nat) : string :=
  match n with
  | O => EmptyString
  | S k => String "0" (zeros k)
  end.

Fixpoint take (n : nat) (s : string) : string :=
  match n, s with
  | S k, String c r => String c (take k r)
  | _, _ => EmptyString
  end.

Fixpoint drop (n : nat) (s : string) : string :=
  match n, s with
  | S k, String _ r => drop k r
  | _, _ => s
  end.

Fixpoint rev (s : string) : string :=
  match s with
  | String c r => rev r ++ String c EmptyString
  | EmptyString => EmptyString
  end.

Fixpoint all_digits (s : string) : bool :=
  match s with
  | String c r => is_digit c && all_digits r
  | EmptyString => true
  end.

(** [unsigned_decimals f s]: [s] is at least one digit, a point and exactly
    [f] digits; [has_decimals] allows a minus sign in front. *)
Definition unsigned_decimals (f : nat) (s : string) : bool :=
  let '(ip, r) := span_digits s in
  match ip, r with
  | String _ _, String "." r' =>
      let '(fp, rest) := span_digits r' in
      (String.length fp =? f)%nat
      && match rest with EmptyString => true | _ => false end
  | _, _ => false
  end.

Definition has_decimals (f : nat) (s : string) : bool :=
  unsigned_decimals f (match s with String "-" r => r | _ => s end).

(** [contains needle hay]: [needle] occurs in [hay] as a substring. *)
Fixpoint contains (needle hay : string) : bool :=
  prefix needle hay ||
  match hay with
  | String _ r => contains needle r
  | EmptyString => false
  end.

End Str.

(** ** JavaScript numbers

    A Number is an IEEE 754 binary64 value, here a [spec_float] with
    precision 53 and maximal exponent 1024 and a single NaN. *)

Module Num.

Definition prec : Z := 53.
Definition emax : Z := 1024.

Definition number : Type := spec_float.

Definition NaN : number := S754_nan.
Definition Infinity : number := S754_infinity false.
Definition pos_zero : number := S754_zero false.

(** The Number value for an integer [z] (round to nearest, ties to even). *)
Definition of_Z (z : Z) : number := binary_normalize prec emax z 0 false.

(** The Number value for the rational [n / d], negated when [neg]. *)
Definition of_ratio (neg : bool) (n d : positive) : number :=
  let '(q, e, l) := SFdiv_core_binary prec emax (Zpos n) 0 (Zpos d) 0 in
  binary_round_aux prec emax neg q e l.

(** The Number value for [m * 10 ^ e] with [m >= 0], negated when [neg];
    a zero takes the sign too. *)
Definition of_decimal (neg : bool) (m : Z) (e : Z) : number :=
  match m with
  | Zpos p =>
      if 0 <=? e
      then binary_normalize prec emax
             ((if neg then Zneg p else Zpos p) * 10 ^ e) 0 neg
      else of_ratio neg p (Z.to_pos (10 ^ (- e)))
  | _ => S754_zero neg
  end.

Definition isNaN (x : number) : bool :=
  match x with S754_nan => true | _ => false end.

Definition isFinite (x : number) : bool :=
  match x with S754_zero _ | S754_finite _ _ _ => true | _ => false end.

(** [x > y] on Numbers; false as soon as one side is NaN. *)
Definition gt (x y : number) : bool := SFltb y x.

Definition mul (x y : number) : number := SFmul prec emax x y.

(** SameValue on Numbers: NaN equals itself, +0 and -0 differ.  On values
    in canonical form this is structural equality. *)
Definition same_value (x y : number) : bool :=
  match x, y with
  | S754_nan, S754_nan => true
  | S754_zero a, S754_zero b => Bool.eqb a b
  | S754_infinity a, S754_infinity b => Bool.eqb a b
  | S754_finite a m e, S754_finite b m' e' =>
      Bool.eqb a b && Pos.eqb m m' && Z.eqb e e'
  | _, _ => false
  end.

(** The exact value of a finite Number as a fraction [(num, den)] of its
    absolute value. *)
Definition abs_fraction (x : number) : Z * Z :=
  match x with
  | S754_finite _ m e =>
      if 0 <=? e then (Zpos m * 2 ^ e, 1) else (Zpos m, 2 ^ (- e))
  | _ => (0, 1)
  end.

Definition is_negative (x : number) : bool :=
  match x with
  | S754_finite s _ _ => s
  | S754_infinity s => s
  | _ => false
  end.

(** *** Number::toString (radix 10) *)

(** Smallest [j >= 1] with [den <= num * 10 ^ j]. *)
Fixpoint lead_shift (fuel : nat) (num den : Z) : Z :=
  match fuel with
  | O => 0
  | S f => if den <=? 10 * num then 1 else 1 + lead_shift f (10 * num) den
  end.

(** The integer [n0] with [10 ^ (n0 - 1) <= |x| < 10 ^ n0], for finite
    non-zero [x]. *)
Definition magnitude (x : number) : Z :=
  let '(num, den) := abs_fraction x in
  if den <=? num then Z.of_nat (String.length (Str.of_Z (num / den)))
  else 1 - lead_shift 400 num den.

(** The integer [s] of [k] digits for which [s * 10 ^ (n - k)] has Number
    value [|x|], the one closest to [|x|] if there are two (the even one on
    a tie), if there is any. *)
Definition shortest_candidate (x : number) (n k : Z) : option Z :=
  let p := n - k in
  let '(num, den) := abs_fraction x in
  let a := if 0 <=? p then num else num * 10 ^ (- p) in
  let b := if 0 <=? p then den * 10 ^ p else den in
  let lo := a / b in
  let r := a mod b in
  let hi := lo + 1 in
  let ok s := (10 ^ (k - 1) <=? s) && (s <? 10 ^ k)
              && same_value (of_decimal false s p) (SFabs x) in
  match ok lo, ok hi with
  | true, true =>
      Some (if 2 * r <? b then lo else if b <? 2 * r then hi
            else if Z.even lo then lo else hi)
  | true, false => Some lo
  | false, true => Some hi
  | false, false => None
  end.

(** Search for the least number of digits [k], from [k] upwards; the result
    is [(s, n)]. *)
Fixpoint shortest_digits (fuel : nat) (x : number) (n0 k : Z) : option (Z * Z) :=
  match fuel with
  | O => None
  | S f =>
      match shortest_candidate x n0 k with
      | Some s => Some (s, n0)
      | None =>
          match shortest_candidate x (n0 + 1) k with
          | Some s => Some (s, n0 + 1)
          | None => shortest_digits f x n0 (k + 1)
          end
      end
  end.

(** Steps 6 to 10 of Number::toString: lay out the digits [ds] of [s] for
    the decimal exponent [n]. *)
Definition render_digits (ds : string) (n : Z) : string :=
  let k := Z.of_nat (String.length ds) in
  if (k <=? n) && (n <=? 21) then ds ++ Str.zeros (Z.to_nat (n - k))
  else if (0 <? n) && (n <=? 21) then
    Str.take (Z.to_nat n) ds ++ "." ++ Str.drop (Z.to_nat n) ds
  else if (-6 <? n) && (n <=? 0) then
    "0." ++ Str.zeros (Z.to_nat (- n)) ++ ds
  else
    let e := n - 1 in
    let es := (if e <? 0 then "-" else "+") ++ Str.of_Z (Z.abs e) in
    if k =? 1 then ds ++ "e" ++ es
    else Str.take 1 ds ++ "." ++ Str.drop 1 ds ++ "e" ++ es.

Definition toString (x : number) : string :=
  match x with
  | S754_nan => "NaN"
  | S754_zero _ => "0"
  | S754_infinity s => if s then "-Infinity" else "Infinity"
  | S754_finite s _ _ =>
      (if s then "-" else "") ++
      match shortest_digits 17 x (magnitude x) 1 with
      | Some (d, n) => render_digits (Str.of_Z d) n
      | None => ""
      end
  end.

(** *** Number.prototype.toFixed *)

(** The integer [n] for which [n / 10 ^ f - |x|] is closest to zero, the
    larger one if there are two. *)
Definition fixed_integer (x : number) (f : Z) : Z :=
  let '(num, den) := abs_fraction x in
  (2 * num * 10 ^ f + den) / (2 * den).

(** [|x| < 10 ^ 21] for a finite [x]. *)
Definition below_1e21 (x : number) : bool :=
  let '(num, den) := abs_fraction x in negb (10 ^ 21 * den <=? num).

Definition toFixed (x : number) (f : nat) : string :=
  if negb (isFinite x) then toString x
  else if negb (below_1e21 x) then toString x
  else
    let m := Str.of_Z (fixed_integer x (Z.of_nat f)) in
    let m :=
      match f with
      | O => m
      | S _ =>
          let k := String.length m in
          let m := if (k <=? f)%nat then Str.zeros (f + 1 - k) ++ m else m in
          let k := String.length m in
          Str.take (k - f) m ++ "." ++ Str.drop (k - f) m
      end in
    (if is_negative x then "-" else "") ++ m.

(** *** parseFloat, parseInt and StringToNumber *)

Definition strip_sign (s : string) : bool * string :=
  match s with
  | String "-" r => (true, r)
  | String "+" r => (false, r)
  | _ => (false, s)
  end.

(** ExponentPart at the head of [s], if there is one: the exponent and the
    rest of the string; exponent 0 and [s] itself otherwise. *)
Definition exponent_part (s : string) : Z * string :=
  match s with
  | String c r =>
      if (Ascii.eqb c "e" || Ascii.eqb c "E")%bool then
        let '(neg, r') := strip_sign r in
        let '(ds, rest) := Str.span_digits r' in
        match ds with
        | EmptyString => (0, s)
        | _ => (if neg then - Str.digits_value 0 ds else Str.digits_value 0 ds,
                rest)
        end
      else (0, s)
  | EmptyString => (0, s)
  end.

(** The longest prefix of [s] that is a StrDecimalLiteral: its Number value
    and the rest of the string, if there is such a prefix. *)
Definition scan_decimal (s : string) : option (number * string) :=
  let '(neg, u) := strip_sign s in
  if prefix "Infinity" u then Some (S754_infinity neg, Str.drop 8 u)
  else
    let '(ip, r1) := Str.span_digits u in
    let '(fp, r2) :=
      match r1 with
      | String "." r => Str.span_digits r
      | _ => (EmptyString, r1)
      end in
    match ip, fp with
    | EmptyString, EmptyString => None
    | _, _ =>
        let '(e, rest) := exponent_part r2 in
        Some (of_decimal neg (Str.digits_value 0 (ip ++ fp))
                         (e - Z.of_nat (String.length fp)), rest)
    end.

Definition parseFloat (s : string) : number :=
  match scan_decimal (Str.trim_start s) with
  | Some (x, _) => x
  | None => NaN
  end.

(** parseInt(s, 10): the Number value of the longest run of decimal digits
    after leading white space and an optional sign, NaN if it is empty. *)
Definition parseInt10 (s : string) : number :=
  let '(neg, u) := strip_sign (Str.trim_start s) in
  let '(ds, _) := Str.span_digits u in
  match ds with
  | EmptyString => NaN
  | _ => of_decimal neg (Str.digits_value 0 ds) 0
  end.

(** Value of a digit of radix [radix] (2, 8 or 16), if [c] is one. *)
Definition radix_digit (radix : Z) (c : ascii) : option Z :=
  let n := Z.of_nat (nat_of_ascii c) in
  let v := if (48 <=? n) && (n <=? 57) then n - 48
           else if (97 <=? n) && (n <=? 102) then n - 87
           else if (65 <=? n) && (n <=? 70) then n - 55
           else radix in
  if v <? radix then Some v else None.

Fixpoint radix_value (radix acc : Z) (s : string) : option Z :=
  match s with
  | String c r =>
      match radix_digit radix c with
      | Some v => radix_value radix (radix * acc + v) r
      | None => None
      end
  | EmptyString => Some acc
  end.

(** NonDecimalIntegerLiteral: [0x], [0o] or [0b] and at least one digit. *)
Definition scan_non_decimal (s : string) : option number :=
  match s with
  | String "0" (String c (String d r)) =>
      let radix := if (Ascii.eqb c "x" || Ascii.eqb c "X")%bool then 16
                   else if (Ascii.eqb c "o" || Ascii.eqb c "O")%bool then 8
                   else if (Ascii.eqb c "b" || Ascii.eqb c "B")%bool then 2
                   else 0 in
      match radix_value radix 0 (String d r) with
      | Some v => Some (of_decimal false v 0)
      | None => None
      end
  | _ => None
  end.

(** StringToNumber: the whole string, white space at both ends apart, is a
    numeric literal; the empty string is +0. *)
Definition StringToNumber (s : string) : number :=
  let t := Str.rev (Str.trim_start (Str.rev (Str.trim_start s))) in
  match t with
  | EmptyString => pos_zero
  | _ =>
      match scan_non_decimal t with
      | Some x => x
      | None =>
          match scan_decimal t with
          | Some (x, EmptyString) => x
          | _ => NaN
          end
      end
  end.

End Num.

(** ** Values of the run time *)

#[local] Set Warnings "-register-all".

(** A parsed JSON text, the result of [response.json()].  The members of an
    object are kept in the order of the text. *)
Inductive Json : Type :=
  | JNull
  | JBool (b : bool)
  | JNumber (x : Num.number)
  | JString (s : string)
  | JArray (items : list Json)
  | JObject (members : list (string * Json)).

(** What a variable of the component can hold: [undefined] or a JSON value
    ([null] is [VJson JNull]). *)
Inductive Value : Type :=
  | VUndefined
  | VJson (j : Json).

Definition VNull : Value := VJson JNull.

(** A thrown value or rejection reason: an [Error] instance with its
    [message], or anything else. *)
Inductive Thrown : Type :=
  | ThrownError (message : string)
  | ThrownOther.

Inductive Result (A : Type) : Type :=
  | Ok (a : A)
  | Raise (e : Thrown).
Arguments Ok {A} a.
Arguments Raise {A} e.

Module Js.

(** Member of an object by key; when a key is repeated in the text the last
    member wins. *)
Fixpoint lookup (key : string) (members : list (string * Json)) : option Json :=
  match members with
  | [] => None
  | (k, v) :: rest =>
      match lookup key rest with
      | Some w => Some w
      | None => if String.eqb k key then Some v else None
      end
  end.

Definition has_key (key : string) (members : list (string * Json)) : bool :=
  match lookup key members with Some _ => true | None => false end.

(** Wording of the engine's TypeError messages (V8). *)
Definition cannot_read (what key : string) : string :=
  "Cannot read properties of " ++ what ++ " (reading '" ++ key ++ "')".

Definition not_a_function (expr : string) : string :=
  expr ++ " is not a function".

Definition cannot_convert : string := "Cannot convert object to primitive value".

(** Property access [v.key] for a key that no prototype defines: a
    TypeError on [undefined] and [null], the member of an object,
    [undefined] on anything else. *)
Definition get (v : Value) (key : string) : Result Value :=
  match v with
  | VUndefined => Raise (ThrownError (cannot_read "undefined" key))
  | VJson JNull => Raise (ThrownError (cannot_read "null" key))
  | VJson (JObject members) =>
      match lookup key members with
      | Some j => Ok (VJson j)
      | None => Ok VUndefined
      end
  | VJson _ => Ok VUndefined
  end.

(** ToString of a JSON value.  An array joins its items with commas, [null]
    items as the empty string; an object is ["[object Object]"] unless a
    member named [toString] shadows the inherited method, in which case no
    conversion exists and a TypeError is thrown. *)
Fixpoint to_string (j : Json) : Result string :=
  match j with
  | JNull => Ok "null"
  | JBool b => Ok (if b then "true" else "false")
  | JNumber x => Ok (Num.toString x)
  | JString s => Ok s
  | JArray items =>
      (fix join (first : bool) (l : list Json) : Result string :=
         match l with
         | [] => Ok ""
         | i :: rest =>
             match (match i with JNull => Ok "" | _ => to_string i end) with
             | Raise e => Raise e
             | Ok s =>
                 match join false rest with
                 | Raise e => Raise e
                 | Ok t => Ok ((if first then "" else ",") ++ s ++ t)
                 end
             end
         end) true items
  | JObject members =>
      if has_key "toString" members then Raise (ThrownError cannot_convert)
      else Ok "[object Object]"
  end.

(** ToNumber, as the relational operators apply it to an operand. *)
Definition to_number (v : Value) : Result Num.number :=
  match v with
  | VUndefined => Ok Num.NaN
  | VJson JNull => Ok Num.pos_zero
  | VJson (JBool b) => Ok (if b then Num.of_Z 1 else Num.pos_zero)
  | VJson (JNumber x) => Ok x
  | VJson (JString s) => Ok (Num.StringToNumber s)
  | VJson j =>
      match to_string j with
      | Ok s => Ok (Num.StringToNumber s)
      | Raise e => Raise e
      end
  end.

(** [v > t] for a Number [t]. *)
Definition greater_than (v : Value) (t : Num.number) : Result bool :=
  match to_number v with
  | Ok x => Ok (Num.gt x t)
  | Raise e => Raise e
  end.

(** The method call [v.toFixed(digits)] where the variable is called
    [name]: defined on Numbers only. *)
Definition call_toFixed (name : string) (v : Value) (digits : nat) : Result string :=
  match v with
  | VJson (JNumber x) => Ok (Num.toFixed x digits)
  | VUndefined => Raise (ThrownError (cannot_read "undefined" "toFixed"))
  | VJson JNull => Raise (ThrownError (cannot_read "null" "toFixed"))
  | VJson _ => Raise (ThrownError (not_a_function (name ++ ".toFixed")))
  end.

(** Truthiness of a string: non-empty. *)
Definition truthy (s : string) : bool :=
  match s with EmptyString => false | _ => true end.

(** Truthiness of a value. *)
Definition truthy_value (v : Value) : bool :=
  match v with
  | VUndefined | VJson JNull => false
  | VJson (JBool b) => b
  | VJson (JNumber (S754_zero _ | S754_nan)) => false
  | VJson (JNumber _) => true
  | VJson (JString s) => truthy s
  | VJson (JArray _ | JObject _) => true
  end.

End Js.

(** ** The component *)

Definition API_URL : string :=
  "https://api.frankfurter.app/latest?from=SGD&to=MYR".

(** [SOUNDS]: the options of the sound selector, name and value. *)
Definition SOUNDS : list (string * string) :=
  [ ("Default", "");
    ("Chime", "https://soundbible.com/grab.php?id=1954&type=mp3");
    ("Alert", "https://soundbible.com/grab.php?id=1793&type=mp3");
    ("Beep", "https://soundbible.com/grab.php?id=1211&type=mp3") ].

(** [NotificationPermission]. *)
Inductive Permission : Type := PDefault | PGranted | PDenied.

Definition is_granted (p : Permission) : bool :=
  match p with PGranted => true | _ => false end.

(** The state variables of [App], in the order of their [useState]. *)
Record AppState : Type := mkApp {
  rate : Value;
  lastChecked : option nat;
  error : option string;
  isLoading : bool;
  notificationPermission : Permission;
  threshold : Num.number;
  inputThreshold : string;
  thresholdError : option string;
  checkInterval : Num.number;
  inputCheckInterval : string;
  intervalError : option string;
  notificationSound : string
}.

Definition initial_state : AppState := {|
  rate := VNull;
  lastChecked := None;
  error := None;
  isLoading := true;
  notificationPermission := PDefault;
  threshold := Num.of_decimal false 320 (-2);          (* 3.20 *)
  inputThreshold := "3.20";
  thresholdError := None;
  checkInterval := Num.of_Z 10;
  inputCheckInterval := "10";
  intervalError := None;
  notificationSound := ""
|}.

Definition setRate (v : Value) (st : AppState) : AppState :=
  mkApp v (lastChecked st) (error st) (isLoading st) (notificationPermission st)
        (threshold st) (inputThreshold st) (thresholdError st)
        (checkInterval st) (inputCheckInterval st) (intervalError st)
        (notificationSound st).

Definition setLastChecked (d : option nat) (st : AppState) : AppState :=
  mkApp (rate st) d (error st) (isLoading st) (notificationPermission st)
        (threshold st) (inputThreshold st) (thresholdError st)
        (checkInterval st) (inputCheckInterval st) (intervalError st)
        (notificationSound st).

Definition setError (e : option string) (st : AppState) : AppState :=
  mkApp (rate st) (lastChecked st) e (isLoading st) (notificationPermission st)
        (threshold st) (inputThreshold st) (thresholdError st)
        (checkInterval st) (inputCheckInterval st) (intervalError st)
        (notificationSound st).

Definition setIsLoading (b : bool) (st : AppState) : AppState :=
  mkApp (rate st) (lastChecked st) (error st) b (notificationPermission st)
        (threshold st) (inputThreshold st) (thresholdError st)
        (checkInterval st) (inputCheckInterval st) (intervalError st)
        (notificationSound st).

Definition setNotificationPermission (p : Permission) (st : AppState) : AppState :=
  mkApp (rate st) (lastChecked st) (error st) (isLoading st) p
        (threshold st) (inputThreshold st) (thresholdError st)
        (checkInterval st) (inputCheckInterval st) (intervalError st)
        (notificationSound st).

Definition setThreshold (x : Num.number) (st : AppState) : AppState :=
  mkApp (rate st) (lastChecked st) (error st) (isLoading st)
        (notificationPermission st)
        x (inputThreshold st) (thresholdError st)
        (checkInterval st) (inputCheckInterval st) (intervalError st)
        (notificationSound st).

Definition setInputThreshold (s : string) (st : AppState) : AppState :=
  mkApp (rate st) (lastChecked st) (error st) (isLoading st)
        (notificationPermission st)
        (threshold st) s (thresholdError st)
        (checkInterval st) (inputCheckInterval st) (intervalError st)
        (notificationSound st).

Definition setThresholdError (e : option string) (st : AppState) : AppState :=
  mkApp (rate st) (lastChecked st) (error st) (isLoading st)
        (notificationPermission st)
        (threshold st) (inputThreshold st) e
        (checkInterval st) (inputCheckInterval st) (intervalError st)
        (notificationSound st).

Definition setCheckInterval (x : Num.number) (st : AppState) : AppState :=
  mkApp (rate st) (lastChecked st) (error st) (isLoading st)
        (notificationPermission st)
        (threshold st) (inputThreshold st) (thresholdError st)
        x (inputCheckInterval st) (intervalError st)
        (notificationSound st).

Definition setInputCheckInterval (s : string) (st : AppState) : AppState :=
  mkApp (rate st) (lastChecked st) (error st) (isLoading st)
        (notificationPermission st)
        (threshold st) (inputThreshold st) (thresholdError st)
        (checkInterval st) s (intervalError st)
        (notificationSound st).

Definition setIntervalError (e : option string) (st : AppState) : AppState :=
  mkApp (rate st) (lastChecked st) (error st) (isLoading st)
        (notificationPermission st)
        (threshold st) (inputThreshold st) (thresholdError st)
        (checkInterval st) (inputCheckInterval st) e
        (notificationSound st).

Definition setNotificationSound (s : string) (st : AppState) : AppState :=
  mkApp (rate st) (lastChecked st) (error st) (isLoading st)
        (notificationPermission st)
        (threshold st) (inputThreshold st) (thresholdError st)
        (checkInterval st) (inputCheckInterval st) (intervalError st)
        s.

(** *** [StatusIndicator] *)

Inductive Status : Type := Initializing | Checking | StatusError | Monitoring.

(** The status a render of [StatusIndicator] displays: the initial text is
    overwritten in each of the three branches. *)
Definition StatusIndicator (isLoading : bool) (error : option string) : Status :=
  if isLoading then Checking
  else
    match error with
    | Some msg => if Js.truthy msg then StatusError else Monitoring
    | None => Monitoring
    end.

Definition status (st : AppState) : Status :=
  StatusIndicator (isLoading st) (error st).

(** *** [RateDisplay] *)

Inductive RateView : Type :=
  | Skeleton                       (* the pulsing placeholder *)
  | RateText (text : string).      (* the text of the heading *)

(** What a render of [RateDisplay] shows; the render throws when the rate
    is a truthy value without a [toFixed] method. *)
Definition RateDisplay (rate : Value) (isLoading : bool) : Result RateView :=
  match rate, isLoading with
  | VJson JNull, true => Ok Skeleton
  | _, _ =>
      if Js.truthy_value rate then
        match Js.call_toFixed "rate" rate 4 with
        | Ok text => Ok (RateText text)
        | Raise e => Raise e
        end
      else Ok (RateText "-.----")
  end.

(** The state holds a sample: the rate is a Number. *)
Definition has_sample (v : Value) : bool :=
  match v with
  | VJson (JNumber _) => true
  | _ => false
  end.

(** *** Observable actions *)

Inductive Effect : Type :=
  | EFetch (url : string)
  | EAudioPlay (src : string)
  | ENotification (title body : string) (silent : bool)
  | EConsoleError (label detail : string)
  | ESetInterval (ms : Num.number)
  | EClearInterval.

Definition is_notification (e : Effect) : bool :=
  match e with ENotification _ _ _ => true | _ => false end.

Definition is_playback (e : Effect) : bool :=
  match e with EAudioPlay _ => true | _ => false end.

(** *** [fetchRate]

    The body of [fetchRate] runs in two parts: up to the first [await], and
    from the moment the request settles to the end of [finally].  Between
    the awaits of the second part the function touches no state, so that
    part is one step, taking what the run time delivers as a [Completion]. *)

Record Response : Type := {
  resp_status : nat;
  resp_statusText : string;
  resp_json : Result Json          (* what [response.json()] settles to *)
}.

(** [response.ok]. *)
Definition ok (r : Response) : bool :=
  (200 <=? resp_status r)%nat && (resp_status r <=? 299)%nat.

Record Completion : Type := {
  fetched : Result Response;       (* what [fetch(API_URL)] settles to *)
  now : nat;                       (* [new Date()] *)
  playback : option Thrown         (* rejection of [audio.play()], if any *)
}.

(** Computations of the [try] block: they read and write the component
    state, add to the actions performed, and may throw. *)
Definition Body (A : Type) : Type :=
  AppState -> list Effect -> Result A * AppState * list Effect.

Definition ret {A} (a : A) : Body A := fun st tr => (Ok a, st, tr).

Definition throw {A} (e : Thrown) : Body A := fun st tr => (Raise e, st, tr).

Definition bind {A B} (m : Body A) (k : A -> Body B) : Body B :=
  fun st tr =>
    match m st tr with
    | (Ok a, st', tr') => k a st' tr'
    | (Raise e, st', tr') => (Raise e, st', tr')
    end.

Definition lift {A} (r : Result A) : Body A :=
  match r with Ok a => ret a | Raise e => throw e end.

Definition update (f : AppState -> AppState) : Body unit :=
  fun st tr => (Ok tt, f st, tr).

Definition emit (e : Effect) : Body unit :=
  fun st tr => (Ok tt, st, (tr ++ [e])%list).

Notation "x <- m ;; k" := (bind m (fun x => k))
  (at level 61, m at next level, right associativity).
Notation "m ;;; k" := (bind m (fun _ => k))
  (at level 61, right associativity).

Definition error_message (e : Thrown) : string :=
  match e with
  | ThrownError m => m
  | ThrownOther => "An unknown error occurred"
  end.

(** What [console.error] prints for a rejection reason. *)
Definition describe (e : Thrown) : string :=
  match e with
  | ThrownError m => m
  | ThrownOther => ""
  end.

Definition api_error (r : Response) : string :=
  "API error: " ++ resp_statusText r ++ " ("
  ++ Str.of_Z (Z.of_nat (resp_status r)) ++ ")".

Definition alert_title : string := "SGD to MYR Rate Alert!".

Section FetchRate.

(** The dependencies of the [useCallback]: the values the callback sees
    are those of the render that created it. *)
Variable threshold_ : Num.number.
Variable notificationSound_ : string.

(** The global [Notification]: absent in a browser without the API. *)
Variable Notification_permission : option Permission.

Definition alert_body (rateText : string) : string :=
  "SGD is now " ++ rateText ++ " MYR, exceeding the "
  ++ Num.toString threshold_ ++ " threshold.".

(** [Notification.permission === 'granted']. *)
Definition permission_granted : Body bool :=
  match Notification_permission with
  | Some p => ret (is_granted p)
  | None => throw (ThrownError "Notification is not defined")
  end.

Definition try_block (c : Completion) : Body unit :=
  response <- lift (fetched c) ;;
  (if negb (ok response) then throw (ThrownError (api_error response))
   else ret tt) ;;;
  data <- lift (resp_json response) ;;
  rates <- lift (Js.get (VJson data) "rates") ;;
  newRate <- lift (Js.get rates "MYR") ;;
  update (setRate newRate) ;;;
  update (setLastChecked (Some (now c))) ;;;
  above <- lift (Js.greater_than newRate threshold_) ;;
  granted <- (if above : bool then permission_granted else ret false) ;;
  if (above && granted)%bool then
    rateText <- lift (Js.call_toFixed "newRate" newRate 4) ;;
    silent <- (if Js.truthy notificationSound_
               then emit (EAudioPlay notificationSound_) ;;; ret true
               else ret false) ;;
    emit (ENotification alert_title (alert_body rateText) silent)
  else ret tt.

(** [catch] and [finally], then the rejection handler of the playback if a
    playback was requested and failed. *)
Definition fetchRate_settle (c : Completion) (st : AppState)
  : AppState * list Effect :=
  let '(r, st1, tr1) := try_block c st [] in
  let '(st2, tr2) :=
    match r with
    | Ok _ => (st1, tr1)
    | Raise e =>
        let errorMessage := error_message e in
        (setError (Some errorMessage) st1,
         (tr1 ++ [EConsoleError "Failed to fetch exchange rate:" errorMessage])%list)
    end in
  (setIsLoading false st2,
   (tr2 ++ match playback c with
           | Some e =>
               if existsb is_playback tr1
               then [EConsoleError "Error playing audio:" (describe e)]
               else []
           | None => []
           end)%list).

End FetchRate.

(** The part of [fetchRate] before the request is sent. *)
Definition fetchRate_begin (st : AppState) : AppState :=
  setError None (setIsLoading true st).

(** *** Form handlers *)

Definition truthy_opt (e : option string) : bool :=
  match e with Some m => Js.truthy m | None => false end.

(** The test of both submit handlers: [!isNaN(x) && x > 0]. *)
Definition valid_positive (x : Num.number) : bool :=
  negb (Num.isNaN x) && Num.gt x Num.pos_zero.

Definition handleThresholdChange (value : string) (st : AppState) : AppState :=
  let st := setInputThreshold value st in
  if truthy_opt (thresholdError st) then setThresholdError None st else st.

Definition threshold_message : string := "Please enter a valid positive number.".

Definition handleSetThreshold (st : AppState) : AppState :=
  let newThreshold := Num.parseFloat (inputThreshold st) in
  if valid_positive newThreshold then
    setThresholdError None
      (setInputThreshold (Num.toString newThreshold)
         (setThreshold newThreshold st))
  else setThresholdError (Some threshold_message) st.

Definition handleCheckIntervalChange (value : string) (st : AppState) : AppState :=
  let st := setInputCheckInterval value st in
  if truthy_opt (intervalError st) then setIntervalError None st else st.

Definition interval_message : string :=
  "Please enter a valid positive number (minutes).".

Definition handleSetCheckInterval (st : AppState) : AppState :=
  let newInterval := Num.parseInt10 (inputCheckInterval st) in
  if valid_positive newInterval then
    setIntervalError None
      (setInputCheckInterval (Num.toString newInterval)
         (setCheckInterval newInterval st))
  else setIntervalError (Some interval_message) st.

Definition handleSoundChange (value : string) (st : AppState) : AppState :=
  setNotificationSound value st.

(** *** The mounted component

    The component together with what the browser holds for it: the requests
    in flight, the interval timer and the permission. *)

(** A [fetchRate] function, identified by the dependencies of its
    [useCallback]. *)
Record Callback : Type := {
  cb_threshold : Num.number;
  cb_sound : string
}.

Record Timer : Type := {
  timer_callback : Callback;
  timer_delay : Num.number         (* milliseconds *)
}.

Record World : Type := mkWorld {
  state : AppState;
  Notification_api : option Permission;  (* [Notification.permission] *)
  in_flight : list Callback;             (* calls of [fetchRate] not settled *)
  interval_timer : option Timer;         (* the timer of [setInterval] *)
  effect_deps : option (Callback * Num.number);
                                         (* [[fetchRate, checkInterval]] of
                                            the last run of the effect *)
  trace : list Effect;
  unmounted : bool                       (* React has removed the component *)
}.

Definition initial_world (api : option Permission) : World := {|
  state := initial_state;
  Notification_api := api;
  in_flight := [];
  interval_timer := None;
  effect_deps := None;
  trace := [];
  unmounted := false
|}.

(** The [fetchRate] of the current render. *)
Definition current_fetchRate (st : AppState) : Callback :=
  {| cb_threshold := threshold st; cb_sound := notificationSound st |}.

(** A call of [fetchRate]: it runs up to the request, which stays in
    flight. *)
Definition call_fetchRate (f : Callback) (w : World) : World :=
  mkWorld (fetchRate_begin (state w)) (Notification_api w)
          (in_flight w ++ [f]) (interval_timer w) (effect_deps w)
          (trace w ++ [EFetch API_URL]) (unmounted w).

(** The body of the polling effect. *)
Definition polling_effect (w : World) : World :=
  let fetchRate := current_fetchRate (state w) in
  let w := call_fetchRate fetchRate w in
  let intervalMs :=
    Num.mul (Num.mul (checkInterval (state w)) (Num.of_Z 60)) (Num.of_Z 1000) in
  mkWorld (state w) (Notification_api w) (in_flight w)
          (Some {| timer_callback := fetchRate; timer_delay := intervalMs |})
          (Some (fetchRate, checkInterval (state w)))
          (trace w ++ [ESetInterval intervalMs]) (unmounted w).

(** The cleanup of the polling effect. *)
Definition polling_cleanup (w : World) : World :=
  mkWorld (state w) (Notification_api w) (in_flight w) None (effect_deps w)
          (trace w ++ [EClearInterval]) (unmounted w).

Definition same_callback (f g : Callback) : bool :=
  Num.same_value (cb_threshold f) (cb_threshold g)
  && String.eqb (cb_sound f) (cb_sound g).

(** After a render: the effect is cleaned up and run again when one of its
    dependencies differs from the previous render. *)
Definition commit (w : World) : World :=
  match effect_deps w with
  | None => w
  | Some (f, interval) =>
      if same_callback f (current_fetchRate (state w))
         && Num.same_value interval (checkInterval (state w))
      then w
      else polling_effect (polling_cleanup w)
  end.

Definition with_state (f : AppState -> AppState) (w : World) : World :=
  mkWorld (f (state w)) (Notification_api w) (in_flight w) (interval_timer w)
          (effect_deps w) (trace w) (unmounted w).

(** The mount: the permission effect, then the polling effect. *)
Definition mount (w : World) : World :=
  let w :=
    match Notification_api w with
    | Some p => with_state (setNotificationPermission p) w
    | None => w
    end in
  polling_effect w.

Fixpoint remove_nth {A} (i : nat) (l : list A) : list A :=
  match i, l with
  | O, _ :: r => r
  | S k, x :: r => x :: remove_nth k r
  | _, [] => []
  end.

(** *** The render and the unmount

    The state updates of a completion are applied together and followed by
    one render of [App].  The only expression of the render that can throw
    is [rate.toFixed(4)] in [RateDisplay]: it throws for a truthy rate that
    is not a Number.  No error boundary is above [App], so React then
    removes the whole tree, and the removal runs the cleanup of the polling
    effect.  From then on no control is on the page, no timer ticks and the
    state updates of the component do nothing, while the requests in
    flight still settle and run the rest of [fetchRate]. *)
Definition render_throws (st : AppState) : bool :=
  match RateDisplay (rate st) (isLoading st) with
  | Ok _ => false
  | Raise _ => true
  end.

Definition unmount (w : World) : World :=
  let w := polling_cleanup w in
  mkWorld (state w) (Notification_api w) (in_flight w) (interval_timer w)
          (effect_deps w) (trace w) true.

Definition render (w : World) : World :=
  if render_throws (state w) then unmount w else w.

(** The [i]-th request in flight settles while the component is mounted:
    the rest of [fetchRate] runs, then the component renders.  No other
    event changes the rate, so no other render is modelled. *)
Definition settle (i : nat) (c : Completion) (w : World) : World :=
  match nth_error (in_flight w) i with
  | None => w
  | Some f =>
      let '(st, tr) :=
        fetchRate_settle (cb_threshold f) (cb_sound f) (Notification_api w)
                         c (state w) in
      render (mkWorld st (Notification_api w) (remove_nth i (in_flight w))
                      (interval_timer w) (effect_deps w) (trace w ++ tr)
                      (unmounted w))
  end.

(** The [i]-th request in flight settles after the unmount: the rest of
    [fetchRate] still runs, with the threshold, the sound and the
    permission as before, but its state updates are dropped. *)
Definition settle_unmounted (i : nat) (c : Completion) (w : World) : World :=
  match nth_error (in_flight w) i with
  | None => w
  | Some f =>
      let '(_, tr) :=
        fetchRate_settle (cb_threshold f) (cb_sound f) (Notification_api w)
                         c (state w) in
      mkWorld (state w) (Notification_api w) (remove_nth i (in_flight w))
              (interval_timer w) (effect_deps w) (trace w ++ tr)
              (unmounted w)
  end.

(** [requestNotificationPermission] and the answer of the browser, which
    asks the user only while the permission is [default]. *)
Definition requestNotificationPermission (answer : Permission) (w : World) : World :=
  match Notification_api w with
  | None => w
  | Some p =>
      let p' := match p with PDefault => answer | _ => p end in
      mkWorld (setNotificationPermission p' (state w)) (Some p') (in_flight w)
              (interval_timer w) (effect_deps w) (trace w) (unmounted w)
  end.

(** What can happen to the component.  The inputs deliver any text: the
    checks the browser itself applies to a number input are not part of the
    component. *)
Inductive Event : Type :=
  | TimerTick                            (* the interval timer fires *)
  | ClickRefresh                         (* the refresh button *)
  | Settle (i : nat) (c : Completion)    (* a request settles *)
  | TypeThreshold (value : string)       (* [onChange] of the threshold input *)
  | SubmitThreshold                      (* [onSubmit] of the threshold form *)
  | TypeInterval (value : string)
  | SubmitInterval
  | SelectSound (value : string)
  | ClickEnable (answer : Permission)    (* the Enable button of the banner *)
  | SiteSetting (p : Permission).        (* the user edits the site settings *)

(** The browser's permission changes behind the component. *)
Definition site_setting (p : Permission) (w : World) : World :=
  match Notification_api w with
  | Some _ =>
      mkWorld (state w) (Some p) (in_flight w) (interval_timer w)
              (effect_deps w) (trace w) (unmounted w)
  | None => w
  end.

(** An event while the component is mounted. *)
Definition mounted_step (w : World) (ev : Event) : World :=
  match ev with
  | TimerTick =>
      match interval_timer w with
      | Some t => call_fetchRate (timer_callback t) w
      | None => w
      end
  | ClickRefresh =>
      if isLoading (state w) then w
      else call_fetchRate (current_fetchRate (state w)) w
  | Settle i c => settle i c w
  | TypeThreshold v => with_state (handleThresholdChange v) w
  | SubmitThreshold => commit (with_state handleSetThreshold w)
  | TypeInterval v => with_state (handleCheckIntervalChange v) w
  | SubmitInterval => commit (with_state handleSetCheckInterval w)
  | SelectSound v => commit (with_state (handleSoundChange v) w)
  | ClickEnable answer =>
      match notificationPermission (state w) with
      | PDefault => requestNotificationPermission answer w
      | _ => w
      end
  | SiteSetting p => site_setting p w
  end.

(** An event after the unmount: only what does not go through the
    component still happens. *)
Definition unmounted_step (w : World) (ev : Event) : World :=
  match ev with
  | Settle i c => settle_unmounted i c w
  | SiteSetting p => site_setting p w
  | _ => w
  end.

Definition step (w : World) (ev : Event) : World :=
  if unmounted w then unmounted_step w ev else mounted_step w ev.

Definition run (w : World) (evs : list Event) : World := fold_left step evs w.

(** The worlds the mounted component can be in: what a sequence of events
    leads to from the mount, as long as the component is still mounted. *)
Definition reachable (w : World) : Prop :=
  exists api evs,
    w = run (mount (initial_world api)) evs /\ unmounted w = false.

(** * Vocabulary of the properties *)

(** A Number greater than zero: finite and positive, or [Infinity]. *)
Definition positive_number (x : Num.number) : Prop :=
  match x with
  | S754_finite false _ _ | S754_infinity false => True
  | _ => False
  end.

(** Exponent of the smallest subnormal. *)
Definition emin : Z := SpecFloat.emin Num.prec Num.emax.

(** The request succeeded and [data.rates.MYR] evaluates to [v]. *)
Definition delivers (c : Completion) (v : Value) : Prop :=
  exists response data rates,
    fetched c = Ok response /\ ok response = true /\
    resp_json response = Ok data /\
    Js.get (VJson data) "rates" = Ok rates /\
    Js.get rates "MYR" = Ok v.

(** The completion the endpoint produces for the rate [x]. *)
Definition rate_reply (x : Num.number) (time : nat) (play : option Thrown)
  : Completion :=
  {| fetched := Ok {| resp_status := 200; resp_statusText := "OK";
                      resp_json := Ok (JObject
                        [("amount", JNumber (Num.of_Z 1));
                         ("base", JString "SGD");
                         ("rates", JObject [("MYR", JNumber x)])]) |};
     now := time;
     playback := play |}.

(** A completion whose body carries [v] as [rates.MYR]. *)
Definition reply_with (v : Json) (time : nat) : Completion :=
  {| fetched := Ok {| resp_status := 200; resp_statusText := "OK";
                      resp_json := Ok (JObject
                        [("amount", JNumber (Num.of_Z 1));
                         ("base", JString "SGD");
                         ("rates", JObject [("MYR", v)])]) |};
     now := time;
     playback := None |}.

(** The actions of a playback request for the sound [s], and the flag it
    gives to the notification. *)
Definition playback_request (s : string) : list Effect :=
  if Js.truthy s then [EAudioPlay s] else [].

Definition playback_log (s : string) (c : Completion) : list Effect :=
  match playback c with
  | Some e =>
      if Js.truthy s then [EConsoleError "Error playing audio:" (describe e)]
      else []
  | None => []
  end.

(** What the second part of [fetchRate] does once a Number has arrived. *)
Definition settle_number (t : Num.number) (s : string) (api : option Permission)
  (c : Completion) (x : Num.number) (st : AppState) : AppState * list Effect :=
  let st1 := setLastChecked (Some (now c)) (setRate (VJson (JNumber x)) st) in
  if Num.gt x t then
    match api with
    | None =>
        (setIsLoading false
           (setError (Some "Notification is not defined") st1),
         [EConsoleError "Failed to fetch exchange rate:"
                        "Notification is not defined"])
    | Some p =>
        if is_granted p then
          (setIsLoading false st1,
           (playback_request s
            ++ [ENotification alert_title
                  (alert_body t (Num.toFixed x 4)) (Js.truthy s)]
            ++ playback_log s c)%list)
        else (setIsLoading false st1, [])
    end
  else (setIsLoading false st1, []).

Definition alerts (tr : list Effect) : list Effect := filter is_notification tr.

Definition playbacks (tr : list Effect) : list Effect := filter is_playback tr.

(** The inputs [handleSetCheckInterval] accepts, read off the text: after
    leading white space and an optional [+], a run of digits of non-zero
    value; what follows the digits is not looked at. *)
Definition positive_integer_prefix (s : string) : bool :=
  let '(neg, u) := Num.strip_sign (Str.trim_start s) in
  let '(ds, _) := Str.span_digits u in
  negb neg && (0 <? Str.digits_value 0 ds).

(** The settings and form fields of a state: everything a check leaves
    alone. *)
Definition same_settings (st st' : AppState) : Prop :=
  notificationPermission st' = notificationPermission st
  /\ threshold st' = threshold st
  /\ inputThreshold st' = inputThreshold st
  /\ thresholdError st' = thresholdError st
  /\ checkInterval st' = checkInterval st
  /\ inputCheckInterval st' = inputCheckInterval st
  /\ intervalError st' = intervalError st
  /\ notificationSound st' = notificationSound st.

(** A computation of the [try] block that leaves the settings alone. *)
Definition keeps_settings {A} (m : Body A) : Prop :=
  forall st tr, same_settings st (snd (fst (m st tr))).

(** The timer the polling effect arms in the state [st]. *)
Definition armed_timer (st : AppState) : Timer :=
  {| timer_callback := current_fetchRate st;
     timer_delay :=
       Num.mul (Num.mul (checkInterval st) (Num.of_Z 60)) (Num.of_Z 1000) |}.

(** The effect has run for the settings on display, its timer is armed, and
    both settings passed the validation. *)
Definition in_sync (w : World) : Prop :=
  effect_deps w = Some (current_fetchRate (state w), checkInterval (state w))
  /\ interval_timer w = Some (armed_timer (state w))
  /\ valid_positive (threshold (state w)) = true
  /\ valid_positive (checkInterval (state w)) = true.

Definition same_config (st st' : AppState) : Prop :=
  threshold st' = threshold st
  /\ checkInterval st' = checkInterval st
  /\ notificationSound st' = notificationSound st.

Definition mounted (api : option Permission) : World :=
  mount (initial_world api).

(** The actions of a run of the polling effect after a change: the cleanup,
    the request of the immediate check, the new timer. *)
Definition rerun_trace (st : AppState) : list Effect :=
  [EClearInterval; EFetch API_URL; ESetInterval (timer_delay (armed_timer st))].

(** [w'] is [w] after the settings changed to those of [st]: the new state
    is [st] with a check begun, a request is in flight for the new
    [fetchRate], which the new timer calls as well, and the request was
    sent before the timer was armed. *)
Definition reconfigured (w : World) (st : AppState) (w' : World) : Prop :=
  state w' = fetchRate_begin st
  /\ in_flight w' = (in_flight w ++ [current_fetchRate st])%list
  /\ interval_timer w' = Some (armed_timer st)
  /\ trace w' = (trace w ++ rerun_trace st)%list.

(** At most one request is in flight, whatever has happened. *)
Definition at_most_one_in_flight : Prop :=
  forall w : World, reachable w -> (List.length (in_flight w) <= 1)%nat.

(** The reply of the endpoint whose [rates] object has no [MYR] member. *)
Definition reply_without_rate : Completion :=
  {| fetched := Ok {| resp_status := 200; resp_statusText := "OK";
                      resp_json := Ok (JObject
                        [("amount", JNumber (Num.of_Z 1));
                         ("base", JString "SGD");
                         ("rates", JObject [])]) |};
     now := 1;
     playback := None |}.

(** The kinds of failure of the specification (its section 4.2), which the
    component has no type for. *)
Inductive ErrorKind : Type := Network | Http | Parse.

(** The kind of a failed completion in the words of the specification: a
    transport failure, a status that is not a success, a body that is not
    JSON or lacks the numeric field. *)
Definition failure_kind (c : Completion) : option ErrorKind :=
  match fetched c with
  | Raise _ => Some Network
  | Ok r =>
      if negb (ok r) then Some Http
      else
        match resp_json r with
        | Raise _ => Some Parse
        | Ok data =>
            match Js.get (VJson data) "rates" with
            | Raise _ => Some Parse
            | Ok rates =>
                match Js.get rates "MYR" with
                | Ok (VJson (JNumber _)) => None
                | _ => Some Parse
                end
            end
        end
  end.

(** The state records the kind of every failure: the kind can be read off
    the state a failed check leaves. *)
Definition records_kind (kind_of : AppState -> option ErrorKind) : Prop :=
  forall t s api c st k,
    failure_kind c = Some k ->
    kind_of (fst (fetchRate_settle t s api c st)) = Some k.

Definition failed_request (e : Thrown) : Completion :=
  {| fetched := Raise e; now := 1; playback := None |}.

Definition failed_body (e : Thrown) : Completion :=
  {| fetched := Ok {| resp_status := 200; resp_statusText := "OK";
                      resp_json := Raise e |};
     now := 1;
     playback := None |}.

(** A request that fails before a rate is read, with the message the
    [catch] clause derives: the request is rejected, the status is not a
    success, the body is not JSON, or the body has no [rates] to read [MYR]
    from. *)
Inductive fetch_failure (c : Completion) : string -> Prop :=
  | failure_network e :
      fetched c = Raise e -> fetch_failure c (error_message e)
  | failure_http r :
      fetched c = Ok r -> ok r = false -> fetch_failure c (api_error r)
  | failure_body r e :
      fetched c = Ok r -> ok r = true -> resp_json r = Raise e ->
      fetch_failure c (error_message e)
  | failure_no_rates r data e :
      fetched c = Ok r -> ok r = true -> resp_json r = Ok data ->
      Js.get (VJson data) "rates" = Raise e ->
      fetch_failure c (error_message e)
  | failure_rates r data rates e :
      fetched c = Ok r -> ok r = true -> resp_json r = Ok data ->
      Js.get (VJson data) "rates" = Ok rates ->
      Js.get rates "MYR" = Raise e ->
      fetch_failure c (error_message e).

Definition http_reply (code : nat) (reason : string) : Completion :=
  {| fetched := Ok {| resp_status := code; resp_statusText := reason;
                      resp_json := Ok JNull |};
     now := 1;
     playback := None |}.

(** The invariant of the published state. *)
Definition monitor_invariant (st : AppState) : Prop :=
  (status st = StatusError -> exists m, error st = Some m /\ m <> "")
  /\ (status st = Monitoring -> has_sample (rate st) = true).

(** A completion as the endpoint is meant to produce them: a Number for
    the rate, or a failure with a message. *)
Definition regular_completion (c : Completion) : Prop :=
  (exists x, delivers c (VJson (JNumber x)))
  \/ (exists msg, fetch_failure c msg /\ msg <> "").

Definition regular_event (ev : Event) : Prop :=
  match ev with
  | Settle _ c => regular_completion c
  | _ => True
  end.

(** The part of the state the status is computed from, and the rate. *)
Definition same_sample (st st' : AppState) : Prop :=
  rate st' = rate st /\ error st' = error st /\ isLoading st' = isLoading st.

(** ** Further vocabulary *)

(** What a check can leave in the trace: nothing, the log of a thrown
    error, or an alert (playback request, notification, playback log). *)
Inductive settle_trace (t : Num.number) (s : string)
  (api : option Permission) (c : Completion) : list Effect -> Prop :=
  | trace_quiet : settle_trace t s api c []
  | trace_thrown msg :
      settle_trace t s api c
        [EConsoleError "Failed to fetch exchange rate:" msg]
  | trace_alert x :
      api = Some PGranted ->
      delivers c (VJson (JNumber x)) ->
      Num.gt x t = true ->
      settle_trace t s api c
        (playback_request s
         ++ [ENotification alert_title (alert_body t (Num.toFixed x 4))
                           (Js.truthy s)]
         ++ playback_log s c)%list.

Definition is_set_interval (e : Effect) : bool :=
  match e with ESetInterval _ => true | _ => false end.

Definition is_clear_interval (e : Effect) : bool :=
  match e with EClearInterval => true | _ => false end.

(** Timers armed and timers cleared so far. *)
Definition timers_set (tr : list Effect) : nat :=
  List.length (filter is_set_interval tr).

Definition timers_cleared (tr : list Effect) : nat :=
  List.length (filter is_clear_interval tr).

(** The error message of a form is absent or the fixed text of the form. *)
Definition form_errors (st : AppState) : Prop :=
  (thresholdError st = None \/ thresholdError st = Some threshold_message)
  /\ (intervalError st = None \/ intervalError st = Some interval_message).

(** The threshold as the header shows it ([threshold.toFixed(2)]). *)
Definition header_threshold (st : AppState) : string :=
  Num.toFixed (threshold st) 2.

(** The text [RateDisplay] shows in place of a rate it does not have. *)
Definition rate_placeholder : string := "-.----".

(** What [RateDisplay] makes of a value, once loading is over. *)
Definition rate_view (v : Value) : Result RateView :=
  match v with
  | VJson (JNumber x) =>
      match x with
      | S754_zero _ | S754_nan => Ok (RateText rate_placeholder)
      | _ => Ok (RateText (Num.toFixed x 4))
      end
  | VUndefined | VJson JNull | VJson (JBool false) | VJson (JString "") =>
      Ok (RateText rate_placeholder)
  | _ => Raise (ThrownError "rate.toFixed is not a function")
  end.

(** What [NotificationBanner] renders: nothing, or a text with or without
    the Enable button. *)
Inductive BannerView : Type :=
  | NoBanner
  | Banner (text : string) (enable_button : bool).

Definition NotificationBanner (permission : Permission) : BannerView :=
  match permission with
  | PGranted => NoBanner
  | PDenied => Banner "Notifications are blocked" false
  | PDefault => Banner "Enable notifications for alerts" true
  end.

(** The effects that start something: a request or a timer. *)
Definition starts_something (e : Effect) : bool :=
  match e with EFetch _ | ESetInterval _ => true | _ => false end.

(** The events other than the completion of a request. *)
Definition is_settle (ev : Event) : bool :=
  match ev with Settle _ _ => true | _ => false end.

(** * Properties *)

(** ** The conversions on known values *)

Example parseFloat_prefix :
  Num.parseFloat "  3.5px" = Num.of_decimal false 35 (-1)
  /\ Num.parseFloat ".5" = Num.of_decimal false 5 (-1)
  /\ Num.parseFloat "1e3" = Num.of_Z 1000
  /\ Num.parseFloat "-0" = S754_zero true
  /\ Num.parseFloat "." = Num.NaN
  /\ Num.parseFloat "" = Num.NaN
  /\ Num.parseFloat "1e999" = Num.Infinity.
Proof. vm_compute. repeat split; reflexivity. Qed.

Example parseInt10_prefix :
  Num.parseInt10 " 12abc" = Num.of_Z 12
  /\ Num.parseInt10 "-5" = Num.of_Z (-5)
  /\ Num.parseInt10 "007" = Num.of_Z 7
  /\ Num.parseInt10 "1e3" = Num.of_Z 1
  /\ Num.parseInt10 "" = Num.NaN
  /\ Num.parseInt10 "abc" = Num.NaN.
Proof. vm_compute. repeat split; reflexivity. Qed.

Example toString_shortest :
  Num.toString (Num.of_decimal false 1 (-1)) = "0.1"
  /\ Num.toString (Num.of_Z 100) = "100"
  /\ Num.toString (Num.of_decimal false 1 21) = "1e+21"
  /\ Num.toString (Num.of_decimal false 1 (-7)) = "1e-7"
  /\ Num.toString (Num.of_decimal false 5 (-324)) = "5e-324"
  /\ Num.toString (Num.of_decimal false 17976931348623157 292)
     = "1.7976931348623157e+308"
  /\ Num.toString (Num.of_Z 9007199254740993) = "9007199254740992"
  /\ Num.toString (Num.of_decimal true 325 (-2)) = "-3.25".
Proof. vm_compute. repeat split; reflexivity. Qed.

Example toFixed_rounding :
  Num.toFixed (Num.of_decimal false 1005 (-3)) 2 = "1.00"
  /\ Num.toFixed (Num.of_decimal false 8345 (-3)) 2 = "8.35"
  /\ Num.toFixed (Num.of_decimal false 5 (-5)) 4 = "0.0001"
  /\ Num.toFixed (Num.of_decimal true 1 (-5)) 4 = "-0.0000"
  /\ Num.toFixed (Num.of_decimal false 1 21) 4 = "1e+21"
  /\ Num.toFixed Num.NaN 4 = "NaN"
  /\ Num.toFixed (Num.of_Z 600000) 0 = "600000".
Proof. vm_compute. repeat split; reflexivity. Qed.

(** The delay of the first timer: ten minutes in milliseconds. *)
Example initial_delay :
  interval_timer (mounted None)
  = Some {| timer_callback := current_fetchRate initial_state;
            timer_delay := Num.of_Z 600000 |}.
Proof. reflexivity. Qed.

(** ** Decimal strings *)

Module StrFacts.

Lemma is_digit_digit_char d : 0 <= d < 10 -> Str.is_digit (Str.digit_char d) = true.
Proof.
  intros H.
  assert (d = 0 \/ d = 1 \/ d = 2 \/ d = 3 \/ d = 4 \/ d = 5 \/ d = 6 \/
          d = 7 \/ d = 8 \/ d = 9) as Hd by lia.
  repeat (destruct Hd as [-> | Hd]; [reflexivity |]). subst d. reflexivity.
Qed.

Lemma all_digits_app a b :
  Str.all_digits (a ++ b) = Str.all_digits a && Str.all_digits b.
Proof.
  induction a as [| c a IH]; simpl; [reflexivity |].
  rewrite IH, andb_assoc. reflexivity.
Qed.

Lemma all_digits_zeros n : Str.all_digits (Str.zeros n) = true.
Proof. induction n; simpl; auto. Qed.

Lemma length_zeros n : String.length (Str.zeros n) = n.
Proof. induction n; simpl; auto. Qed.

Lemma length_app a b :
  String.length (a ++ b) = (String.length a + String.length b)%nat.
Proof. induction a; simpl; auto. Qed.

Lemma digits_of_spec fuel : forall z acc,
  Str.all_digits acc = true ->
  Str.all_digits (Str.digits_of fuel z acc) = true
  /\ (fuel <> O -> (String.length acc < String.length (Str.digits_of fuel z acc))%nat).
Proof.
  induction fuel as [| f IH]; intros z acc Hacc; simpl.
  - split; [assumption | congruence].
  - assert (Hc : Str.all_digits (String (Str.digit_char (z mod 10)) acc) = true).
    { simpl. rewrite Hacc, is_digit_digit_char; [reflexivity |].
      apply Z.mod_pos_bound. lia. }
    destruct (z <? 10).
    + split; [assumption | intros _; simpl; lia].
    + destruct (IH (z / 10) _ Hc) as [H1 H2]. split; [assumption |].
      intros _. destruct f; simpl in *; [lia |].
      assert (S f <> O) as Hne by congruence. specialize (H2 Hne). lia.
Qed.

Lemma all_digits_of_Z z : Str.all_digits (Str.of_Z z) = true.
Proof. apply digits_of_spec. reflexivity. Qed.

Lemma of_Z_nonempty z : (0 < String.length (Str.of_Z z))%nat.
Proof.
  unfold Str.of_Z.
  destruct (digits_of_spec (S (Z.to_nat (Z.log2 z))) z "" eq_refl) as [_ H].
  simpl in H. apply H. congruence.
Qed.

Lemma take_drop n : forall s, Str.take n s ++ Str.drop n s = s.
Proof.
  induction n as [| n IH]; intros [| c s]; simpl; try reflexivity.
  rewrite IH. reflexivity.
Qed.

Lemma length_take n : forall s,
  (n <= String.length s)%nat -> String.length (Str.take n s) = n.
Proof.
  induction n as [| n IH]; intros [| c s] H; simpl in *; try lia.
  rewrite IH; lia.
Qed.

Lemma length_drop n : forall s,
  String.length (Str.drop n s) = (String.length s - n)%nat.
Proof.
  induction n as [| n IH]; intros [| c s]; simpl; try lia. apply IH.
Qed.

Lemma span_digits_app ds : forall rest,
  Str.all_digits ds = true ->
  match rest with String c _ => Str.is_digit c = false | EmptyString => True end ->
  Str.span_digits (ds ++ rest) = (ds, rest).
Proof.
  induction ds as [| c ds IH]; intros rest Hd Hr; simpl in *.
  - destruct rest as [| c r]; [reflexivity |]. simpl. rewrite Hr. reflexivity.
  - apply andb_true_iff in Hd as [Hc Hd]. rewrite Hc, (IH rest Hd Hr).
    reflexivity.
Qed.

Lemma has_decimals_unsigned f c r :
  Str.is_digit c = true ->
  Str.has_decimals f (String c r) = Str.unsigned_decimals f (String c r).
Proof.
  unfold Str.has_decimals.
  destruct c as [[] [] [] [] [] [] [] []]; try reflexivity; discriminate.
Qed.

Lemma app_empty_r (s : string) : s ++ "" = s.
Proof. induction s; simpl; congruence. Qed.

Lemma has_decimals_build f ip fp :
  ip <> "" -> Str.all_digits ip = true -> Str.all_digits fp = true ->
  String.length fp = f ->
  forall neg : bool,
    Str.has_decimals f ((if neg then "-" else "") ++ ip ++ "." ++ fp) = true.
Proof.
  intros Hne Hip Hfp Hlen neg.
  assert (H : Str.unsigned_decimals f (ip ++ "." ++ fp) = true).
  { unfold Str.unsigned_decimals.
    rewrite (span_digits_app ip ("." ++ fp) Hip); [| reflexivity].
    destruct ip as [| c ip]; [congruence |].
    simpl. rewrite <- (app_empty_r fp) at 1.
    rewrite (span_digits_app fp "" Hfp I), Hlen, Nat.eqb_refl. reflexivity. }
  destruct neg; [exact H |].
  destruct ip as [| c ip]; [congruence |].
  change ("" ++ String c ip ++ "." ++ fp) with (String c (ip ++ "." ++ fp)).
  rewrite has_decimals_unsigned; [exact H |].
  simpl in Hip. apply andb_true_iff in Hip. tauto.
Qed.

Lemma split_decimals f m :
  Str.all_digits m = true -> (f < String.length m)%nat ->
  forall neg : bool,
    Str.has_decimals f
      ((if neg then "-" else "")
       ++ Str.take (String.length m - f) m ++ "."
       ++ Str.drop (String.length m - f) m) = true.
Proof.
  intros Hm Hlen neg.
  pose proof (take_drop (String.length m - f) m) as Htd.
  assert (Hall : Str.all_digits (Str.take (String.length m - f) m) = true
                 /\ Str.all_digits (Str.drop (String.length m - f) m) = true).
  { rewrite <- Htd, all_digits_app in Hm. apply andb_true_iff in Hm. exact Hm. }
  apply has_decimals_build; try tauto.
  - intros He.
    assert (String.length (Str.take (String.length m - f) m)
            = (String.length m - f)%nat) by (apply length_take; lia).
    rewrite He in H. simpl in H. lia.
  - rewrite length_drop. lia.
Qed.

Lemma toFixed_has_decimals x f :
  f <> O -> Num.isFinite x = true -> Num.below_1e21 x = true ->
  Str.has_decimals f (Num.toFixed x f) = true.
Proof.
  intros Hf Hfin Hb. unfold Num.toFixed. rewrite Hfin, Hb. cbn [negb].
  destruct f as [| f']; [congruence |].
  set (m0 := Str.of_Z (Num.fixed_integer x (Z.of_nat (S f')))).
  pose proof (all_digits_of_Z (Num.fixed_integer x (Z.of_nat (S f')))) as Hd.
  pose proof (of_Z_nonempty (Num.fixed_integer x (Z.of_nat (S f')))) as Hn.
  fold m0 in Hd, Hn.
  destruct (String.length m0 <=? S f')%nat eqn:Hk.
  - apply Nat.leb_le in Hk. apply split_decimals.
    + rewrite all_digits_app, all_digits_zeros, Hd. reflexivity.
    + rewrite length_app, length_zeros. lia.
  - apply Nat.leb_gt in Hk. apply split_decimals; assumption.
Qed.

Lemma prefix_app n b : prefix n (n ++ b) = true.
Proof.
  induction n as [| c n IH]; simpl; [destruct b; reflexivity |].
  destruct (ascii_dec c c); [exact IH | congruence].
Qed.

Lemma contains_prefix n h : prefix n h = true -> Str.contains n h = true.
Proof. intros H. destruct h; cbn [Str.contains]; rewrite H; reflexivity. Qed.

Lemma contains_app a n b : Str.contains n (a ++ n ++ b) = true.
Proof.
  induction a as [| c a IH]; simpl.
  - apply contains_prefix, prefix_app.
  - rewrite IH. apply orb_true_r.
Qed.

Lemma append_assoc_str (a b c : string) : (a ++ b) ++ c = a ++ (b ++ c).
Proof. induction a as [| x a IH]; simpl; [reflexivity | rewrite IH; reflexivity]. Qed.

End StrFacts.

(** ** Rounding to a Number *)

Module FloatFacts.

Lemma positive_number_gt x : positive_number x <-> Num.gt x Num.pos_zero = true.
Proof.
  destruct x as [s | [] | | [] m e]; simpl; unfold Num.gt, SFltb; simpl;
    intuition congruence.
Qed.

Lemma digits_bounds p :
  2 ^ (Zpos (digits2_pos p) - 1) <= Zpos p < 2 ^ Zpos (digits2_pos p).
Proof.
  induction p as [p IH | p IH |]; simpl digits2_pos.
  - rewrite Pos2Z.inj_succ, Z.pow_succ_r by lia.
    replace (Z.succ (Zpos (digits2_pos p)) - 1) with (Z.succ (Zpos (digits2_pos p) - 1)) by lia.
    rewrite Z.pow_succ_r by lia. lia.
  - rewrite Pos2Z.inj_succ, Z.pow_succ_r by lia.
    replace (Z.succ (Zpos (digits2_pos p)) - 1) with (Z.succ (Zpos (digits2_pos p) - 1)) by lia.
    rewrite Z.pow_succ_r by lia. lia.
  - simpl. lia.
Qed.

Lemma Zdigits2_bounds m :
  0 < m -> 2 ^ (Zdigits2 m - 1) <= m < 2 ^ Zdigits2 m.
Proof. destruct m as [| p | p]; try lia. intros _. apply digits_bounds. Qed.

Lemma Zdigits2_lower m k : 0 <= k -> 2 ^ k <= m -> k < Zdigits2 m.
Proof.
  intros Hk H. assert (0 < m) by (pose proof (Z.pow_pos_nonneg 2 k); lia).
  destruct (Zdigits2_bounds m H0) as [_ Hu].
  apply (Z.pow_lt_mono_r_iff 2); try lia.
  destruct m; cbn [Zdigits2]; lia.
Qed.

Lemma shr_1_m r : 0 <= shr_m r -> shr_m (shr_1 r) = shr_m r / 2.
Proof.
  destruct r as [m rb sb]. simpl. intros H.
  destruct m as [| [p | p |] | p]; try lia; simpl shr_m; try reflexivity.
  - rewrite Pos2Z.inj_xI. apply Z.div_unique with 1; lia.
  - rewrite Pos2Z.inj_xO. apply Z.div_unique with 0; lia.
Qed.

Lemma iter_shr_m n : forall r,
  0 <= shr_m r -> shr_m (iter_pos shr_1 n r) = shr_m r / 2 ^ Zpos n.
Proof.
  assert (Hnn : forall a k, 0 <= a -> 0 <= a / 2 ^ Zpos k).
  { intros. apply Z.div_pos; [assumption | apply Z.pow_pos_nonneg; lia]. }
  induction n as [n IH | n IH |]; intros r Hr; simpl iter_pos.
  - rewrite IH, IH, shr_1_m by
      (try rewrite IH; try rewrite shr_1_m; try apply Hnn; try apply Z.div_pos; lia).
    rewrite !Z.div_div by (try apply Z.pow_pos_nonneg; lia).
    f_equal. rewrite Pos2Z.inj_xI, <- Z.pow_add_r, <- Z.pow_succ_r by lia.
    f_equal. lia.
  - rewrite IH, IH by (try rewrite IH; try apply Hnn; lia).
    rewrite !Z.div_div by (try apply Z.pow_pos_nonneg; lia).
    f_equal. rewrite Pos2Z.inj_xO, <- Z.pow_add_r by lia. f_equal. lia.
  - rewrite shr_1_m by assumption. reflexivity.
Qed.

Lemma shr_record_of_loc_m m l : shr_m (shr_record_of_loc m l) = m.
Proof. destruct l as [| []]; reflexivity. Qed.

(** Shifting a positive mantissa to its canonical exponent leaves it
    positive, unless it lies below the smallest subnormal. *)
Lemma shr_fexp_positive m e l :
  0 < m -> emin < e + Zdigits2 m ->
  0 < shr_m (fst (shr_fexp Num.prec Num.emax m e l))
  /\ e + Zdigits2 m
     <= snd (shr_fexp Num.prec Num.emax m e l)
        + Zdigits2 (shr_m (fst (shr_fexp Num.prec Num.emax m e l))).
Proof.
  intros Hm He. unfold shr_fexp, shr.
  remember (fexp Num.prec Num.emax (Zdigits2 m + e) - e) as n eqn:Hq.
  assert (Hn : n <= Zdigits2 m - 1).
  { subst n. unfold fexp, emin, SpecFloat.emin, Num.prec, Num.emax in *. lia. }
  clear Hq. destruct n as [| q | q]; simpl fst; simpl snd;
    rewrite ?shr_record_of_loc_m; try (split; lia).
  rewrite iter_shr_m by (rewrite shr_record_of_loc_m; lia).
  rewrite shr_record_of_loc_m.
  destruct (Zdigits2_bounds m Hm) as [Hl _].
  assert (Hlow : 2 ^ (Zdigits2 m - 1 - Zpos q) <= m / 2 ^ Zpos q).
  { apply Z.div_le_lower_bound; [apply Z.pow_pos_nonneg; lia |].
    rewrite <- Z.pow_add_r by lia.
    replace (Zpos q + (Zdigits2 m - 1 - Zpos q)) with (Zdigits2 m - 1) by lia.
    exact Hl. }
  split.
  - pose proof (Z.pow_pos_nonneg 2 (Zdigits2 m - 1 - Zpos q)). lia.
  - assert (Hk : 0 <= Zdigits2 m - 1 - Zpos q) by lia.
    pose proof (Zdigits2_lower _ _ Hk Hlow). lia.
Qed.

Lemma round_nearest_even_ge m l : m <= round_nearest_even m l.
Proof. destruct l as [| []]; simpl; try lia. destruct (Z.even m); lia. Qed.

Lemma Zdigits2_mono a b : 0 < a -> a <= b -> Zdigits2 a <= Zdigits2 b.
Proof.
  intros Ha Hab. destruct (Zdigits2_bounds a Ha) as [Hl _].
  assert (0 <= Zdigits2 a - 1) by (destruct a; cbn [Zdigits2]; lia).
  assert (Hb : 2 ^ (Zdigits2 a - 1) <= b) by lia.
  pose proof (Zdigits2_lower b (Zdigits2 a - 1) H Hb). lia.
Qed.

Lemma binary_round_aux_positive sx m e l :
  0 < m -> emin < e + Zdigits2 m ->
  match binary_round_aux Num.prec Num.emax sx m e l with
  | S754_finite s _ _ | S754_infinity s => s = sx
  | _ => False
  end.
Proof.
  intros Hm He. unfold binary_round_aux.
  destruct (shr_fexp_positive m e l Hm He) as [H1 H2].
  destruct (shr_fexp Num.prec Num.emax m e l) as [r1 e1]. simpl in H1, H2.
  set (m2 := round_nearest_even (shr_m r1) (loc_of_shr_record r1)).
  assert (Hm2 : shr_m r1 <= m2) by apply round_nearest_even_ge.
  assert (Hd : Zdigits2 (shr_m r1) <= Zdigits2 m2) by (apply Zdigits2_mono; lia).
  destruct (shr_fexp_positive m2 e1 loc_Exact ltac:(lia) ltac:(lia)) as [H3 _].
  destruct (shr_fexp Num.prec Num.emax m2 e1 loc_Exact) as [r2 e2]. simpl in H3.
  destruct (shr_m r2); try lia.
  destruct (e2 <=? Num.emax - Num.prec); reflexivity.
Qed.

Lemma iter_xO_value k : forall p, Zpos (Pos.iter xO p k) = Zpos p * 2 ^ Zpos k.
Proof.
  induction k using Pos.peano_ind; intros p.
  - simpl. lia.
  - rewrite Pos.iter_succ, Pos2Z.inj_xO, IHk, Pos2Z.inj_succ, Z.pow_succ_r by lia.
    lia.
Qed.

Lemma binary_round_positive sx p e :
  emin < e + Zpos (digits2_pos p) ->
  match binary_round Num.prec Num.emax sx p e with
  | S754_finite s _ _ | S754_infinity s => s = sx
  | _ => False
  end.
Proof.
  intros He. unfold binary_round, shl_align.
  set (e' := fexp Num.prec Num.emax (Zpos (digits2_pos p) + e)).
  destruct (e' - e) as [| d | d] eqn:Hd;
    try (apply binary_round_aux_positive; simpl; lia).
  apply binary_round_aux_positive; [lia |].
  assert (H : Zpos (digits2_pos p) - 1 + Zpos d < Zdigits2 (Zpos (Pos.iter xO p d))).
  { apply Zdigits2_lower; [lia |].
    rewrite iter_xO_value, Z.pow_add_r by lia.
    destruct (digits_bounds p) as [Hl _].
    apply Z.mul_le_mono_nonneg_r; [apply Z.pow_nonneg; lia | exact Hl]. }
  lia.
Qed.

(** The Number value of a positive integer is positive (possibly
    [Infinity]); of a negative integer, never. *)
Lemma of_decimal_integer_sign neg p :
  match Num.of_decimal neg (Zpos p) 0 with
  | S754_finite s _ _ | S754_infinity s => s = neg
  | _ => False
  end.
Proof.
  unfold Num.of_decimal. cbn [Z.leb Z.compare Z.pow].
  assert (He : emin < 0 + Zpos (digits2_pos p))
    by (unfold emin, SpecFloat.emin, Num.prec, Num.emax; lia).
  destruct neg; cbn [Z.mul]; rewrite Pos.mul_1_r;
    apply binary_round_positive; exact He.
Qed.

Lemma of_decimal_integer_positive p :
  positive_number (Num.of_decimal false (Zpos p) 0).
Proof.
  pose proof (of_decimal_integer_sign false p) as H.
  destruct (Num.of_decimal false (Zpos p) 0) as [| s | | s m e];
    try contradiction; subst; exact I.
Qed.

Lemma of_decimal_negative_integer p :
  ~ positive_number (Num.of_decimal true (Zpos p) 0).
Proof.
  pose proof (of_decimal_integer_sign true p) as H.
  destruct (Num.of_decimal true (Zpos p) 0) as [| s | | s m e];
    try contradiction; subst; exact (fun f => f).
Qed.

Lemma binary_round_aux_sign sx m e l :
  match binary_round_aux Num.prec Num.emax sx m e l with
  | S754_finite s _ _ | S754_infinity s | S754_zero s => s = sx
  | S754_nan => True
  end.
Proof.
  unfold binary_round_aux.
  destruct (shr_fexp Num.prec Num.emax m e l) as [r1 e1].
  destruct (shr_fexp Num.prec Num.emax _ e1 loc_Exact) as [r2 e2].
  destruct (shr_m r2); try exact I; try reflexivity.
  destruct (e2 <=? Num.emax - Num.prec); reflexivity.
Qed.

Lemma of_decimal_negative m e : ~ positive_number (Num.of_decimal true m e).
Proof.
  unfold Num.of_decimal.
  destruct m as [| p | p]; try (exact (fun f => f)).
  destruct (0 <=? e) eqn:He.
  - pose proof (Z.pow_nonneg 10 e ltac:(lia)) as Hp.
    destruct (10 ^ e) as [| q | q]; try lia; cbn [Z.mul binary_normalize].
    + exact (fun f => f).
    + unfold binary_round.
      destruct (shl_align (p * q) 0 _) as [mz ez].
      pose proof (binary_round_aux_sign true (Zpos mz) ez loc_Exact) as H.
      destruct (binary_round_aux Num.prec Num.emax true (Zpos mz) ez loc_Exact)
        as [s | s | | s m' e']; simpl; subst; auto.
  - unfold Num.of_ratio.
    destruct (SFdiv_core_binary _ _ _ _ _ _) as [[q e'] l].
    pose proof (binary_round_aux_sign true q e' l) as H.
    destruct (binary_round_aux Num.prec Num.emax true q e' l)
      as [s | s | | s m' e'']; simpl; subst; auto.
Qed.

Lemma valid_positive_iff x : valid_positive x = true <-> positive_number x.
Proof.
  unfold valid_positive, Num.gt, SFltb.
  destruct x as [s | [] | | [] m e]; simpl; intuition congruence.
Qed.

End FloatFacts.

(** ** The alert decision *)

Lemma rate_reply_delivers x time play :
  delivers (rate_reply x time play) (VJson (JNumber x)).
Proof.
  unfold delivers, rate_reply; simpl.
  eexists _, _, _; repeat split; reflexivity.
Qed.

Ltac run_body :=
  cbv beta iota delta [fetchRate_settle try_block bind lift ret throw update
                       emit permission_granted Js.greater_than Js.to_number
                       Js.call_toFixed].

Lemma fetchRate_settle_number t s api c x st :
  delivers c (VJson (JNumber x)) ->
  fetchRate_settle t s api c st = settle_number t s api c x st.
Proof.
  intros (response & data & rates & Hf & Hok & Hj & Hr & Hm).
  unfold settle_number, playback_request, playback_log.
  run_body. rewrite Hf, Hok. cbn [negb]. rewrite Hj, Hr, Hm.
  destruct (Num.gt x t); [| destruct (playback c); reflexivity].
  destruct api as [p |]; [| destruct (playback c); reflexivity].
  cbn [andb]. destruct (is_granted p); [| destruct (playback c); reflexivity].
  destruct (Js.truthy s); destruct (playback c); reflexivity.
Qed.

Lemma alerts_settle_number t s api c x st :
  alerts (snd (settle_number t s api c x st)) =
  if Num.gt x t && match api with Some p => is_granted p | None => false end
  then [ENotification alert_title (alert_body t (Num.toFixed x 4))
                      (Js.truthy s)]
  else [].
Proof.
  unfold settle_number, alerts, playback_request, playback_log.
  destruct (Num.gt x t); [| reflexivity].
  destruct api as [p |]; [| reflexivity].
  destruct (is_granted p); [| reflexivity].
  destruct (Js.truthy s); destruct (playback c); reflexivity.
Qed.

Lemma gt_equal x y : SFeqb x y = true -> Num.gt x y = false.
Proof.
  unfold Num.gt, SFltb, SFeqb.
  destruct x as [s | s | | s m e], y as [s' | s' | | s' m' e']; simpl;
    try discriminate; try reflexivity;
    try (destruct s; discriminate);
    try (destruct s'; discriminate);
    try (destruct s, s'; (discriminate || reflexivity)).
  assert (Hm : Pos.compare_cont Eq m' m = CompOpp (Pos.compare_cont Eq m m'))
    by (rewrite Pos.compare_cont_antisym; reflexivity).
  assert (He : (e' ?= e) = CompOpp (e ?= e')) by apply Z.compare_antisym.
  rewrite Hm, He.
  destruct s, s'; try discriminate;
    destruct (e ?= e'); simpl; try discriminate;
    destruct (Pos.compare_cont Eq m m'); simpl; try discriminate;
    reflexivity.
Qed.

(** C1: once a fetch has succeeded with the Number [x] as the rate, the
    check shows a notification if and only if [x > threshold] strictly and
    the permission is [granted], and it shows at most one; a rate equal to
    the threshold never alerts, and no permission other than [granted]
    alerts whatever the rate and the threshold are. *)
Theorem alert_iff_above_and_granted :
  forall (t x : Num.number) (s : string) (p : Permission) (c : Completion)
         (st : AppState),
    delivers c (VJson (JNumber x)) ->
    let tr := snd (fetchRate_settle t s (Some p) c st) in
    (alerts tr <> [] <-> Num.gt x t = true /\ p = PGranted)
    /\ (List.length (alerts tr) <= 1)%nat
    /\ (SFeqb x t = true -> alerts tr = [])
    /\ (p <> PGranted -> alerts tr = []).
Proof.
  intros t x s p c st Hd tr. subst tr.
  rewrite (fetchRate_settle_number _ _ _ _ _ _ Hd), alerts_settle_number.
  split; [| split; [| split]].
  - destruct (Num.gt x t), p; simpl; intuition congruence.
  - destruct (Num.gt x t && is_granted p); simpl; lia.
  - intros He. rewrite (gt_equal _ _ He). reflexivity.
  - intros Hp. destruct p; try congruence;
      simpl; rewrite andb_false_r; reflexivity.
Qed.

Lemma alert_iff_above_and_granted_witness :
  let c := rate_reply (Num.parseFloat "3.25") 0 None in
  let tr := snd (fetchRate_settle (Num.parseFloat "3.20") "" (Some PGranted)
                                  c initial_state) in
  (alerts tr <> [] <->
   Num.gt (Num.parseFloat "3.25") (Num.parseFloat "3.20") = true
   /\ PGranted = PGranted)
  /\ (List.length (alerts tr) <= 1)%nat
  /\ (SFeqb (Num.parseFloat "3.25") (Num.parseFloat "3.20") = true ->
      alerts tr = [])
  /\ (PGranted <> PGranted -> alerts tr = []).
Proof.
  exact (alert_iff_above_and_granted (Num.parseFloat "3.20")
           (Num.parseFloat "3.25") "" PGranted
           (rate_reply (Num.parseFloat "3.25") 0 None) initial_state
           (rate_reply_delivers _ _ _)).
Defined.

(** ** The alert message and the sound *)

(** C3, as stated, fails: with threshold 3.20 and rate 3.25 the one
    notification shown reads ["... exceeding the 3.2 threshold."]; the
    threshold with two decimals, ["3.20"], does not occur in it. *)
Lemma alert_body_lacks_two_decimal_threshold :
  let t := Num.parseFloat "3.20" in
  let x := Num.parseFloat "3.25" in
  let body := "SGD is now 3.2500 MYR, exceeding the 3.2 threshold." in
  alerts (snd (fetchRate_settle t "" (Some PGranted) (rate_reply x 0 None)
                                initial_state))
  = [ENotification alert_title body false]
  /\ Num.toFixed t 2 = "3.20"
  /\ Str.contains (Num.toFixed x 4) body = true
  /\ Str.contains (Num.toFixed t 2) body = false.
Proof. vm_compute. repeat split; reflexivity. Qed.

Lemma alert_body_contains t txt :
  Str.contains txt (alert_body t txt) = true
  /\ Str.contains (Num.toString t) (alert_body t txt) = true.
Proof.
  unfold alert_body. split; [apply StrFacts.contains_app |].
  rewrite <- (StrFacts.append_assoc_str txt),
          <- (StrFacts.append_assoc_str "SGD is now ").
  apply StrFacts.contains_app.
Qed.

(** C3, amended: every alert carries the message
    ["SGD is now <rate> MYR, exceeding the <threshold> threshold."] where
    the rate is [toFixed(4)] of the observed rate, which for a finite rate
    below 10^21 is a number with exactly four decimals, and the threshold is
    its plain conversion to a string (the shortest decimal that reads back
    as the same Number), not a two-decimal rendering: with threshold 3.20
    and rate 3.25 these are ["3.2500"] and ["3.2"]. *)
Theorem alert_body_format :
  forall (t x : Num.number) (s : string) (c : Completion) (st : AppState),
    delivers c (VJson (JNumber x)) ->
    Num.gt x t = true ->
    alerts (snd (fetchRate_settle t s (Some PGranted) c st))
    = [ENotification alert_title
         ("SGD is now " ++ Num.toFixed x 4 ++ " MYR, exceeding the "
          ++ Num.toString t ++ " threshold.")
         (Js.truthy s)]
    /\ Str.contains (Num.toFixed x 4) (alert_body t (Num.toFixed x 4)) = true
    /\ Str.contains (Num.toString t) (alert_body t (Num.toFixed x 4)) = true
    /\ (Num.isFinite x = true -> Num.below_1e21 x = true ->
        Str.has_decimals 4 (Num.toFixed x 4) = true)
    /\ Num.toFixed (Num.parseFloat "3.25") 4 = "3.2500"
    /\ Num.toString (Num.parseFloat "3.20") = "3.2".
Proof.
  intros t x s c st Hd Hgt.
  rewrite (fetchRate_settle_number _ _ _ _ _ _ Hd), alerts_settle_number, Hgt.
  split; [reflexivity |].
  split; [apply alert_body_contains |]. split; [apply alert_body_contains |].
  split.
  - intros Hfin Hb. apply StrFacts.toFixed_has_decimals; auto.
  - split; vm_compute; reflexivity.
Qed.

Lemma alert_body_format_witness :
  let t := Num.parseFloat "3.20" in
  let x := Num.parseFloat "3.25" in
  let c := rate_reply x 0 None in
  delivers c (VJson (JNumber x))
  /\ Num.gt x t = true
  /\ alerts (snd (fetchRate_settle t "" (Some PGranted) c initial_state))
     = [ENotification alert_title
          ("SGD is now " ++ Num.toFixed x 4 ++ " MYR, exceeding the "
           ++ Num.toString t ++ " threshold.")
          (Js.truthy "")].
Proof.
  split; [apply rate_reply_delivers |]. split; [reflexivity |].
  exact (proj1 (alert_body_format (Num.parseFloat "3.20")
                  (Num.parseFloat "3.25") "" _ initial_state
                  (rate_reply_delivers _ _ _) eq_refl)).
Defined.

(** C9: for every alert with a sound configured, the check requests the
    playback and shows the notification marked silent; when the playback
    fails the failure is logged after the notification, which is shown all
    the same, and the state is the one of a successful playback.  With the
    empty sound, which among the options of the selector is [Default] and no
    other, no playback is requested and the notification is not marked
    silent. *)
Theorem sound_alert_plays_and_is_silent :
  forall (t x : Num.number) (s : string) (c : Completion) (st : AppState),
    delivers c (VJson (JNumber x)) ->
    Num.gt x t = true ->
    let result := fetchRate_settle t s (Some PGranted) c st in
    let body := alert_body t (Num.toFixed x 4) in
    (s <> "" ->
       playbacks (snd result) = [EAudioPlay s]
       /\ alerts (snd result) = [ENotification alert_title body true]
       /\ snd result =
            ([EAudioPlay s; ENotification alert_title body true]
             ++ match playback c with
                | Some e => [EConsoleError "Error playing audio:" (describe e)]
                | None => []
                end)%list)
    /\ (s = "" -> snd result = [ENotification alert_title body false])
    /\ fst result
       = setIsLoading false
           (setLastChecked (Some (now c)) (setRate (VJson (JNumber x)) st))
    /\ (forall name url, In (name, url) SOUNDS ->
         (url = "" <-> name = "Default")).
Proof.
  intros t x s c st Hd Hgt result body. subst result body.
  rewrite (fetchRate_settle_number _ _ _ _ _ _ Hd).
  unfold settle_number, playback_request, playback_log, playbacks, alerts.
  rewrite Hgt. cbn [is_granted fst snd].
  split; [| split; [| split; [reflexivity |]]].
  - intros Hs. destruct s as [| a s]; [congruence |].
    cbn [Js.truthy]. destruct (playback c); repeat split; reflexivity.
  - intros ->. cbn [Js.truthy]. destruct (playback c); reflexivity.
  - intros name url Hin. unfold SOUNDS in Hin. cbn [In] in Hin.
    repeat (destruct Hin as [Hin | Hin];
            [injection Hin as <- <-; split; intros; congruence |]).
    contradiction.
Qed.

Lemma sound_alert_plays_and_is_silent_witness :
  let t := Num.parseFloat "3.20" in
  let x := Num.parseFloat "3.25" in
  let s := "https://soundbible.com/grab.php?id=1954&type=mp3" in
  let c := rate_reply x 0 (Some (ThrownError "NotAllowedError")) in
  delivers c (VJson (JNumber x))
  /\ Num.gt x t = true
  /\ s <> ""
  /\ snd (fetchRate_settle t s (Some PGranted) c initial_state)
     = [EAudioPlay s;
        ENotification alert_title (alert_body t (Num.toFixed x 4)) true;
        EConsoleError "Error playing audio:" "NotAllowedError"].
Proof.
  split; [apply rate_reply_delivers |]. split; [reflexivity |].
  split; [discriminate |].
  refine (proj2 (proj2 (proj1 (sound_alert_plays_and_is_silent
            (Num.parseFloat "3.20") (Num.parseFloat "3.25")
            "https://soundbible.com/grab.php?id=1954&type=mp3"
            (rate_reply (Num.parseFloat "3.25") 0
                        (Some (ThrownError "NotAllowedError")))
            initial_state (rate_reply_delivers _ _ _) eq_refl) _))).
  discriminate.
Defined.

(** ** Validation of the settings *)

Lemma valid_parseInt10 s :
  valid_positive (Num.parseInt10 s) = positive_integer_prefix s.
Proof.
  unfold Num.parseInt10, positive_integer_prefix.
  destruct (Num.strip_sign (Str.trim_start s)) as [neg u].
  destruct (Str.span_digits u) as [ds rest].
  destruct ds as [| c ds]; [destruct neg; reflexivity |].
  destruct (Str.digits_value 0 (String c ds)) as [| p | p].
  - destruct neg; reflexivity.
  - destruct neg; cbn [negb andb Z.ltb Z.compare].
    + apply not_true_is_false. intros H.
      apply FloatFacts.valid_positive_iff in H.
      exact (FloatFacts.of_decimal_negative_integer p H).
    + apply FloatFacts.valid_positive_iff,
            FloatFacts.of_decimal_integer_positive.
  - destruct neg; reflexivity.
Qed.

(** C4, as stated, fails: the input ["3.5"] is accepted, and installs the
    interval 3. *)
Lemma interval_3_5_is_accepted :
  let st := handleSetCheckInterval (setInputCheckInterval "3.5" initial_state) in
  intervalError st = None
  /\ checkInterval st = Num.of_Z 3
  /\ inputCheckInterval st = "3".
Proof. vm_compute. repeat split; reflexivity. Qed.

(** C4, amended: [handleSetCheckInterval] accepts the input and installs
    [parseInt(input, 10)], a Number greater than 0, if and only if the
    input, after leading white space and an optional [+], starts with a run
    of decimal digits of non-zero value; otherwise it only sets the error
    message.  So ["10"] installs 10 and ["0"] is rejected, while ["3.5"] is
    accepted and installs 3. *)
Theorem handleSetCheckInterval_spec :
  forall st : AppState,
    let s := inputCheckInterval st in
    let x := Num.parseInt10 s in
    (if positive_integer_prefix s
     then handleSetCheckInterval st
          = setIntervalError None
              (setInputCheckInterval (Num.toString x) (setCheckInterval x st))
          /\ Num.gt x Num.pos_zero = true
     else handleSetCheckInterval st
          = setIntervalError (Some interval_message) st)
    /\ Num.parseInt10 "10" = Num.of_Z 10
    /\ positive_integer_prefix "10" = true
    /\ positive_integer_prefix "0" = false
    /\ positive_integer_prefix "3.5" = true
    /\ Num.parseInt10 "3.5" = Num.of_Z 3.
Proof.
  intros st s x. split; [| vm_compute; repeat split; reflexivity].
  unfold handleSetCheckInterval. fold s. fold x. subst x.
  rewrite valid_parseInt10.
  destruct (positive_integer_prefix s) eqn:Hs; [| reflexivity].
  split; [reflexivity |].
  rewrite <- valid_parseInt10 in Hs. unfold valid_positive in Hs.
  apply andb_true_iff in Hs. tauto.
Qed.

Lemma parseFloat_minus_rejected s u :
  Num.strip_sign (Str.trim_start s) = (true, u) ->
  valid_positive (Num.parseFloat s) = false.
Proof.
  intros H. apply not_true_is_false. intros Hv.
  apply FloatFacts.valid_positive_iff in Hv. revert Hv.
  unfold Num.parseFloat, Num.scan_decimal. rewrite H.
  destruct (prefix "Infinity" u); [exact (fun f => f) |].
  destruct (Str.span_digits u) as [ip r1].
  destruct (match r1 with String "." r => Str.span_digits r | _ => ("", r1) end)
    as [fp r2].
  destruct ip, fp; try (exact (fun f => f));
    destruct (Num.exponent_part r2); apply FloatFacts.of_decimal_negative.
Qed.

(** C5, as stated, fails: the input ["Infinity"] is accepted, and installs
    a threshold that is not finite. *)
Lemma threshold_Infinity_is_accepted :
  let st := handleSetThreshold (setInputThreshold "Infinity" initial_state) in
  thresholdError st = None
  /\ threshold st = Num.Infinity
  /\ Num.isFinite (threshold st) = false.
Proof. vm_compute. repeat split; reflexivity. Qed.

(** C5, amended: [handleSetThreshold] accepts the input and installs
    [parseFloat(input)] if and only if that Number is not NaN and greater
    than 0, that is a positive finite Number or [Infinity]; otherwise it
    only sets the error message.  An input with a minus sign in front is
    never accepted.  So ["3.20"] installs 3.2, and ["-1"], ["abc"] and ["0"]
    are rejected, while ["Infinity"] is accepted. *)
Theorem handleSetThreshold_spec :
  forall st : AppState,
    let x := Num.parseFloat (inputThreshold st) in
    (valid_positive x = true <-> positive_number x)
    /\ (if valid_positive x
        then handleSetThreshold st
             = setThresholdError None
                 (setInputThreshold (Num.toString x) (setThreshold x st))
        else handleSetThreshold st
             = setThresholdError (Some threshold_message) st)
    /\ (forall u, Num.strip_sign (Str.trim_start (inputThreshold st)) = (true, u) ->
         valid_positive x = false)
    /\ Num.parseFloat "3.20" = Num.of_decimal false 32 (-1)
    /\ valid_positive (Num.parseFloat "3.20") = true
    /\ valid_positive (Num.parseFloat "-1") = false
    /\ valid_positive (Num.parseFloat "abc") = false
    /\ valid_positive (Num.parseFloat "0") = false
    /\ valid_positive (Num.parseFloat "Infinity") = true.
Proof.
  intros st x. split; [apply FloatFacts.valid_positive_iff |].
  split; [| split; [| vm_compute; repeat split; reflexivity]].
  - unfold handleSetThreshold. fold x. destruct (valid_positive x); reflexivity.
  - intros u. apply parseFloat_minus_rejected.
Qed.

(** ** What a check leaves alone *)

Lemma same_settings_refl st : same_settings st st.
Proof. repeat split. Qed.

Lemma same_settings_trans a b c :
  same_settings a b -> same_settings b c -> same_settings a c.
Proof. unfold same_settings. intuition congruence. Qed.

Lemma keeps_ret {A} (a : A) : keeps_settings (ret a).
Proof. intros st tr. apply same_settings_refl. Qed.

Lemma keeps_throw {A} e : keeps_settings (@throw A e).
Proof. intros st tr. apply same_settings_refl. Qed.

Lemma keeps_lift {A} (r : Result A) : keeps_settings (lift r).
Proof. destruct r; [apply keeps_ret | apply keeps_throw]. Qed.

Lemma keeps_emit e : keeps_settings (emit e).
Proof. intros st tr. apply same_settings_refl. Qed.

Lemma keeps_update f :
  (forall st, same_settings st (f st)) -> keeps_settings (update f).
Proof. intros H st tr. apply H. Qed.

Lemma keeps_bind {A B} (m : Body A) (k : A -> Body B) :
  keeps_settings m -> (forall a, keeps_settings (k a)) ->
  keeps_settings (bind m k).
Proof.
  intros Hm Hk st tr. unfold bind. specialize (Hm st tr).
  destruct (m st tr) as [[[a | e] st1] tr1]; cbn [fst snd] in *.
  - eapply same_settings_trans; [exact Hm | apply Hk].
  - exact Hm.
Qed.

Lemma same_settings_setRate v st : same_settings st (setRate v st).
Proof. repeat split. Qed.

Lemma same_settings_setLastChecked d st : same_settings st (setLastChecked d st).
Proof. repeat split. Qed.

Lemma same_settings_setError e st : same_settings st (setError e st).
Proof. repeat split. Qed.

Lemma same_settings_setIsLoading b st : same_settings st (setIsLoading b st).
Proof. repeat split. Qed.

Create HintDb settings.
#[local] Hint Resolve keeps_ret keeps_throw keeps_lift keeps_emit keeps_update
  same_settings_setRate same_settings_setLastChecked same_settings_setError
  same_settings_setIsLoading same_settings_refl : settings.

Ltac keep_settings :=
  repeat first
    [ apply keeps_bind; [| intros ?]
    | match goal with
      | |- keeps_settings (if ?b then _ else _) => destruct b
      | |- keeps_settings (match ?x with _ => _ end) => destruct x
      end
    | solve [auto with settings] ].

Lemma try_block_keeps_settings t s api c :
  keeps_settings (try_block t s api c).
Proof. unfold try_block, permission_granted. keep_settings. Qed.

Lemma fetchRate_settle_settings t s api c st :
  same_settings st (fst (fetchRate_settle t s api c st))
  /\ isLoading (fst (fetchRate_settle t s api c st)) = false.
Proof.
  unfold fetchRate_settle.
  pose proof (try_block_keeps_settings t s api c st []) as H.
  destruct (try_block t s api c st []) as [[[u | e] st1] tr1];
    cbn [fst snd] in *; split; try reflexivity.
  - eapply same_settings_trans; [exact H | auto with settings].
  - eapply same_settings_trans; [exact H |].
    apply (same_settings_trans _ (setError (Some (error_message e)) st1));
      auto with settings.
Qed.

(** ** The timer and the effect follow the settings *)

Lemma same_settings_config st st' : same_settings st st' -> same_config st st'.
Proof. unfold same_settings, same_config. tauto. Qed.

Lemma same_value_refl x : Num.same_value x x = true.
Proof.
  destruct x as [s | s | | s m e]; simpl; try reflexivity;
    rewrite ?eqb_reflx, ?Pos.eqb_refl, ?Z.eqb_refl; reflexivity.
Qed.

Lemma same_value_eq x y : Num.same_value x y = true -> x = y.
Proof.
  destruct x as [s | s | | s m e], y as [s' | s' | | s' m' e']; simpl;
    try discriminate; try reflexivity; intros H.
  - apply eqb_prop in H. congruence.
  - apply eqb_prop in H. congruence.
  - apply andb_true_iff in H as [H He]. apply andb_true_iff in H as [Hs Hm].
    apply eqb_prop in Hs. apply Pos.eqb_eq in Hm. apply Z.eqb_eq in He.
    congruence.
Qed.

Lemma same_callback_refl f : same_callback f f = true.
Proof.
  unfold same_callback. rewrite same_value_refl, String.eqb_refl. reflexivity.
Qed.

Lemma same_callback_eq f g : same_callback f g = true -> f = g.
Proof.
  unfold same_callback. intros H. apply andb_true_iff in H as [Ht Hs].
  apply same_value_eq in Ht. apply String.eqb_eq in Hs.
  destruct f, g; simpl in *; congruence.
Qed.

Lemma in_sync_config w w' :
  in_sync w -> same_config (state w) (state w') ->
  effect_deps w' = effect_deps w -> interval_timer w' = interval_timer w ->
  in_sync w'.
Proof.
  unfold in_sync, same_config, armed_timer, current_fetchRate.
  intros (Hd & Ht & Hv & Hi) (Et & Ei & Es) Ed' Et'.
  rewrite Ed', Et', Et, Ei, Es. auto.
Qed.

Lemma in_sync_polling_effect w :
  valid_positive (threshold (state w)) = true ->
  valid_positive (checkInterval (state w)) = true ->
  in_sync (polling_effect w).
Proof. intros Hv Hi. repeat split; assumption. Qed.

Lemma in_sync_commit w f i :
  effect_deps w = Some (f, i) ->
  interval_timer w
  = Some {| timer_callback := f;
            timer_delay := Num.mul (Num.mul i (Num.of_Z 60)) (Num.of_Z 1000) |} ->
  valid_positive (threshold (state w)) = true ->
  valid_positive (checkInterval (state w)) = true ->
  in_sync (commit w).
Proof.
  intros Hd Ht Hv Hi. unfold commit. rewrite Hd.
  destruct (same_callback f (current_fetchRate (state w))
            && Num.same_value i (checkInterval (state w))) eqn:E.
  - apply andb_true_iff in E as [Ef Ei].
    apply same_callback_eq in Ef. apply same_value_eq in Ei. subst f i.
    repeat split; assumption.
  - apply in_sync_polling_effect; assumption.
Qed.

Lemma handleSetThreshold_cases st :
  (valid_positive (Num.parseFloat (inputThreshold st)) = true
   /\ handleSetThreshold st
      = setThresholdError None
          (setInputThreshold (Num.toString (Num.parseFloat (inputThreshold st)))
             (setThreshold (Num.parseFloat (inputThreshold st)) st)))
  \/ (valid_positive (Num.parseFloat (inputThreshold st)) = false
      /\ handleSetThreshold st = setThresholdError (Some threshold_message) st).
Proof.
  unfold handleSetThreshold.
  destruct (valid_positive (Num.parseFloat (inputThreshold st))); auto.
Qed.

Lemma handleSetCheckInterval_cases st :
  (valid_positive (Num.parseInt10 (inputCheckInterval st)) = true
   /\ handleSetCheckInterval st
      = setIntervalError None
          (setInputCheckInterval
             (Num.toString (Num.parseInt10 (inputCheckInterval st)))
             (setCheckInterval (Num.parseInt10 (inputCheckInterval st)) st)))
  \/ (valid_positive (Num.parseInt10 (inputCheckInterval st)) = false
      /\ handleSetCheckInterval st
         = setIntervalError (Some interval_message) st).
Proof.
  unfold handleSetCheckInterval.
  destruct (valid_positive (Num.parseInt10 (inputCheckInterval st))); auto.
Qed.

(** *** Mounted and unmounted *)

Lemma step_mounted w ev : unmounted w = false -> step w ev = mounted_step w ev.
Proof. intros H. unfold step. rewrite H. reflexivity. Qed.

Lemma step_unmounted w ev :
  unmounted w = true -> step w ev = unmounted_step w ev.
Proof. intros H. unfold step. rewrite H. reflexivity. Qed.

Lemma unmounted_commit w : unmounted (commit w) = unmounted w.
Proof.
  unfold commit. destruct (effect_deps w) as [[f i] |]; [| reflexivity].
  destruct (_ && _); reflexivity.
Qed.

Lemma unmounted_settle_unmounted i c w :
  unmounted (settle_unmounted i c w) = unmounted w.
Proof.
  unfold settle_unmounted. destruct (nth_error (in_flight w) i); [| reflexivity].
  destruct (fetchRate_settle _ _ _ _ _). reflexivity.
Qed.

Lemma unmounted_site_setting p w : unmounted (site_setting p w) = unmounted w.
Proof. unfold site_setting. destruct (Notification_api w); reflexivity. Qed.

(** Only the completion of a request can unmount the component. *)
Lemma unmounted_unsettled w ev :
  is_settle ev = false -> unmounted (step w ev) = unmounted w.
Proof.
  intros He. unfold step. destruct (unmounted w) eqn:Hm.
  - destruct ev; try discriminate; cbn [unmounted_step]; try exact Hm.
    rewrite unmounted_site_setting. exact Hm.
  - destruct ev as [| | i c | v | | v | | v | answer | p]; try discriminate;
      cbn [mounted_step]; rewrite ?unmounted_commit; try exact Hm.
    + destruct (interval_timer w); exact Hm.
    + destruct (isLoading (state w)); exact Hm.
    + destruct (notificationPermission (state w)); try exact Hm.
      unfold requestNotificationPermission.
      destruct (Notification_api w); exact Hm.
    + rewrite unmounted_site_setting. exact Hm.
Qed.

(** The unmount is final. *)
Lemma unmounted_step_stays w ev :
  unmounted w = true -> unmounted (step w ev) = true.
Proof.
  intros Hm. rewrite (step_unmounted w ev Hm).
  destruct ev; cbn [unmounted_step]; try exact Hm.
  - rewrite unmounted_settle_unmounted. exact Hm.
  - rewrite unmounted_site_setting. exact Hm.
Qed.

Lemma unmounted_run_stays evs : forall w,
  unmounted w = true -> unmounted (run w evs) = true.
Proof.
  induction evs as [| ev evs IH]; intros w H; [exact H |].
  apply IH, unmounted_step_stays, H.
Qed.

Lemma mounted_before w ev : unmounted (step w ev) = false -> unmounted w = false.
Proof.
  intros H. destruct (unmounted w) eqn:Hm; [| reflexivity].
  rewrite (unmounted_step_stays w ev Hm) in H. discriminate.
Qed.

Lemma run_snoc w evs ev : run w (evs ++ [ev]) = step (run w evs) ev.
Proof. unfold run. rewrite fold_left_app. reflexivity. Qed.

(** A completion while the component is mounted, by the outcome of the
    render. *)
Lemma settle_cases i c w f :
  nth_error (in_flight w) i = Some f ->
  let r := fetchRate_settle (cb_threshold f) (cb_sound f) (Notification_api w)
                            c (state w) in
  (render_throws (fst r) = false
   /\ settle i c w
      = mkWorld (fst r) (Notification_api w) (remove_nth i (in_flight w))
                (interval_timer w) (effect_deps w) (trace w ++ snd r)
                (unmounted w))
  \/ (render_throws (fst r) = true
      /\ settle i c w
         = mkWorld (fst r) (Notification_api w) (remove_nth i (in_flight w))
                   None (effect_deps w)
                   ((trace w ++ snd r) ++ [EClearInterval]) true).
Proof.
  intros Hi r. subst r. unfold settle. rewrite Hi.
  destruct (fetchRate_settle _ _ _ _ _) as [st tr]. cbn [fst snd].
  unfold render. cbn [state].
  destruct (render_throws st); [right | left]; split; reflexivity.
Qed.

Lemma state_settle i c w f :
  nth_error (in_flight w) i = Some f ->
  state (settle i c w)
  = fst (fetchRate_settle (cb_threshold f) (cb_sound f) (Notification_api w)
                          c (state w)).
Proof.
  intros Hi. destruct (settle_cases i c w f Hi) as [[_ ->] | [_ ->]];
    reflexivity.
Qed.

Lemma trace_settle i c w f :
  nth_error (in_flight w) i = Some f ->
  let r := fetchRate_settle (cb_threshold f) (cb_sound f) (Notification_api w)
                            c (state w) in
  trace (settle i c w)
  = (trace w ++ snd r
     ++ if render_throws (fst r) then [EClearInterval] else [])%list.
Proof.
  intros Hi r. subst r.
  destruct (settle_cases i c w f Hi) as [[-> ->] | [-> ->]]; cbn [trace].
  - rewrite app_nil_r. reflexivity.
  - symmetry. apply app_assoc.
Qed.

Lemma state_settle_unmounted i c w : state (settle_unmounted i c w) = state w.
Proof.
  unfold settle_unmounted. destruct (nth_error (in_flight w) i); [| reflexivity].
  destruct (fetchRate_settle _ _ _ _ _). reflexivity.
Qed.

Lemma state_site_setting p w : state (site_setting p w) = state w.
Proof. unfold site_setting. destruct (Notification_api w); reflexivity. Qed.

(** After the unmount the state is out of reach of every event. *)
Lemma state_unmounted_step w ev : state (unmounted_step w ev) = state w.
Proof.
  destruct ev; cbn [unmounted_step]; try reflexivity.
  - apply state_settle_unmounted.
  - apply state_site_setting.
Qed.

Lemma remove_nth_beyond {A} (l : list A) : forall i,
  nth_error l i = None -> remove_nth i l = l.
Proof.
  induction l as [| x l IH]; intros [| i]; cbn; try reflexivity;
    try discriminate.
  intros H. rewrite (IH i H). reflexivity.
Qed.

(** A completion, mounted or not: what it leaves in the world. *)
Lemma step_settle_missing w i c :
  nth_error (in_flight w) i = None -> step w (Settle i c) = w.
Proof.
  intros Hi. unfold step.
  destruct (unmounted w); cbn [unmounted_step mounted_step];
    unfold settle, settle_unmounted; rewrite Hi; reflexivity.
Qed.

Lemma trace_step_settle w i c f :
  nth_error (in_flight w) i = Some f ->
  exists rest,
    trace (step w (Settle i c))
    = (trace w
       ++ snd (fetchRate_settle (cb_threshold f) (cb_sound f)
                                (Notification_api w) c (state w))
       ++ rest)%list
    /\ (rest = [] \/ rest = [EClearInterval]).
Proof.
  intros Hi. unfold step.
  destruct (unmounted w); cbn [unmounted_step mounted_step].
  - exists []. split; [| left; reflexivity].
    unfold settle_unmounted. rewrite Hi.
    destruct (fetchRate_settle _ _ _ _ _). cbn [trace snd].
    rewrite app_nil_r. reflexivity.
  - rewrite (trace_settle i c w f Hi).
    destruct (render_throws _); eexists; split; try reflexivity; auto.
Qed.

Lemma in_flight_step_settle w i c :
  in_flight (step w (Settle i c)) = remove_nth i (in_flight w).
Proof.
  destruct (nth_error (in_flight w) i) as [f |] eqn:Hi.
  - unfold step. destruct (unmounted w); cbn [unmounted_step mounted_step].
    + unfold settle_unmounted. rewrite Hi.
      destruct (fetchRate_settle _ _ _ _ _). reflexivity.
    + destruct (settle_cases i c w f Hi) as [[_ ->] | [_ ->]]; reflexivity.
  - rewrite (step_settle_missing w i c Hi).
    symmetry. apply remove_nth_beyond, Hi.
Qed.

Lemma api_step_settle w i c :
  Notification_api (step w (Settle i c)) = Notification_api w.
Proof.
  destruct (nth_error (in_flight w) i) as [f |] eqn:Hi;
    [| rewrite (step_settle_missing w i c Hi); reflexivity].
  unfold step. destruct (unmounted w); cbn [unmounted_step mounted_step].
  - unfold settle_unmounted. rewrite Hi.
    destruct (fetchRate_settle _ _ _ _ _). reflexivity.
  - destruct (settle_cases i c w f Hi) as [[_ ->] | [_ ->]]; reflexivity.
Qed.

Lemma settings_step_settle w i c :
  same_settings (state w) (state (step w (Settle i c))).
Proof.
  destruct (nth_error (in_flight w) i) as [f |] eqn:Hi;
    [| rewrite (step_settle_missing w i c Hi); apply same_settings_refl].
  unfold step. destruct (unmounted w); cbn [unmounted_step mounted_step].
  - rewrite state_settle_unmounted. apply same_settings_refl.
  - rewrite (state_settle i c w f Hi). apply fetchRate_settle_settings.
Qed.

(** A Number can always be rendered. *)
Lemma renders_number st x :
  rate st = VJson (JNumber x) -> render_throws st = false.
Proof.
  unfold render_throws, RateDisplay. intros ->.
  destruct (Js.truthy_value _); reflexivity.
Qed.

(** The render depends on the rate alone. *)
Lemma render_throws_rate st st' :
  rate st' = rate st -> render_throws st' = render_throws st.
Proof.
  unfold render_throws, RateDisplay. intros ->.
  destruct (rate st) as [| [| b | x | str | items | members]];
    destruct (isLoading st), (isLoading st'); reflexivity.
Qed.

Lemma rate_commit w : rate (state (commit w)) = rate (state w).
Proof.
  unfold commit. destruct (effect_deps w) as [[f i] |]; [| reflexivity].
  destruct (_ && _); reflexivity.
Qed.

Lemma rate_handlers st v :
  rate (handleThresholdChange v st) = rate st
  /\ rate (handleCheckIntervalChange v st) = rate st
  /\ rate (handleSetThreshold st) = rate st
  /\ rate (handleSetCheckInterval st) = rate st.
Proof.
  unfold handleThresholdChange, handleCheckIntervalChange.
  repeat split.
  - destruct (truthy_opt _); reflexivity.
  - destruct (truthy_opt _); reflexivity.
  - destruct (handleSetThreshold_cases st) as [[_ ->] | [_ ->]]; reflexivity.
  - destruct (handleSetCheckInterval_cases st) as [[_ ->] | [_ ->]]; reflexivity.
Qed.

(** No event but the completion of a request changes the rate: the render
    after such an event succeeds when the one before did. *)
Lemma rate_unsettled w ev :
  is_settle ev = false -> rate (state (step w ev)) = rate (state w).
Proof.
  intros He. unfold step. destruct (unmounted w).
  - destruct ev; try discriminate; cbn [unmounted_step]; try reflexivity.
    unfold site_setting. destruct (Notification_api w); reflexivity.
  - destruct ev as [| | i c | v | | v | | v | answer | p]; try discriminate;
      cbn [mounted_step]; rewrite ?rate_commit; cbn [with_state state].
    + destruct (interval_timer w); reflexivity.
    + destruct (isLoading (state w)); reflexivity.
    + apply (rate_handlers (state w) v).
    + apply (rate_handlers (state w) "").
    + apply (rate_handlers (state w) v).
    + apply (rate_handlers (state w) "").
    + reflexivity.
    + destruct (notificationPermission (state w)); try reflexivity.
      unfold requestNotificationPermission.
      destruct (Notification_api w); reflexivity.
    + unfold site_setting. destruct (Notification_api w); reflexivity.
Qed.

(** What is on display can be rendered, as long as the component is
    mounted. *)
Lemma renders_step w ev :
  render_throws (state w) = false ->
  unmounted (step w ev) = false ->
  render_throws (state (step w ev)) = false.
Proof.
  intros Hr Hm'. destruct (is_settle ev) eqn:He.
  - destruct ev as [| | i c | | | | | | |]; try discriminate.
    pose proof (mounted_before _ _ Hm') as Hm.
    rewrite (step_mounted _ _ Hm) in *. cbn [mounted_step] in *.
    destruct (nth_error (in_flight w) i) as [f |] eqn:Hi;
      [| unfold settle in *; rewrite Hi in *; exact Hr].
    destruct (settle_cases i c w f Hi) as [[Hok E] | [_ E]]; rewrite E in *.
    + exact Hok.
    + discriminate.
  - rewrite (render_throws_rate (state w)); [exact Hr |].
    apply rate_unsettled, He.
Qed.

Lemma in_sync_step w ev :
  in_sync w -> unmounted (step w ev) = false -> in_sync (step w ev).
Proof.
  intros H Hm'. pose proof (mounted_before _ _ Hm') as Hm.
  rewrite (step_mounted _ _ Hm) in *. pose proof H as (Hd & Ht & Hv & Hi).
  destruct ev as [| | i c | v | | v | | v | answer | p]; cbn [mounted_step] in *.
  - rewrite Ht. apply (in_sync_config w); try reflexivity; auto.
    repeat split.
  - destruct (isLoading (state w)); [assumption |].
    apply (in_sync_config w); try reflexivity; auto. repeat split.
  - destruct (nth_error (in_flight w) i) as [f |] eqn:Hf;
      [| unfold settle; rewrite Hf; assumption].
    pose proof (fetchRate_settle_settings (cb_threshold f) (cb_sound f)
                  (Notification_api w) c (state w)) as [Hs _].
    destruct (settle_cases i c w f Hf) as [[_ E] | [_ E]]; rewrite E in *;
      [| discriminate].
    apply (in_sync_config w); try reflexivity; auto.
    apply same_settings_config. exact Hs.
  - apply (in_sync_config w); try reflexivity; auto.
    cbn [with_state state]. unfold handleThresholdChange.
    destruct (truthy_opt _); repeat split.
  - destruct (handleSetThreshold_cases (state w)) as [[Hok E] | [Hno E]];
      apply (in_sync_commit (with_state handleSetThreshold w) _ _ Hd Ht);
      cbn [with_state state]; rewrite E; assumption.
  - apply (in_sync_config w); try reflexivity; auto.
    cbn [with_state state]. unfold handleCheckIntervalChange.
    destruct (truthy_opt _); repeat split.
  - destruct (handleSetCheckInterval_cases (state w)) as [[Hok E] | [Hno E]];
      apply (in_sync_commit (with_state handleSetCheckInterval w) _ _ Hd Ht);
      cbn [with_state state]; rewrite E; assumption.
  - apply (in_sync_commit (with_state (handleSoundChange v) w) _ _ Hd Ht);
      assumption.
  - destruct (notificationPermission (state w)); try assumption.
    unfold requestNotificationPermission.
    destruct (Notification_api w); [| assumption].
    apply (in_sync_config w); try reflexivity; auto. repeat split.
  - unfold site_setting. destruct (Notification_api w); [| assumption].
    apply (in_sync_config w); try reflexivity; auto. repeat split.
Qed.

Lemma in_sync_mount api : in_sync (mount (initial_world api)).
Proof.
  unfold mount. destruct api as [p |];
    apply in_sync_polling_effect; vm_compute; reflexivity.
Qed.

Lemma renders_mount api : render_throws (state (mount (initial_world api))) = false.
Proof. destruct api; reflexivity. Qed.

Lemma reachable_mounted api : reachable (mounted api).
Proof. exists api, []. split; [reflexivity | destruct api; reflexivity]. Qed.

Lemma reachable_step w ev :
  reachable w -> unmounted (step w ev) = false -> reachable (step w ev).
Proof.
  intros (api & evs & -> & _) Hm. exists api, (evs ++ [ev])%list.
  rewrite run_snoc. split; [reflexivity | exact Hm].
Qed.

Lemma reachable_unsettled w ev :
  reachable w -> is_settle ev = false -> reachable (step w ev).
Proof.
  intros Hr He. apply reachable_step; [exact Hr |].
  rewrite (unmounted_unsettled w ev He). destruct Hr as (_ & _ & _ & Hm).
  exact Hm.
Qed.

Lemma reachable_run api evs :
  unmounted (run (mounted api) evs) = false -> reachable (run (mounted api) evs).
Proof. intros H. exists api, evs. split; [reflexivity | exact H]. Qed.

Lemma reachable_is_mounted w : reachable w -> unmounted w = false.
Proof. intros (_ & _ & _ & H). exact H. Qed.

Lemma step_reachable w ev : reachable w -> step w ev = mounted_step w ev.
Proof. intros H. apply step_mounted, reachable_is_mounted, H. Qed.

(** A run that is given in full is reachable when it ends mounted. *)
Ltac still_mounted := apply reachable_run; vm_compute; reflexivity.

(** Induction over the worlds the mounted component can be in. *)
Lemma reachable_ind (P : World -> Prop) :
  (forall api, P (mounted api)) ->
  (forall w ev, reachable w -> P w -> unmounted (step w ev) = false ->
                P (step w ev)) ->
  forall w, reachable w -> P w.
Proof.
  intros Hm Hs w (api & evs & -> & Hu). revert Hu.
  induction evs as [| ev evs IH] using rev_ind; intros Hu; [apply Hm |].
  rewrite run_snoc in *.
  pose proof (mounted_before _ _ Hu) as Hu0.
  apply Hs; [apply reachable_run, Hu0 | apply IH, Hu0 | exact Hu].
Qed.

Lemma reachable_in_sync w : reachable w -> in_sync w.
Proof.
  revert w. apply reachable_ind.
  - apply in_sync_mount.
  - intros w ev _ IH Hm. apply in_sync_step; assumption.
Qed.

Lemma reachable_renders w : reachable w -> render_throws (state w) = false.
Proof.
  revert w. apply reachable_ind.
  - apply renders_mount.
  - intros w ev _ IH Hm. apply renders_step; assumption.
Qed.

(** ** A failed validation changes nothing but its message *)

Lemma commit_in_sync w f :
  in_sync w ->
  same_config (state w) (f (state w)) ->
  commit (with_state f w) = with_state f w.
Proof.
  intros (Hd & _) (Et & Ei & Es). unfold commit. cbn [with_state effect_deps state].
  rewrite Hd. unfold current_fetchRate. rewrite Et, Ei, Es.
  fold (current_fetchRate (state w)).
  rewrite same_callback_refl, same_value_refl. reflexivity.
Qed.

(** C6: when the validation of the threshold or of the interval fails, the
    submit handler changes the error message of its form and nothing else:
    threshold, interval and sound keep their values, the effect does not run
    again, the timer stays as armed, no request is started and nothing is
    performed. *)
Theorem failed_validation_keeps_configuration :
  forall w : World,
    reachable w ->
    (valid_positive (Num.parseFloat (inputThreshold (state w))) = false ->
     step w SubmitThreshold
     = with_state (setThresholdError (Some threshold_message)) w)
    /\ (valid_positive (Num.parseInt10 (inputCheckInterval (state w))) = false ->
        step w SubmitInterval
        = with_state (setIntervalError (Some interval_message)) w)
    /\ (forall (m : option string) (w' : World),
          w' = with_state (setThresholdError m) w
          \/ w' = with_state (setIntervalError m) w ->
          threshold (state w') = threshold (state w)
          /\ checkInterval (state w') = checkInterval (state w)
          /\ notificationSound (state w') = notificationSound (state w)
          /\ interval_timer w' = interval_timer w
          /\ in_flight w' = in_flight w
          /\ trace w' = trace w).
Proof.
  intros w Hr. pose proof (reachable_in_sync w Hr) as Hs.
  split; [| split].
  - intros Hno. rewrite (step_reachable _ _ Hr). cbn [mounted_step].
    destruct (handleSetThreshold_cases (state w)) as [[Hok _] | [_ E]];
      [congruence |].
    rewrite commit_in_sync; [| exact Hs | rewrite E; repeat split].
    unfold with_state. rewrite E. reflexivity.
  - intros Hno. rewrite (step_reachable _ _ Hr). cbn [mounted_step].
    destruct (handleSetCheckInterval_cases (state w)) as [[Hok _] | [_ E]];
      [congruence |].
    rewrite commit_in_sync; [| exact Hs | rewrite E; repeat split].
    unfold with_state. rewrite E. reflexivity.
  - intros m w' [-> | ->]; repeat split.
Qed.

Lemma failed_validation_keeps_configuration_witness :
  let w := run (mounted (Some PGranted)) [TypeThreshold "-1"; TypeInterval ""] in
  reachable w
  /\ valid_positive (Num.parseFloat (inputThreshold (state w))) = false
  /\ valid_positive (Num.parseInt10 (inputCheckInterval (state w))) = false
  /\ step w SubmitThreshold
     = with_state (setThresholdError (Some threshold_message)) w
  /\ step w SubmitInterval
     = with_state (setIntervalError (Some interval_message)) w.
Proof.
  assert (Hr : reachable (run (mounted (Some PGranted))
                              [TypeThreshold "-1"; TypeInterval ""]))
    by still_mounted.
  split; [exact Hr |].
  split; [reflexivity |]. split; [reflexivity |].
  pose proof (failed_validation_keeps_configuration _ Hr) as (H1 & H2 & _).
  split; [apply H1 | apply H2]; reflexivity.
Defined.

(** ** Reconfiguration *)

Lemma commit_changed w f :
  in_sync w ->
  same_callback (current_fetchRate (state w)) (current_fetchRate (f (state w)))
  && Num.same_value (checkInterval (state w)) (checkInterval (f (state w))) = false ->
  reconfigured w (f (state w)) (commit (with_state f w)).
Proof.
  intros (Hd & _) Hne. unfold commit. cbn [with_state effect_deps state].
  rewrite Hd, Hne. unfold reconfigured, polling_effect, polling_cleanup,
    call_fetchRate, rerun_trace, armed_timer.
  cbn. repeat split. rewrite <- !app_assoc. reflexivity.
Qed.

(** C10: every successful reconfiguration to a new value (a threshold, an
    interval or a sound other than the current one) runs the polling effect
    again at once: a fresh check is started for the new settings, and only
    then the timer is armed again at the interval now in force. *)
Theorem reconfiguration_triggers_check :
  forall w : World,
    reachable w ->
    (let x := Num.parseFloat (inputThreshold (state w)) in
     valid_positive x = true ->
     Num.same_value (threshold (state w)) x = false ->
     reconfigured w (handleSetThreshold (state w)) (step w SubmitThreshold)
     /\ threshold (handleSetThreshold (state w)) = x)
    /\ (let x := Num.parseInt10 (inputCheckInterval (state w)) in
        valid_positive x = true ->
        Num.same_value (checkInterval (state w)) x = false ->
        reconfigured w (handleSetCheckInterval (state w)) (step w SubmitInterval)
        /\ checkInterval (handleSetCheckInterval (state w)) = x)
    /\ (forall v : string,
          v <> notificationSound (state w) ->
          reconfigured w (handleSoundChange v (state w)) (step w (SelectSound v))
          /\ notificationSound (handleSoundChange v (state w)) = v).
Proof.
  intros w Hr. pose proof (reachable_in_sync w Hr) as Hs.
  split; [| split].
  - intros x Hok Hne. rewrite (step_reachable _ _ Hr). cbn [mounted_step].
    destruct (handleSetThreshold_cases (state w)) as [[_ E] | [Hno _]];
      [| subst x; congruence].
    split; [| rewrite E; reflexivity].
    apply commit_changed; [exact Hs |].
    rewrite E. unfold same_callback. cbn. fold x. rewrite Hne. reflexivity.
  - intros x Hok Hne. rewrite (step_reachable _ _ Hr). cbn [mounted_step].
    destruct (handleSetCheckInterval_cases (state w)) as [[_ E] | [Hno _]];
      [| subst x; congruence].
    split; [| rewrite E; reflexivity].
    apply commit_changed; [exact Hs |].
    rewrite E. cbn. fold x. rewrite Hne. apply andb_false_r.
  - intros v Hne. rewrite (step_reachable _ _ Hr). cbn [mounted_step].
    split; [| reflexivity].
    apply commit_changed; [exact Hs |].
    unfold same_callback. cbn.
    destruct (String.eqb_spec (notificationSound (state w)) v) as [E | _];
      [congruence |].
    rewrite andb_false_r. reflexivity.
Qed.

Lemma reconfiguration_triggers_check_witness :
  let w := run (mounted (Some PGranted)) [TypeThreshold "3.5"; TypeInterval "1"] in
  let chime := "https://soundbible.com/grab.php?id=1954&type=mp3" in
  reachable w
  /\ valid_positive (Num.parseFloat (inputThreshold (state w))) = true
  /\ Num.same_value (threshold (state w))
                    (Num.parseFloat (inputThreshold (state w))) = false
  /\ reconfigured w (handleSetThreshold (state w)) (step w SubmitThreshold)
  /\ valid_positive (Num.parseInt10 (inputCheckInterval (state w))) = true
  /\ Num.same_value (checkInterval (state w))
                    (Num.parseInt10 (inputCheckInterval (state w))) = false
  /\ reconfigured w (handleSetCheckInterval (state w)) (step w SubmitInterval)
  /\ chime <> notificationSound (state w)
  /\ reconfigured w (handleSoundChange chime (state w)) (step w (SelectSound chime)).
Proof.
  assert (Hr : reachable (run (mounted (Some PGranted))
                              [TypeThreshold "3.5"; TypeInterval "1"]))
    by still_mounted.
  pose proof (reconfiguration_triggers_check _ Hr) as (H1 & H2 & H3).
  split; [exact Hr |].
  split; [reflexivity |]. split; [reflexivity |].
  split; [apply H1; reflexivity |].
  split; [reflexivity |]. split; [reflexivity |].
  split; [apply H2; reflexivity |].
  split; [discriminate |].
  apply H3. discriminate.
Defined.

(** Submitting the value already installed runs no effect: no check is
    started (the text of the input may still be rewritten). *)
Lemma resubmission_starts_nothing :
  let w := mounted (Some PGranted) in
  in_flight (step w SubmitThreshold) = in_flight w
  /\ trace (step w SubmitThreshold) = trace w
  /\ thresholdError (state (step w SubmitThreshold)) = None.
Proof. vm_compute. repeat split; reflexivity. Qed.

(** ** The published status *)

(** C7, at the failing input: after a successful response whose body lacks
    the [MYR] member the check ends with no error, so the status shown is
    [Monitoring], while the rate held is [undefined] and the display shows
    the placeholder [-.----] instead of a sample. *)
Theorem monitoring_without_sample :
  let w := run (mounted (Some PGranted)) [Settle 0 reply_without_rate] in
  status (state w) = Monitoring
  /\ error (state w) = None
  /\ rate (state w) = VUndefined
  /\ has_sample (rate (state w)) = false
  /\ RateDisplay (rate (state w)) (isLoading (state w)) = Ok (RateText "-.----")
  /\ alerts (trace w) = [].
Proof. vm_compute. repeat split; reflexivity. Qed.

(** ** Fetch failures *)

(** C8, as stated, fails: the state holds the message of the error and no
    kind.  A request that fails in transport and a body that fails to parse
    leave the same state when their errors carry the same message, so no
    kind can be read off the state; and a body without the numeric field,
    a failure of kind Parse, leaves no error at all. *)
Lemma no_kind_recorded :
  let e := ThrownError "Load failed" in
  let t := Num.parseFloat "3.20" in
  failure_kind (failed_request e) = Some Network
  /\ failure_kind (failed_body e) = Some Parse
  /\ fetchRate_settle t "" (Some PGranted) (failed_request e) initial_state
     = fetchRate_settle t "" (Some PGranted) (failed_body e) initial_state
  /\ ~ (exists kind_of, records_kind kind_of)
  /\ failure_kind reply_without_rate = Some Parse
  /\ error (fst (fetchRate_settle t "" (Some PGranted) reply_without_rate
                                  initial_state)) = None.
Proof.
  split; [reflexivity |]. split; [reflexivity |]. split; [reflexivity |].
  split; [| split; reflexivity].
  intros [kind_of H].
  pose proof (H (Num.parseFloat "3.20") "" (Some PGranted)
                (failed_request (ThrownError "Load failed")) initial_state
                Network eq_refl) as H1.
  pose proof (H (Num.parseFloat "3.20") "" (Some PGranted)
                (failed_body (ThrownError "Load failed")) initial_state
                Parse eq_refl) as H2.
  change (fetchRate_settle (Num.parseFloat "3.20") "" (Some PGranted)
            (failed_body (ThrownError "Load failed")) initial_state)
    with (fetchRate_settle (Num.parseFloat "3.20") "" (Some PGranted)
            (failed_request (ThrownError "Load failed")) initial_state) in H2.
  congruence.
Qed.

Lemma fetchRate_settle_failure t s api c st msg :
  fetch_failure c msg ->
  fetchRate_settle t s api c st
  = (setIsLoading false (setError (Some msg) st),
     [EConsoleError "Failed to fetch exchange rate:" msg]).
Proof.
  intros H. run_body.
  destruct H as [e Hf | r Hf Hok | r e Hf Hok Hj | r data e Hf Hok Hj Hr
                | r data rates e Hf Hok Hj Hr Hm];
    rewrite Hf; try rewrite Hok; cbn [negb]; try rewrite Hj; try rewrite Hr;
    try rewrite Hm; destruct (playback c); reflexivity.
Qed.

(** Whatever is thrown in the [try] block is thrown before any action of
    the alert: the check then stores and logs the message and performs
    nothing else. *)
Lemma fetchRate_settle_thrown t s api c st e st1 tr1 :
  try_block t s api c st [] = (Raise e, st1, tr1) ->
  fetchRate_settle t s api c st
  = (setIsLoading false (setError (Some (error_message e)) st1),
     [EConsoleError "Failed to fetch exchange rate:" (error_message e)]).
Proof.
  intros H. unfold fetchRate_settle. rewrite H.
  assert (Htr : tr1 = []).
  { revert H. run_body.
    destruct (fetched c) as [r | e0]; [| intros [= _ _ <-]; reflexivity].
    destruct (ok r); cbn [negb]; [| intros [= _ _ <-]; reflexivity].
    destruct (resp_json r) as [data | e0]; [| intros [= _ _ <-]; reflexivity].
    destruct (Js.get (VJson data) "rates") as [rates | e0];
      [| intros [= _ _ <-]; reflexivity].
    destruct (Js.get rates "MYR") as [v | e0];
      [| intros [= _ _ <-]; reflexivity].
    destruct (match v with VUndefined => _ | VJson j => _ end) as [x | e0];
      [| intros [= _ _ <-]; reflexivity].
    destruct (Num.gt x t); [| discriminate].
    destruct api as [p |]; [| intros [= _ _ <-]; reflexivity].
    destruct (is_granted p); cbn [andb]; [| discriminate].
    destruct (match v with VUndefined => _ | VJson j => _ end) as [txt | e0];
      [| intros [= _ _ <-]; reflexivity].
    destruct (Js.truthy s); discriminate. }
  subst tr1. destruct (playback c); reflexivity.
Qed.

(** C8, amended: a request that fails before a rate is read (rejected
    request, status that is not a success, body that is not JSON or has no
    [rates] to read from) is recorded as its message, with no kind: the
    check stores the message in [error], logs it, ends the loading, leaves
    rate and time of the last check as they were and shows no notification;
    for a status that is not a success the message is
    ["API error: <reason> (<code>)"]; with a non-empty message the status
    shown is [Error].  The timer is untouched, so the next tick comes and
    starts a request. *)
Theorem fetch_failure_recorded :
  forall (w : World) (i : nat) (f : Callback) (c : Completion) (msg : string),
    reachable w ->
    nth_error (in_flight w) i = Some f ->
    fetch_failure c msg ->
    let w' := step w (Settle i c) in
    state w' = setIsLoading false (setError (Some msg) (state w))
    /\ trace w'
       = (trace w ++ [EConsoleError "Failed to fetch exchange rate:" msg])%list
    /\ (msg <> "" -> status (state w') = StatusError)
    /\ (forall r, fetched c = Ok r -> ok r = false ->
          msg = "API error: " ++ resp_statusText r ++ " ("
                ++ Str.of_Z (Z.of_nat (resp_status r)) ++ ")"
          /\ msg <> "")
    /\ interval_timer w' = interval_timer w
    /\ interval_timer w' = Some (armed_timer (state w'))
    /\ in_flight (step w' TimerTick)
       = (remove_nth i (in_flight w) ++ [current_fetchRate (state w')])%list.
Proof.
  intros w i f c msg Hr Hi Hfail w'.
  pose proof (reachable_is_mounted w Hr) as Hm.
  assert (Hw : w' = mkWorld (setIsLoading false (setError (Some msg) (state w)))
                 (Notification_api w) (remove_nth i (in_flight w))
                 (interval_timer w) (effect_deps w)
                 (trace w ++ [EConsoleError "Failed to fetch exchange rate:" msg])
                 false).
  { subst w'. rewrite (step_mounted _ _ Hm). cbn [mounted_step].
    destruct (settle_cases i c w f Hi) as [[_ E] | [Hth _]];
      rewrite (fetchRate_settle_failure _ _ _ _ _ _ Hfail) in *;
      cbn [fst snd] in *.
    - rewrite E, Hm. reflexivity.
    - rewrite (render_throws_rate (state w)), (reachable_renders w Hr) in Hth
        by reflexivity.
      discriminate. }
  assert (Hr' : reachable w')
    by (apply reachable_step;
        [exact Hr | change (unmounted w' = false); rewrite Hw; reflexivity]).
  pose proof (reachable_in_sync w' Hr') as (_ & Ht' & _).
  assert (Hstep : step w' TimerTick = mounted_step w' TimerTick)
    by (apply step_reachable, Hr').
  rewrite Hw in *. cbn [state trace interval_timer] in *.
  split; [reflexivity |]. split; [reflexivity |]. split.
  { intros Hne. destruct msg; [congruence | reflexivity]. }
  split.
  { intros r Hf Hok. inversion Hfail as [e Hf' | r' Hf' Hok' | r' e Hf' Hok' _
                                        | r' data e Hf' Hok' _ _
                                        | r' data rates e Hf' Hok' _ _ _];
      rewrite Hf in Hf'; try discriminate;
      injection Hf' as <-; try congruence.
    split; [reflexivity | discriminate]. }
  split; [reflexivity |]. split; [exact Ht' |].
  rewrite Hstep. cbn [mounted_step interval_timer]. rewrite Ht'. reflexivity.
Qed.

Lemma fetch_failure_recorded_witness :
  let w := mounted (Some PGranted) in
  let c := http_reply 500 "Internal Server Error" in
  let w' := step w (Settle 0 c) in
  reachable w
  /\ nth_error (in_flight w) 0 = Some (current_fetchRate (state w))
  /\ fetch_failure c "API error: Internal Server Error (500)"
  /\ error (state w') = Some "API error: Internal Server Error (500)"
  /\ status (state w') = StatusError
  /\ alerts (trace w') = []
  /\ interval_timer w' = interval_timer w.
Proof.
  assert (Hf : fetch_failure (http_reply 500 "Internal Server Error")
                 "API error: Internal Server Error (500)").
  { exact (failure_http (http_reply 500 "Internal Server Error") _
             eq_refl eq_refl). }
  pose proof (fetch_failure_recorded (mounted (Some PGranted)) 0 _
                (http_reply 500 "Internal Server Error") _
                (reachable_mounted _) eq_refl Hf) as (H1 & H2 & H3 & _ & H5 & _).
  split; [apply (reachable_mounted _) |]. split; [reflexivity |].
  split; [exact Hf |].
  split; [rewrite H1; reflexivity |].
  split; [apply H3; discriminate |].
  split; [rewrite H2; reflexivity | exact H5].
Defined.

(** ** The published status under regular replies *)

(** The text [Initializing...] is never on display: each branch of
    [StatusIndicator] overwrites it. *)
Lemma status_never_initializing st : status st <> Initializing.
Proof.
  unfold status, StatusIndicator. destruct (isLoading st); [discriminate |].
  destruct (error st) as [m |]; [destruct (Js.truthy m) |]; discriminate.
Qed.

Lemma status_error_message st :
  status st = StatusError -> exists m, error st = Some m /\ m <> "".
Proof.
  unfold status, StatusIndicator. destruct (isLoading st); [discriminate |].
  destruct (error st) as [[| a m] |]; try discriminate.
  intros _. eexists. split; [reflexivity | discriminate].
Qed.

Lemma monitor_invariant_loading st :
  isLoading st = true -> monitor_invariant st.
Proof.
  intros H. split; [apply status_error_message |].
  unfold status, StatusIndicator. rewrite H. discriminate.
Qed.

Lemma monitor_invariant_same st st' :
  same_sample st st' -> monitor_invariant st -> monitor_invariant st'.
Proof.
  intros (Hr & He & Hl) [_ H]. split; [apply status_error_message |].
  unfold status in *. rewrite Hr, He, Hl. exact H.
Qed.

Lemma monitor_invariant_commit w :
  monitor_invariant (state w) -> monitor_invariant (state (commit w)).
Proof.
  intros H. unfold commit. destruct (effect_deps w) as [[f i] |]; [| exact H].
  destruct (_ && _); [exact H |].
  apply monitor_invariant_loading. reflexivity.
Qed.

Lemma monitor_invariant_settle t s api c st :
  regular_completion c -> monitor_invariant st ->
  monitor_invariant (fst (fetchRate_settle t s api c st)).
Proof.
  intros [[x Hd] | [msg [Hf Hne]]] [_ H].
  - rewrite (fetchRate_settle_number _ _ _ _ _ _ Hd).
    split; [apply status_error_message |]. intros _.
    unfold settle_number. destruct (Num.gt x t); [| reflexivity].
    destruct api as [p |]; [| reflexivity].
    destruct (is_granted p); reflexivity.
  - rewrite (fetchRate_settle_failure _ _ _ _ _ _ Hf).
    split; [apply status_error_message |].
    cbn [fst]. unfold status, StatusIndicator. cbn.
    destruct msg; [congruence | discriminate].
Qed.

Lemma monitor_invariant_step w ev :
  regular_event ev -> monitor_invariant (state w) ->
  monitor_invariant (state (step w ev)).
Proof.
  intros Hev H. unfold step.
  destruct (unmounted w); [rewrite state_unmounted_step; exact H |].
  destruct ev as [| | i c | v | | v | | v | answer | p]; cbn [mounted_step].
  - destruct (interval_timer w); [| exact H].
    apply monitor_invariant_loading. reflexivity.
  - destruct (isLoading (state w)) eqn:E; [exact H |].
    apply monitor_invariant_loading. reflexivity.
  - destruct (nth_error (in_flight w) i) as [f |] eqn:Hi;
      [| unfold settle; rewrite Hi; exact H].
    rewrite (state_settle i c w f Hi).
    apply monitor_invariant_settle; assumption.
  - apply (monitor_invariant_same (state w)); [| exact H].
    cbn [with_state state]. unfold handleThresholdChange.
    destruct (truthy_opt _); repeat split.
  - apply monitor_invariant_commit. cbn [with_state state].
    apply (monitor_invariant_same (state w)); [| exact H].
    destruct (handleSetThreshold_cases (state w)) as [[_ E] | [_ E]];
      rewrite E; repeat split.
  - apply (monitor_invariant_same (state w)); [| exact H].
    cbn [with_state state]. unfold handleCheckIntervalChange.
    destruct (truthy_opt _); repeat split.
  - apply monitor_invariant_commit. cbn [with_state state].
    apply (monitor_invariant_same (state w)); [| exact H].
    destruct (handleSetCheckInterval_cases (state w)) as [[_ E] | [_ E]];
      rewrite E; repeat split.
  - apply monitor_invariant_commit. cbn [with_state state].
    apply (monitor_invariant_same (state w)); [| exact H]. repeat split.
  - destruct (notificationPermission (state w)); try exact H.
    unfold requestNotificationPermission.
    destruct (Notification_api w); [| exact H].
    apply (monitor_invariant_same (state w)); [| exact H]. repeat split.
  - rewrite state_site_setting. exact H.
Qed.

(** As long as every reply carries a Number for the rate or fails with a
    message, the invariant of the published state holds throughout. *)
Lemma monitor_invariant_regular api evs :
  Forall regular_event evs ->
  monitor_invariant (state (run (mounted api) evs)).
Proof.
  assert (H0 : monitor_invariant (state (mounted api))).
  { apply monitor_invariant_loading. destruct api; reflexivity. }
  revert H0. generalize (mounted api).
  induction evs as [| ev evs IH]; intros w Hw Hall; [exact Hw |].
  inversion Hall as [| ? ? Hev Hrest]; subst.
  apply IH; [apply monitor_invariant_step; assumption | exact Hrest].
Qed.

(** ** What a check leaves in the trace *)

Lemma fetchRate_settle_trace t s api c st :
  settle_trace t s api c (snd (fetchRate_settle t s api c st)).
Proof.
  destruct (fetched c) as [r | e0] eqn:Hf.
  2:{ rewrite (fetchRate_settle_failure t s api c st _ (failure_network c e0 Hf)).
      constructor. }
  destruct (ok r) eqn:Hok.
  2:{ rewrite (fetchRate_settle_failure t s api c st _ (failure_http c r Hf Hok)).
      constructor. }
  destruct (resp_json r) as [data | e0] eqn:Hj.
  2:{ rewrite (fetchRate_settle_failure t s api c st _
                 (failure_body c r e0 Hf Hok Hj)). constructor. }
  destruct (Js.get (VJson data) "rates") as [rates | e0] eqn:Hr.
  2:{ rewrite (fetchRate_settle_failure t s api c st _
                 (failure_no_rates c r data e0 Hf Hok Hj Hr)). constructor. }
  destruct (Js.get rates "MYR") as [v | e0] eqn:Hm.
  2:{ rewrite (fetchRate_settle_failure t s api c st _
                 (failure_rates c r data rates e0 Hf Hok Hj Hr Hm)).
      constructor. }
  assert (Hd : delivers c v) by (exists r, data, rates; auto).
  destruct v as [| [| b | x | str | items | members]].
  4:{ rewrite (fetchRate_settle_number _ _ _ _ _ _ Hd). unfold settle_number.
      destruct (Num.gt x t) eqn:Hgt; [| constructor].
      destruct api as [p |]; [| constructor].
      destruct p; cbn [is_granted snd];
        [constructor | apply trace_alert; auto | constructor]. }
  all: run_body; rewrite Hf, Hok; cbn [negb]; rewrite Hj, Hr, Hm;
    try (destruct (Js.to_string _) as [txt | e0];
         [| destruct (playback c); constructor]);
    (destruct (Num.gt _ t); [| destruct (playback c); constructor]);
    (destruct api as [p |]; [| destruct (playback c); constructor]);
    destruct (is_granted p); cbn [andb snd];
    destruct (playback c); constructor.
Qed.

(** ** Requests in flight *)

(** C2, as stated, fails: a tick of the timer while the first request is
    pending, or a change of the interval at that moment, puts a second
    request in flight. *)
Lemma second_fetch_in_flight :
  List.length (in_flight (run (mounted (Some PGranted)) [TimerTick])) = 2%nat
  /\ List.length
       (in_flight (run (mounted (Some PGranted))
                       [TypeInterval "1"; SubmitInterval])) = 2%nat
  /\ ~ at_most_one_in_flight.
Proof.
  split; [reflexivity |]. split; [reflexivity |].
  intros H.
  assert (Hr : reachable (run (mounted (Some PGranted)) [TimerTick]))
    by still_mounted.
  specialize (H _ Hr).
  vm_compute in H. lia.
Qed.

Lemma in_flight_ticks n : forall w,
  in_sync w -> unmounted w = false ->
  List.length (in_flight (run w (repeat TimerTick n)))
  = (List.length (in_flight w) + n)%nat.
Proof.
  induction n as [| n IH]; intros w Hs Hm; cbn [repeat run fold_left].
  - lia.
  - fold (run (step w TimerTick) (repeat TimerTick n)).
    assert (Hm' : unmounted (step w TimerTick) = false)
      by (rewrite unmounted_unsettled; [exact Hm | reflexivity]).
    rewrite IH by (try apply in_sync_step; assumption).
    destruct Hs as (_ & Ht & _). rewrite (step_mounted _ _ Hm).
    cbn [mounted_step]. rewrite Ht.
    cbn [call_fetchRate in_flight]. rewrite length_app. simpl. lia.
Qed.

Lemma settle_trace_starts_nothing t s api c tr :
  settle_trace t s api c tr -> existsb starts_something tr = false.
Proof.
  intros [| msg | x _ _ _]; try reflexivity.
  unfold playback_request, playback_log.
  destruct (Js.truthy s); destruct (playback c); reflexivity.
Qed.

(** C2, amended: the timer is a fixed-rate one.  While the component is
    mounted, the timer that is live is the one the polling effect armed:
    it calls the [fetchRate] of the settings in force and was handed the
    delay [checkInterval * 60 * 1000] ms.  Every tick starts a request
    whatever is in flight and leaves the timer as it is; so does every
    successful submit of a new threshold or interval and every choice of
    another sound, which arm a timer of their own; only the refresh button
    is gated, by the loading flag.  A request that settles starts no
    request and arms no timer: it leaves the timer as it is, unless the
    render of the rate it stored throws, which unmounts the component and
    clears the timer.  So [n] ticks during which nothing settles add [n]
    requests in flight: their number has no bound. *)
Theorem fixed_rate_timer :
  forall w : World,
    reachable w ->
    interval_timer w = Some (armed_timer (state w))
    /\ (in_flight (step w TimerTick)
        = (in_flight w ++ [current_fetchRate (state w)])%list
        /\ interval_timer (step w TimerTick) = interval_timer w)
    /\ (let x := Num.parseFloat (inputThreshold (state w)) in
        valid_positive x = true ->
        Num.same_value (threshold (state w)) x = false ->
        let w' := step w SubmitThreshold in
        in_flight w' = (in_flight w ++ [current_fetchRate (state w')])%list
        /\ interval_timer w' = Some (armed_timer (state w')))
    /\ (let x := Num.parseInt10 (inputCheckInterval (state w)) in
        valid_positive x = true ->
        Num.same_value (checkInterval (state w)) x = false ->
        let w' := step w SubmitInterval in
        in_flight w' = (in_flight w ++ [current_fetchRate (state w')])%list
        /\ interval_timer w' = Some (armed_timer (state w')))
    /\ (forall v : string,
          v <> notificationSound (state w) ->
          let w' := step w (SelectSound v) in
          in_flight w' = (in_flight w ++ [current_fetchRate (state w')])%list
          /\ interval_timer w' = Some (armed_timer (state w')))
    /\ in_flight (step w ClickRefresh)
       = (if isLoading (state w) then in_flight w
          else in_flight w ++ [current_fetchRate (state w)])%list
    /\ (forall i c,
          let w' := step w (Settle i c) in
          in_flight w' = remove_nth i (in_flight w)
          /\ (exists tr, trace w' = (trace w ++ tr)%list
                         /\ existsb starts_something tr = false)
          /\ interval_timer w'
             = (if unmounted w' then None else interval_timer w)
          /\ unmounted w'
             = match nth_error (in_flight w) i with
               | Some _ => render_throws (state w')
               | None => false
               end)
    /\ (forall n,
          List.length (in_flight (run w (repeat TimerTick n)))
          = (List.length (in_flight w) + n)%nat).
Proof.
  intros w Hr. pose proof (reachable_in_sync w Hr) as Hs.
  pose proof (reachable_is_mounted w Hr) as Hm.
  pose proof Hs as (_ & Ht & _).
  assert (Hre : forall ev st,
            step w ev = mounted_step w ev ->
            reconfigured w st (mounted_step w ev) ->
            in_flight (step w ev)
            = (in_flight w ++ [current_fetchRate (state (step w ev))])%list
            /\ interval_timer (step w ev)
               = Some (armed_timer (state (step w ev)))).
  { intros ev st -> (E1 & E2 & E3 & _). rewrite E1, E2, E3. split; reflexivity. }
  split; [exact Ht |].
  split; [rewrite (step_mounted _ _ Hm); cbn [mounted_step]; rewrite Ht;
          split; [reflexivity | exact Ht] |].
  split; [| split; [| split; [| split; [| split]]]].
  - intros x Hok Hne w'. subst w'.
    apply (Hre _ (handleSetThreshold (state w)) (step_mounted _ _ Hm)).
    cbn [mounted_step].
    destruct (handleSetThreshold_cases (state w)) as [[_ E] | [Hno _]];
      [| subst x; congruence].
    apply commit_changed; [exact Hs |].
    rewrite E. unfold same_callback. cbn. fold x. rewrite Hne. reflexivity.
  - intros x Hok Hne w'. subst w'.
    apply (Hre _ (handleSetCheckInterval (state w)) (step_mounted _ _ Hm)).
    cbn [mounted_step].
    destruct (handleSetCheckInterval_cases (state w)) as [[_ E] | [Hno _]];
      [| subst x; congruence].
    apply commit_changed; [exact Hs |].
    rewrite E. cbn. fold x. rewrite Hne. apply andb_false_r.
  - intros v Hne w'. subst w'.
    apply (Hre _ (handleSoundChange v (state w)) (step_mounted _ _ Hm)).
    cbn [mounted_step]. apply commit_changed; [exact Hs |].
    unfold same_callback. cbn.
    destruct (String.eqb_spec (notificationSound (state w)) v) as [E | _];
      [congruence |].
    rewrite andb_false_r. reflexivity.
  - rewrite (step_mounted _ _ Hm). cbn [mounted_step].
    destruct (isLoading (state w)); reflexivity.
  - intros i c w'. subst w'. rewrite (step_mounted _ _ Hm). cbn [mounted_step].
    destruct (nth_error (in_flight w) i) as [f |] eqn:Hi.
    + pose proof (fetchRate_settle_trace (cb_threshold f) (cb_sound f)
                    (Notification_api w) c (state w)) as Htr.
      apply settle_trace_starts_nothing in Htr.
      destruct (settle_cases i c w f Hi) as [[Hok E] | [Hth E]]; rewrite E;
        cbn [in_flight trace interval_timer unmounted state]; rewrite ?Hm.
      * split; [reflexivity |].
        split; [| split; [reflexivity | symmetry; exact Hok]].
        eexists. split; [reflexivity | exact Htr].
      * split; [reflexivity |].
        split; [| split; [reflexivity | symmetry; exact Hth]].
        eexists. split; [symmetry; apply app_assoc |].
        rewrite existsb_app, Htr. reflexivity.
    + unfold settle. rewrite Hi, Hm.
      split; [symmetry; apply remove_nth_beyond, Hi |].
      split; [| split; reflexivity].
      exists []. split; [symmetry; apply app_nil_r | reflexivity].
  - intros n. apply in_flight_ticks; assumption.
Qed.

Lemma fixed_rate_timer_witness :
  let w := mounted (Some PGranted) in
  let number := Settle 0 (rate_reply (Num.parseFloat "3.1") 3 None) in
  let text := Settle 0 (reply_with (JString "3.1") 3) in
  reachable w
  /\ in_flight (step w TimerTick)
     = (in_flight w ++ [current_fetchRate (state w)])%list
  /\ List.length (in_flight (run w (repeat TimerTick 5))) = 6%nat
  /\ interval_timer (step w number) = interval_timer w
  /\ interval_timer (step w text) = None.
Proof.
  pose proof (fixed_rate_timer (mounted (Some PGranted)) (reachable_mounted _))
    as (_ & (H1 & _) & _ & _ & _ & _ & H3 & H2).
  destruct (H3 0%nat (rate_reply (Num.parseFloat "3.1") 3 None))
    as (_ & _ & H4 & _).
  destruct (H3 0%nat (reply_with (JString "3.1") 3)) as (_ & _ & H5 & _).
  assert (E4 : unmounted (step (mounted (Some PGranted))
                 (Settle 0 (rate_reply (Num.parseFloat "3.1") 3 None)))
               = false) by (vm_compute; reflexivity).
  assert (E5 : unmounted (step (mounted (Some PGranted))
                 (Settle 0 (reply_with (JString "3.1") 3))) = true)
    by (vm_compute; reflexivity).
  rewrite E4 in H4. rewrite E5 in H5.
  split; [apply (reachable_mounted _) |]. split; [exact H1 |].
  split; [exact (H2 5%nat) |]. split; [exact H4 | exact H5].
Defined.

(** * Further properties of the component *)

(** ** What a check performs *)

Lemma alerts_app a b : alerts (a ++ b) = (alerts a ++ alerts b)%list.
Proof. apply filter_app. Qed.

Lemma settle_trace_alerts t s api c tr :
  settle_trace t s api c tr ->
  alerts tr = []
  \/ (api = Some PGranted
      /\ exists x, delivers c (VJson (JNumber x)) /\ Num.gt x t = true
         /\ alerts tr = [ENotification alert_title
                           (alert_body t (Num.toFixed x 4)) (Js.truthy s)]).
Proof.
  intros [| msg | x Hapi Hd Hgt]; [left; reflexivity | left; reflexivity |].
  right. split; [exact Hapi |]. exists x. repeat split; auto.
  unfold alerts, playback_request, playback_log.
  destruct (Js.truthy s); destruct (playback c); reflexivity.
Qed.

Lemma commit_alerts w : alerts (trace (commit w)) = alerts (trace w).
Proof.
  unfold commit. destruct (effect_deps w) as [[f i] |]; [| reflexivity].
  destruct (_ && _); [reflexivity |].
  cbn. rewrite !alerts_app. cbn. rewrite !app_nil_r. reflexivity.
Qed.

(** Nothing but the completion of a request shows a notification. *)
Lemma step_alerts_unsettled w ev :
  is_settle ev = false -> alerts (trace (step w ev)) = alerts (trace w).
Proof.
  intros E. unfold step. destruct (unmounted w).
  { destruct ev; try discriminate; cbn [unmounted_step]; try reflexivity.
    unfold site_setting. destruct (Notification_api w); reflexivity. }
  destruct ev as [| | i c | v | | v | | v | answer | p];
    cbn [mounted_step]; try discriminate.
  - destruct (interval_timer w); [| reflexivity].
    cbn. rewrite alerts_app. apply app_nil_r.
  - destruct (isLoading (state w)); [reflexivity |].
    cbn. rewrite alerts_app. apply app_nil_r.
  - reflexivity.
  - rewrite commit_alerts. reflexivity.
  - reflexivity.
  - rewrite commit_alerts. reflexivity.
  - rewrite commit_alerts. reflexivity.
  - destruct (notificationPermission (state w)); try reflexivity.
    unfold requestNotificationPermission.
    destruct (Notification_api w); reflexivity.
  - unfold site_setting. destruct (Notification_api w); reflexivity.
Qed.

(** The notifications a completion adds are those of the rest of
    [fetchRate], mounted or not. *)
Lemma alerts_step_settle w i c f :
  nth_error (in_flight w) i = Some f ->
  alerts (trace (step w (Settle i c)))
  = (alerts (trace w)
     ++ alerts (snd (fetchRate_settle (cb_threshold f) (cb_sound f)
                                      (Notification_api w) c (state w))))%list.
Proof.
  intros Hi. destruct (trace_step_settle w i c f Hi) as (rest & -> & Hrest).
  rewrite !alerts_app.
  destruct Hrest as [-> | ->]; cbn; rewrite app_nil_r; reflexivity.
Qed.

(** X1: a notification is never shown without the permission of the
    browser at that moment, and never outside the completion of a check:
    if an event adds anything to the notifications shown, it is a request
    that settles with a Number above the threshold of its [fetchRate]
    while [Notification.permission] is [granted], and it adds exactly one
    notification. *)
Theorem notification_needs_permission :
  forall (w : World) (ev : Event),
    alerts (trace (step w ev)) <> alerts (trace w) ->
    exists i c f x,
      ev = Settle i c
      /\ nth_error (in_flight w) i = Some f
      /\ Notification_api w = Some PGranted
      /\ delivers c (VJson (JNumber x))
      /\ Num.gt x (cb_threshold f) = true
      /\ alerts (trace (step w ev))
         = (alerts (trace w)
            ++ [ENotification alert_title
                  (alert_body (cb_threshold f) (Num.toFixed x 4))
                  (Js.truthy (cb_sound f))])%list.
Proof.
  intros w ev Hne.
  destruct (is_settle ev) eqn:Es;
    [| exfalso; apply Hne, step_alerts_unsettled, Es].
  destruct ev as [| | i c | v | | v | | v | answer | p]; try discriminate.
  destruct (nth_error (in_flight w) i) as [f |] eqn:Hi;
    [| rewrite (step_settle_missing w i c Hi) in Hne; congruence].
  pose proof (fetchRate_settle_trace (cb_threshold f) (cb_sound f)
                (Notification_api w) c (state w)) as Htr.
  rewrite (alerts_step_settle w i c f Hi) in *.
  destruct (settle_trace_alerts _ _ _ _ _ Htr) as [E | (Ha & x & Hd & Hg & E)].
  - rewrite E, app_nil_r in Hne. congruence.
  - exists i, c, f, x. rewrite E. auto 10.
Qed.

Lemma notification_needs_permission_witness :
  let w := mounted (Some PGranted) in
  let ev := Settle 0 (rate_reply (Num.parseFloat "3.25") 7 None) in
  alerts (trace (step w ev)) <> alerts (trace w)
  /\ Notification_api w = Some PGranted
  /\ exists i c f x,
       ev = Settle i c
       /\ nth_error (in_flight w) i = Some f
       /\ Notification_api w = Some PGranted
       /\ delivers c (VJson (JNumber x))
       /\ Num.gt x (cb_threshold f) = true
       /\ alerts (trace (step w ev))
          = (alerts (trace w)
             ++ [ENotification alert_title
                   (alert_body (cb_threshold f) (Num.toFixed x 4))
                   (Js.truthy (cb_sound f))])%list.
Proof.
  assert (H : alerts (trace (step (mounted (Some PGranted))
                (Settle 0 (rate_reply (Num.parseFloat "3.25") 7 None))))
              <> alerts (trace (mounted (Some PGranted))))
    by (vm_compute; discriminate).
  split; [exact H |]. split; [reflexivity |].
  exact (notification_needs_permission _ _ H).
Defined.

(** X2: a sound is never played without a notification: what a check adds
    to the trace contains a playback request only together with a
    notification, which then is marked silent and follows the request. *)
Theorem playback_only_with_alert :
  forall (t : Num.number) (s : string) (api : option Permission)
         (c : Completion) (st : AppState),
    let tr := snd (fetchRate_settle t s api c st) in
    playbacks tr = []
    \/ (exists body rest,
          s <> "" /\
          tr = (EAudioPlay s :: ENotification alert_title body true :: rest)
          /\ playbacks rest = [] /\ alerts rest = []).
Proof.
  intros t s api c st tr. subst tr.
  destruct (fetchRate_settle_trace t s api c st)
    as [| msg | x Hapi Hd Hgt]; [left; reflexivity | left; reflexivity |].
  unfold playback_request, playback_log.
  destruct s as [| a s]; cbn [Js.truthy].
  - left. destruct (playback c); reflexivity.
  - right. eexists _, _. split; [discriminate |].
    split; [reflexivity |]. destruct (playback c); split; reflexivity.
Qed.

(** ** Invariants of the mounted component *)

Lemma reachable_positive w :
  reachable w ->
  positive_number (threshold (state w))
  /\ positive_number (checkInterval (state w)).
Proof.
  intros H. destruct (reachable_in_sync w H) as (_ & _ & Ht & Hi).
  split; apply FloatFacts.valid_positive_iff; assumption.
Qed.

(** X3: the settings in force are always valid: in every world the
    component can be in, threshold and interval are Numbers greater than
    zero (never NaN, zero or negative), and so is the threshold of every
    request in flight. *)
Theorem settings_stay_positive :
  forall w : World,
    reachable w ->
    positive_number (threshold (state w))
    /\ positive_number (checkInterval (state w))
    /\ Forall (fun f => positive_number (cb_threshold f)) (in_flight w).
Proof.
  intros w Hr.
  split; [apply reachable_positive, Hr |].
  split; [apply reachable_positive, Hr |].
  revert w Hr. apply reachable_ind.
  - intros api. unfold mounted, mount.
    destruct api; repeat constructor.
  - intros w ev Hr IH _. pose proof (reachable_positive w Hr) as [Ht _].
    assert (Hcall : forall f, positive_number (cb_threshold f) ->
              Forall (fun f => positive_number (cb_threshold f))
                     (in_flight (call_fetchRate f w))).
    { intros f Hf. cbn. apply Forall_app. split; [exact IH |].
      constructor; [exact Hf | constructor]. }
    assert (Hcommit : forall w0,
              in_flight w0 = in_flight w ->
              positive_number (threshold (state w0)) ->
              Forall (fun f => positive_number (cb_threshold f))
                     (in_flight (commit w0))).
    { intros w0 E Hp. unfold commit.
      destruct (effect_deps w0) as [[f i] |]; [| rewrite E; exact IH].
      destruct (_ && _); [rewrite E; exact IH |].
      cbn. rewrite E. apply Forall_app. split; [exact IH |].
      constructor; [exact Hp | constructor]. }
    destruct (is_settle ev) eqn:Es.
    { destruct ev as [| | i c | | | | | | |]; try discriminate.
      rewrite in_flight_step_settle.
      clear - IH. revert i. induction IH as [| f l Hf Hl IHl]; intros [| i];
        cbn; try constructor; auto. }
    rewrite (step_reachable _ _ Hr).
    destruct ev as [| | i c | v | | v | | v | answer | p]; try discriminate;
      cbn [mounted_step].
    + destruct (reachable_in_sync w Hr) as (_ & Htm & _). rewrite Htm.
      apply Hcall. exact Ht.
    + destruct (isLoading (state w)); [exact IH | apply Hcall; exact Ht].
    + exact IH.
    + apply Hcommit; [reflexivity |]. cbn [with_state state].
      destruct (handleSetThreshold_cases (state w)) as [[Hok E] | [_ E]];
        rewrite E; [apply FloatFacts.valid_positive_iff, Hok | exact Ht].
    + exact IH.
    + apply Hcommit; [reflexivity |]. cbn [with_state state].
      destruct (handleSetCheckInterval_cases (state w)) as [[_ E] | [_ E]];
        rewrite E; exact Ht.
    + apply Hcommit; [reflexivity | exact Ht].
    + destruct (notificationPermission (state w)); try exact IH.
      unfold requestNotificationPermission.
      destruct (Notification_api w); exact IH.
    + unfold site_setting. destruct (Notification_api w); exact IH.
Qed.

Lemma settings_stay_positive_witness :
  let w := run (mounted None) [TypeThreshold "-4"; SubmitThreshold;
                               TypeInterval "0"; SubmitInterval] in
  reachable w
  /\ positive_number (threshold (state w))
  /\ positive_number (checkInterval (state w))
  /\ Forall (fun f => positive_number (cb_threshold f)) (in_flight w).
Proof.
  assert (Hr : reachable (run (mounted None)
                              [TypeThreshold "-4"; SubmitThreshold;
                               TypeInterval "0"; SubmitInterval]))
    by still_mounted.
  split; [exact Hr | apply settings_stay_positive, Hr].
Defined.

(** ** What a completed check leaves alone *)

Lemma settle_settings i c w : same_settings (state w) (state (settle i c w)).
Proof.
  destruct (nth_error (in_flight w) i) as [f |] eqn:Hi.
  - rewrite (state_settle i c w f Hi). apply fetchRate_settle_settings.
  - unfold settle. rewrite Hi. apply same_settings_refl.
Qed.

(** X4: a check that completes, whatever the reply and whether or not the
    component is still mounted, touches nothing but rate, time of the last
    check, error and loading flag: the settings, the texts and messages of
    the forms, the permission on display, the permission of the browser
    and the dependencies of the effect are as before.  The timer is as
    before too, unless this completion unmounts the component: then the
    render of what it stored threw, and the timer is cleared. *)
Theorem check_leaves_settings :
  forall (w : World) (i : nat) (c : Completion),
    let w' := step w (Settle i c) in
    same_settings (state w) (state w')
    /\ effect_deps w' = effect_deps w
    /\ Notification_api w' = Notification_api w
    /\ (unmounted w' = unmounted w -> interval_timer w' = interval_timer w)
    /\ (unmounted w' <> unmounted w ->
        unmounted w' = true
        /\ render_throws (state w') = true
        /\ interval_timer w' = None).
Proof.
  intros w i c w'. subst w'.
  split; [apply settings_step_settle |].
  split; [| split; [apply api_step_settle |]].
  - destruct (nth_error (in_flight w) i) as [f |] eqn:Hi;
      [| rewrite (step_settle_missing w i c Hi); reflexivity].
    unfold step. destruct (unmounted w); cbn [unmounted_step mounted_step].
    + unfold settle_unmounted. rewrite Hi.
      destruct (fetchRate_settle _ _ _ _ _). reflexivity.
    + destruct (settle_cases i c w f Hi) as [[_ ->] | [_ ->]]; reflexivity.
  - destruct (nth_error (in_flight w) i) as [f |] eqn:Hi;
      [| rewrite (step_settle_missing w i c Hi); split; congruence].
    unfold step. destruct (unmounted w) eqn:Hm;
      cbn [unmounted_step mounted_step].
    + unfold settle_unmounted. rewrite Hi.
      destruct (fetchRate_settle _ _ _ _ _). cbn. rewrite Hm.
      split; congruence.
    + destruct (settle_cases i c w f Hi) as [[_ ->] | [Hth ->]];
        cbn [unmounted interval_timer state]; rewrite ?Hm.
      * split; congruence.
      * split; [discriminate | auto].
Qed.

Lemma check_leaves_settings_witness :
  let w := mounted (Some PGranted) in
  let w' := step w (Settle 0 (reply_with (JBool true) 5)) in
  nth_error (in_flight w) 0 = Some (current_fetchRate initial_state)
  /\ rate (state w') = VJson (JBool true)
  /\ unmounted w' = true
  /\ interval_timer w' = None
  /\ same_settings (state w) (state w').
Proof.
  pose proof (check_leaves_settings (mounted (Some PGranted)) 0
                (reply_with (JBool true) 5)) as (H1 & _ & _ & _ & H5).
  assert (Hu : unmounted (step (mounted (Some PGranted))
                               (Settle 0 (reply_with (JBool true) 5)))
               <> unmounted (mounted (Some PGranted)))
    by (vm_compute; discriminate).
  destruct (H5 Hu) as (H6 & _ & H7).
  split; [reflexivity |]. split; [vm_compute; reflexivity |].
  split; [exact H6 |]. split; [exact H7 | exact H1].
Defined.

(** ** The timer *)

Lemma timers_app a b :
  timers_set (a ++ b) = (timers_set a + timers_set b)%nat
  /\ timers_cleared (a ++ b) = (timers_cleared a + timers_cleared b)%nat.
Proof.
  unfold timers_set, timers_cleared.
  rewrite !filter_app, !length_app. split; reflexivity.
Qed.

Lemma settle_trace_timers t s api c tr :
  settle_trace t s api c tr -> timers_set tr = O /\ timers_cleared tr = O.
Proof.
  intros [| msg | x _ _ _]; try (split; reflexivity).
  unfold playback_request, playback_log.
  destruct (Js.truthy s); destruct (playback c); split; reflexivity.
Qed.

Lemma timers_commit w :
  exists k,
    timers_set (trace (commit w)) = (timers_set (trace w) + k)%nat
    /\ timers_cleared (trace (commit w)) = (timers_cleared (trace w) + k)%nat.
Proof.
  unfold commit. destruct (effect_deps w) as [[f i] |];
    [| exists O; split; symmetry; apply Nat.add_0_r].
  destruct (_ && _); [exists O; split; symmetry; apply Nat.add_0_r |].
  exists 1%nat. cbn [polling_effect polling_cleanup call_fetchRate trace].
  repeat (rewrite (proj1 (timers_app _ _)) || rewrite (proj2 (timers_app _ _))).
  cbn. split; lia.
Qed.

Lemma timers_unsettled w ev :
  is_settle ev = false ->
  exists k,
    timers_set (trace (step w ev)) = (timers_set (trace w) + k)%nat
    /\ timers_cleared (trace (step w ev)) = (timers_cleared (trace w) + k)%nat.
Proof.
  intros He.
  assert (H0 : exists k,
            timers_set (trace w) = (timers_set (trace w) + k)%nat
            /\ timers_cleared (trace w) = (timers_cleared (trace w) + k)%nat)
    by (exists O; split; symmetry; apply Nat.add_0_r).
  assert (Hf : exists k,
            timers_set (trace w ++ [EFetch API_URL])
            = (timers_set (trace w) + k)%nat
            /\ timers_cleared (trace w ++ [EFetch API_URL])
               = (timers_cleared (trace w) + k)%nat).
  { exists O. destruct (timers_app (trace w) [EFetch API_URL]) as [-> ->].
    split; reflexivity. }
  unfold step. destruct (unmounted w).
  { destruct ev; try discriminate; cbn [unmounted_step]; try exact H0.
    unfold site_setting. destruct (Notification_api w); exact H0. }
  destruct ev as [| | i c | v | | v | | v | answer | p]; try discriminate;
    cbn [mounted_step]; try exact H0;
    try (apply (timers_commit (with_state _ w))).
  - destruct (interval_timer w); [exact Hf | exact H0].
  - destruct (isLoading (state w)); [exact H0 | exact Hf].
  - destruct (notificationPermission (state w)); try exact H0.
    unfold requestNotificationPermission.
    destruct (Notification_api w); exact H0.
  - unfold site_setting. destruct (Notification_api w); exact H0.
Qed.

(** The timers armed and cleared balance: one is live while the component
    is mounted, none after. *)
Lemma timers_step w ev :
  timers_set (trace w)
  = (timers_cleared (trace w) + if unmounted w then 0 else 1)%nat ->
  timers_set (trace (step w ev))
  = (timers_cleared (trace (step w ev))
     + if unmounted (step w ev) then 0 else 1)%nat.
Proof.
  intros H. destruct (is_settle ev) eqn:He.
  - destruct ev as [| | i c | | | | | | |]; try discriminate.
    destruct (nth_error (in_flight w) i) as [f |] eqn:Hi;
      [| rewrite (step_settle_missing w i c Hi); exact H].
    pose proof (fetchRate_settle_trace (cb_threshold f) (cb_sound f)
                  (Notification_api w) c (state w)) as Htr.
    apply settle_trace_timers in Htr as [H1 H2].
    unfold step. destruct (unmounted w) eqn:Hm;
      cbn [unmounted_step mounted_step].
    + unfold settle_unmounted. rewrite Hi.
      destruct (fetchRate_settle _ _ _ _ _) as [st tr].
      cbn [trace unmounted snd] in *. rewrite Hm.
      destruct (timers_app (trace w) tr) as [-> ->]. lia.
    + destruct (settle_cases i c w f Hi) as [[_ ->] | [_ ->]];
        cbn [trace unmounted]; rewrite ?Hm;
        repeat (rewrite (proj1 (timers_app _ _))
                || rewrite (proj2 (timers_app _ _))); cbn; lia.
  - rewrite (unmounted_unsettled w ev He).
    destruct (timers_unsettled w ev He) as (k & -> & ->). lia.
Qed.

Lemma timer_gone_step w ev :
  (unmounted w = true -> interval_timer w = None) ->
  unmounted (step w ev) = true -> interval_timer (step w ev) = None.
Proof.
  intros H. unfold step. destruct (unmounted w) eqn:Hm.
  - intros _. specialize (H eq_refl).
    destruct ev; cbn [unmounted_step]; try exact H.
    + unfold settle_unmounted.
      destruct (nth_error (in_flight w) i); [| exact H].
      destruct (fetchRate_settle _ _ _ _ _). exact H.
    + unfold site_setting. destruct (Notification_api w); exact H.
  - intros Hm'. destruct (is_settle ev) eqn:He.
    + destruct ev as [| | i c | | | | | | |]; try discriminate.
      cbn [mounted_step] in *.
      destruct (nth_error (in_flight w) i) as [f |] eqn:Hi;
        [| unfold settle in Hm'; rewrite Hi in Hm'; congruence].
      destruct (settle_cases i c w f Hi) as [[_ E] | [_ E]];
        rewrite E in *; cbn [unmounted interval_timer] in *;
        [congruence | reflexivity].
    + pose proof (unmounted_unsettled w ev He) as Hu.
      rewrite (step_mounted _ _ Hm) in Hu. congruence.
Qed.

(** X5: no timer is leaked.  Whatever has happened since the mount, while
    the component is mounted the timers armed so far are one more than
    the timers cleared, however often the settings were changed, and the
    one that is live is the timer of the settings in force; once the
    component is unmounted every timer armed has been cleared and none is
    live. *)
Theorem one_timer_live :
  forall (api : option Permission) (evs : list Event),
    let w := run (mounted api) evs in
    if unmounted w
    then timers_set (trace w) = timers_cleared (trace w)
         /\ interval_timer w = None
    else timers_set (trace w) = S (timers_cleared (trace w))
         /\ interval_timer w = Some (armed_timer (state w)).
Proof.
  intros api evs w.
  assert (H : timers_set (trace w)
              = (timers_cleared (trace w) + if unmounted w then 0 else 1)%nat
              /\ (unmounted w = true -> interval_timer w = None)).
  { subst w. induction evs as [| ev evs IH] using rev_ind.
    - split; [destruct api; reflexivity | destruct api; discriminate].
    - rewrite run_snoc. destruct IH as [IH1 IH2].
      split; [apply timers_step, IH1 | apply timer_gone_step, IH2]. }
  destruct H as [H1 H2]. destruct (unmounted w) eqn:Hm.
  - split; [lia | apply H2; reflexivity].
  - split; [lia |]. apply reachable_in_sync, reachable_run, Hm.
Qed.

Lemma one_timer_live_witness :
  let w := run (mounted (Some PDefault))
               [TypeInterval "1"; SubmitInterval; SelectSound "x";
                TypeThreshold "3.3"; SubmitThreshold] in
  let w' := run (mounted (Some PDefault))
                [TypeInterval "1"; SubmitInterval;
                 Settle 1 (reply_with (JString "3.3") 5); TimerTick] in
  (unmounted w = false
   /\ timers_set (trace w) = 4%nat
   /\ timers_cleared (trace w) = 3%nat
   /\ interval_timer w = Some (armed_timer (state w)))
  /\ (unmounted w' = true
      /\ timers_set (trace w') = 2%nat
      /\ timers_cleared (trace w') = 2%nat
      /\ interval_timer w' = None).
Proof.
  pose proof (one_timer_live (Some PDefault)
                [TypeInterval "1"; SubmitInterval; SelectSound "x";
                 TypeThreshold "3.3"; SubmitThreshold]) as H.
  pose proof (one_timer_live (Some PDefault)
                [TypeInterval "1"; SubmitInterval;
                 Settle 1 (reply_with (JString "3.3") 5); TimerTick]) as H'.
  cbv zeta in H, H'.
  assert (Hm : unmounted (run (mounted (Some PDefault))
                 [TypeInterval "1"; SubmitInterval; SelectSound "x";
                  TypeThreshold "3.3"; SubmitThreshold]) = false)
    by (vm_compute; reflexivity).
  assert (Hm' : unmounted (run (mounted (Some PDefault))
                  [TypeInterval "1"; SubmitInterval;
                   Settle 1 (reply_with (JString "3.3") 5); TimerTick]) = true)
    by (vm_compute; reflexivity).
  rewrite Hm in H. rewrite Hm' in H'.
  split.
  - split; [exact Hm |]. split; [vm_compute; reflexivity |].
    split; [vm_compute; reflexivity | exact (proj2 H)].
  - split; [exact Hm' |]. split; [vm_compute; reflexivity |].
    split; [vm_compute; reflexivity | exact (proj2 H')].
Defined.

(** ** The loading flag *)

(** X6: the loading flag never sticks: in every world the mounted
    component can be in, when no request is in flight the flag is off, so
    the status shown is not [Checking] and the refresh button is enabled:
    a click on it starts one request. *)
Theorem idle_is_not_loading :
  forall w : World,
    reachable w ->
    in_flight w = [] ->
    isLoading (state w) = false
    /\ status (state w) <> Checking
    /\ in_flight (step w ClickRefresh) = [current_fetchRate (state w)].
Proof.
  assert (H : forall w, reachable w ->
            in_flight w = [] -> isLoading (state w) = false).
  { apply (reachable_ind (fun w => in_flight w = [] ->
                                   isLoading (state w) = false)).
    - intros api. destruct api; discriminate.
    - intros w ev Hr IH _. rewrite (step_reachable _ _ Hr).
      assert (Hcommit : forall w0,
                in_flight w0 = in_flight w ->
                isLoading (state w0) = isLoading (state w) ->
                in_flight (commit w0) = [] ->
                isLoading (state (commit w0)) = false).
      { intros w0 E El. unfold commit.
        destruct (effect_deps w0) as [[f i] |];
          [| rewrite E, El; exact IH].
        destruct (_ && _); [rewrite E, El; exact IH |].
        cbn. intros Hn. apply app_eq_nil in Hn as [_ Hn]. discriminate. }
      destruct ev as [| | i c | v | | v | | v | answer | p];
        cbn [mounted_step].
      + destruct (interval_timer w); [| exact IH].
        cbn. intros Hn. apply app_eq_nil in Hn as [_ Hn]. discriminate.
      + destruct (isLoading (state w)) eqn:El;
          [rewrite El; exact IH |].
        cbn. intros Hn. apply app_eq_nil in Hn as [_ Hn]. discriminate.
      + destruct (nth_error (in_flight w) i) as [f |] eqn:Hi;
          [| unfold settle; rewrite Hi; exact IH].
        rewrite (state_settle i c w f Hi). intros _.
        apply fetchRate_settle_settings.
      + cbn. unfold handleThresholdChange.
        destruct (truthy_opt _); exact IH.
      + apply Hcommit; [reflexivity |]. cbn [with_state state].
        destruct (handleSetThreshold_cases (state w)) as [[_ E] | [_ E]];
          rewrite E; reflexivity.
      + cbn. unfold handleCheckIntervalChange.
        destruct (truthy_opt _); exact IH.
      + apply Hcommit; [reflexivity |]. cbn [with_state state].
        destruct (handleSetCheckInterval_cases (state w)) as [[_ E] | [_ E]];
          rewrite E; reflexivity.
      + apply Hcommit; reflexivity.
      + destruct (notificationPermission (state w)); try exact IH.
        unfold requestNotificationPermission.
        destruct (Notification_api w); exact IH.
      + unfold site_setting. destruct (Notification_api w); exact IH. }
  intros w Hr Hn. pose proof (H w Hr Hn) as Hl.
  split; [exact Hl |]. split.
  - unfold status, StatusIndicator. rewrite Hl.
    destruct (error (state w)) as [m |]; [destruct (Js.truthy m) |];
      discriminate.
  - rewrite (step_reachable _ _ Hr). cbn [mounted_step].
    rewrite Hl. cbn. rewrite Hn. reflexivity.
Qed.

Lemma idle_is_not_loading_witness :
  let w := run (mounted (Some PGranted))
               [Settle 0 (rate_reply (Num.parseFloat "3.1") 3 None)] in
  reachable w
  /\ in_flight w = []
  /\ isLoading (state w) = false
  /\ status (state w) <> Checking.
Proof.
  assert (Hr : reachable
                 (run (mounted (Some PGranted))
                      [Settle 0 (rate_reply (Num.parseFloat "3.1") 3 None)]))
    by still_mounted.
  assert (Hn : in_flight
                 (run (mounted (Some PGranted))
                      [Settle 0 (rate_reply (Num.parseFloat "3.1") 3 None)])
               = []) by (vm_compute; reflexivity).
  pose proof (idle_is_not_loading _ Hr Hn) as (H1 & H2 & _).
  split; [exact Hr |]. split; [exact Hn |].
  split; [exact H1 | exact H2].
Defined.

(** X7: a check that succeeds does not clear an error: [error] is reset
    only when a check begins.  When requests overlap and an earlier one
    has failed in the meantime, a later one that delivers a Number to the
    mounted component leaves the status at [Error], beside the fresh rate;
    the component stays mounted. *)
Theorem success_keeps_stale_error :
  forall (w : World) (i : nat) (f : Callback) (c : Completion)
         (x : Num.number) (p : Permission) (m : string),
    unmounted w = false ->
    nth_error (in_flight w) i = Some f ->
    Notification_api w = Some p ->
    delivers c (VJson (JNumber x)) ->
    error (state w) = Some m ->
    m <> "" ->
    let w' := step w (Settle i c) in
    error (state w') = Some m
    /\ status (state w') = StatusError
    /\ rate (state w') = VJson (JNumber x)
    /\ lastChecked (state w') = Some (now c)
    /\ unmounted w' = false.
Proof.
  intros w i f c x p m Hu Hi Hapi Hd He Hm w'. subst w'.
  rewrite (step_mounted _ _ Hu). cbn [mounted_step].
  assert (Hst : forall st', error st' = Some m -> isLoading st' = false ->
            status st' = StatusError).
  { intros st' E L. unfold status, StatusIndicator. rewrite E, L.
    destruct m; [congruence | reflexivity]. }
  assert (H : let st' := fst (fetchRate_settle (cb_threshold f) (cb_sound f)
                                (Notification_api w) c (state w)) in
              error st' = Some m /\ status st' = StatusError
              /\ rate st' = VJson (JNumber x)
              /\ lastChecked st' = Some (now c)).
  { rewrite Hapi, (fetchRate_settle_number _ _ _ _ _ _ Hd).
    unfold settle_number.
    destruct (Num.gt x (cb_threshold f)); [destruct (is_granted p) |];
      cbn [fst]; repeat split; try exact He; apply Hst; auto. }
  cbv zeta in H. destruct H as (H1 & H2 & H3 & H4).
  rewrite (state_settle i c w f Hi).
  split; [exact H1 |]. split; [exact H2 |]. split; [exact H3 |].
  split; [exact H4 |].
  destruct (settle_cases i c w f Hi) as [[_ ->] | [Hth _]]; [exact Hu |].
  rewrite (renders_number _ x H3) in Hth. discriminate.
Qed.

Lemma success_keeps_stale_error_witness :
  let w := run (mounted (Some PGranted))
               [TimerTick; Settle 0 (failed_request (ThrownError "Load failed"))] in
  let c := rate_reply (Num.parseFloat "3.1") 9 None in
  nth_error (in_flight w) 0 = Some (current_fetchRate (state w))
  /\ Notification_api w = Some PGranted
  /\ delivers c (VJson (JNumber (Num.parseFloat "3.1")))
  /\ error (state w) = Some "Load failed"
  /\ unmounted w = false
  /\ status (state (step w (Settle 0 c))) = StatusError
  /\ rate (state (step w (Settle 0 c))) = VJson (JNumber (Num.parseFloat "3.1")).
Proof.
  pose proof (success_keeps_stale_error
                (run (mounted (Some PGranted))
                     [TimerTick;
                      Settle 0 (failed_request (ThrownError "Load failed"))])
                0 _ (rate_reply (Num.parseFloat "3.1") 9 None)
                (Num.parseFloat "3.1") PGranted "Load failed"
                eq_refl eq_refl eq_refl (rate_reply_delivers _ _ _) eq_refl
                ltac:(discriminate)) as (_ & H2 & H3 & _).
  split; [reflexivity |]. split; [reflexivity |].
  split; [apply rate_reply_delivers |]. split; [reflexivity |].
  split; [reflexivity |].
  split; [exact H2 | exact H3].
Defined.

(** ** The forms *)

Lemma form_errors_settings st st' :
  same_settings st st' -> form_errors st -> form_errors st'.
Proof.
  unfold same_settings, form_errors.
  intros (_ & _ & _ & E1 & _ & _ & E2 & _). rewrite E1, E2. tauto.
Qed.

Lemma form_errors_commit w :
  form_errors (state w) -> form_errors (state (commit w)).
Proof.
  intros H. unfold commit. destruct (effect_deps w) as [[f i] |]; [| exact H].
  destruct (_ && _); exact H.
Qed.

Lemma reachable_form_errors w : reachable w -> form_errors (state w).
Proof.
  revert w. apply reachable_ind.
  - intros api. destruct api; split; left; reflexivity.
  - intros w ev Hr IH _. rewrite (step_reachable _ _ Hr).
    destruct ev as [| | i c | v | | v | | v | answer | p]; cbn [mounted_step].
    + destruct (interval_timer w); exact IH.
    + destruct (isLoading (state w)); exact IH.
    + apply (form_errors_settings (state w)); [| exact IH].
      apply settle_settings.
    + cbn. unfold handleThresholdChange.
      destruct (truthy_opt _); split; cbn; try tauto; apply IH.
    + apply form_errors_commit. cbn [with_state state].
      destruct (handleSetThreshold_cases (state w)) as [[_ E] | [_ E]];
        rewrite E; split; cbn; try tauto; apply IH.
    + cbn. unfold handleCheckIntervalChange.
      destruct (truthy_opt _); split; cbn; try tauto; apply IH.
    + apply form_errors_commit. cbn [with_state state].
      destruct (handleSetCheckInterval_cases (state w)) as [[_ E] | [_ E]];
        rewrite E; split; cbn; try tauto; apply IH.
    + apply form_errors_commit. exact IH.
    + destruct (notificationPermission (state w)); try exact IH.
      unfold requestNotificationPermission.
      destruct (Notification_api w); exact IH.
    + unfold site_setting. destruct (Notification_api w); exact IH.
Qed.

Lemma handleThresholdChange_clears v st :
  form_errors st ->
  handleThresholdChange v st = setThresholdError None (setInputThreshold v st).
Proof.
  unfold form_errors, handleThresholdChange. destruct st; cbn.
  intros [[-> | ->] _]; reflexivity.
Qed.

Lemma handleCheckIntervalChange_clears v st :
  form_errors st ->
  handleCheckIntervalChange v st
  = setIntervalError None (setInputCheckInterval v st).
Proof.
  unfold form_errors, handleCheckIntervalChange. destruct st; cbn.
  intros [_ [-> | ->]]; reflexivity.
Qed.

(** X8: editing a field takes its error message away and does nothing
    else: after any change of the text of the threshold (or interval)
    input, the message of that form is absent and the text is the one
    typed, while the other form, the settings, the requests in flight, the
    timer and the trace are as before. *)
Theorem editing_clears_error :
  forall (w : World) (v : string),
    reachable w ->
    (let w' := step w (TypeThreshold v) in
     thresholdError (state w') = None
     /\ state w' = setThresholdError None (setInputThreshold v (state w))
     /\ in_flight w' = in_flight w /\ interval_timer w' = interval_timer w
     /\ trace w' = trace w)
    /\ (let w' := step w (TypeInterval v) in
        intervalError (state w') = None
        /\ state w' = setIntervalError None (setInputCheckInterval v (state w))
        /\ in_flight w' = in_flight w /\ interval_timer w' = interval_timer w
        /\ trace w' = trace w).
Proof.
  intros w v Hr. pose proof (reachable_form_errors w Hr) as Hf.
  split; rewrite (step_reachable _ _ Hr);
    cbn [mounted_step with_state state in_flight interval_timer trace].
  - rewrite (handleThresholdChange_clears v _ Hf). repeat split.
  - rewrite (handleCheckIntervalChange_clears v _ Hf). repeat split.
Qed.

Lemma editing_clears_error_witness :
  let w := run (mounted None) [TypeThreshold "0"; SubmitThreshold] in
  reachable w
  /\ thresholdError (state w) = Some threshold_message
  /\ thresholdError (state (step w (TypeThreshold "0."))) = None.
Proof.
  assert (Hr : reachable (run (mounted None)
                              [TypeThreshold "0"; SubmitThreshold]))
    by still_mounted.
  split; [exact Hr |]. split; [reflexivity |].
  exact (proj1 (proj1 (editing_clears_error _ "0." Hr))).
Defined.

(** ** The rate on display *)

Lemma fetchRate_settle_delivers t s api c st v :
  delivers c v ->
  let st' := fst (fetchRate_settle t s api c st) in
  rate st' = v /\ lastChecked st' = Some (now c) /\ isLoading st' = false.
Proof.
  intros (r & data & rates & Hf & Hok & Hj & Hr & Hm) st'.
  subst st'. run_body. rewrite Hf, Hok. cbn [negb]. rewrite Hj, Hr, Hm.
  destruct v as [| [| b | x | str | items | members]];
    try (destruct (Js.to_string _) as [txt | e0];
         [| destruct (playback c); repeat split]);
    (destruct (Num.gt _ t); [| destruct (playback c); repeat split]);
    (destruct api as [p |]; [| destruct (playback c); repeat split]);
    destruct (is_granted p); cbn [andb];
    try (destruct (Js.truthy s)); destruct (playback c); repeat split.
Qed.

Lemma RateDisplay_rate_view v : RateDisplay v false = rate_view v.
Proof.
  destruct v as [| [| [] | [[] | [] | | [] m e] | [| a str] | items | members]];
    reflexivity.
Qed.

(** X9: whatever [data.rates.MYR] evaluates to is stored as the rate,
    together with the time, before anything is checked: also a value that
    is not a Number, and also when the alert step then throws.  The
    display makes of it: for a Number other than zero and NaN its four
    decimals, for zero, NaN, [undefined], [null], [false] and the empty
    string the placeholder, and for anything else a render that throws. *)
Theorem delivered_rate_is_stored :
  forall (t : Num.number) (s : string) (api : option Permission)
         (c : Completion) (st : AppState) (v : Value),
    delivers c v ->
    let st' := fst (fetchRate_settle t s api c st) in
    rate st' = v
    /\ lastChecked st' = Some (now c)
    /\ RateDisplay (rate st') (isLoading st') = rate_view v.
Proof.
  intros t s api c st v Hd st'.
  destruct (fetchRate_settle_delivers t s api c st v Hd) as (H1 & H2 & H3).
  fold st' in H1, H2, H3. rewrite H1, H2, H3.
  split; [reflexivity |]. split; [reflexivity |].
  apply RateDisplay_rate_view.
Qed.

Lemma delivered_rate_is_stored_witness :
  let c := {| fetched := Ok {| resp_status := 200; resp_statusText := "OK";
                               resp_json := Ok (JObject
                                 [("rates", JObject [("MYR", JString "3.3")])]) |};
              now := 4; playback := None |} in
  let st' := fst (fetchRate_settle (Num.parseFloat "3.20") "" (Some PGranted)
                                   c initial_state) in
  delivers c (VJson (JString "3.3"))
  /\ rate st' = VJson (JString "3.3")
  /\ RateDisplay (rate st') (isLoading st')
     = Raise (ThrownError "rate.toFixed is not a function").
Proof.
  assert (Hd : delivers
            {| fetched := Ok {| resp_status := 200; resp_statusText := "OK";
                                resp_json := Ok (JObject
                                  [("rates", JObject [("MYR", JString "3.3")])]) |};
               now := 4; playback := None |} (VJson (JString "3.3"))).
  { eexists _, _, _. repeat split; reflexivity. }
  pose proof (delivered_rate_is_stored (Num.parseFloat "3.20") ""
                (Some PGranted) _ initial_state _ Hd) as (H1 & _ & H3).
  split; [exact Hd |]. split; [exact H1 | exact H3].
Defined.

Lemma unsigned_decimals_build f ip fp :
  ip <> "" -> Str.all_digits ip = true -> Str.all_digits fp = true ->
  String.length fp = f ->
  Str.unsigned_decimals f (ip ++ "." ++ fp) = true.
Proof.
  intros Hne Hip Hfp Hlen. unfold Str.unsigned_decimals.
  rewrite (StrFacts.span_digits_app ip ("." ++ fp) Hip); [| reflexivity].
  destruct ip as [| c ip]; [congruence |].
  simpl. rewrite <- (StrFacts.app_empty_r fp) at 1.
  rewrite (StrFacts.span_digits_app fp "" Hfp I), Hlen, Nat.eqb_refl.
  reflexivity.
Qed.

Lemma split_unsigned_decimals f m :
  Str.all_digits m = true -> (f < String.length m)%nat ->
  Str.unsigned_decimals f
    (Str.take (String.length m - f) m ++ "."
     ++ Str.drop (String.length m - f) m) = true.
Proof.
  intros Hm Hlen.
  pose proof (StrFacts.take_drop (String.length m - f) m) as Htd.
  assert (Hall : Str.all_digits (Str.take (String.length m - f) m) = true
                 /\ Str.all_digits (Str.drop (String.length m - f) m) = true).
  { rewrite <- Htd, StrFacts.all_digits_app in Hm.
    apply andb_true_iff in Hm. exact Hm. }
  apply unsigned_decimals_build; try tauto.
  - intros He.
    assert (String.length (Str.take (String.length m - f) m)
            = (String.length m - f)%nat) by (apply StrFacts.length_take; lia).
    rewrite He in H. simpl in H. lia.
  - rewrite StrFacts.length_drop. lia.
Qed.

Lemma toFixed_unsigned_decimals x f :
  f <> O -> Num.isFinite x = true -> Num.below_1e21 x = true ->
  Num.is_negative x = false ->
  Str.unsigned_decimals f (Num.toFixed x f) = true.
Proof.
  intros Hf Hfin Hb Hneg. unfold Num.toFixed.
  rewrite Hfin, Hb, Hneg. cbn [negb].
  destruct f as [| f']; [congruence |].
  set (m0 := Str.of_Z (Num.fixed_integer x (Z.of_nat (S f')))).
  pose proof (StrFacts.all_digits_of_Z
                (Num.fixed_integer x (Z.of_nat (S f')))) as Hd.
  pose proof (StrFacts.of_Z_nonempty
                (Num.fixed_integer x (Z.of_nat (S f')))) as Hn.
  fold m0 in Hd, Hn.
  change ("" ++ ?a) with a.
  destruct (String.length m0 <=? S f')%nat eqn:Hk.
  - apply Nat.leb_le in Hk. apply split_unsigned_decimals.
    + rewrite StrFacts.all_digits_app, StrFacts.all_digits_zeros, Hd.
      reflexivity.
    + rewrite StrFacts.length_app, StrFacts.length_zeros. lia.
  - apply Nat.leb_gt in Hk. apply split_unsigned_decimals; assumption.
Qed.

(** X10: the header never shows a malformed threshold: in every world the
    component can be in, the threshold it prints with [toFixed(2)] is,
    for a finite threshold below 10^21, at least one digit, a point and
    exactly two digits, with no sign; a threshold that is not finite is
    printed as [Infinity]. *)
Theorem header_threshold_format :
  forall w : World,
    reachable w ->
    (Num.isFinite (threshold (state w)) = true ->
     Num.below_1e21 (threshold (state w)) = true ->
     Str.unsigned_decimals 2 (header_threshold (state w)) = true)
    /\ (Num.isFinite (threshold (state w)) = false ->
        header_threshold (state w) = "Infinity").
Proof.
  intros w Hr. destruct (reachable_positive w Hr) as (Hp & _).
  unfold header_threshold. split.
  - intros Hfin Hb. apply toFixed_unsigned_decimals; auto.
    destruct (threshold (state w)) as [sg | sg | | [] m e];
      try contradiction; try discriminate; reflexivity.
  - intros Hfin.
    destruct (threshold (state w)) as [sg | [] | | [] m e];
      try contradiction; try discriminate. reflexivity.
Qed.

Lemma header_threshold_format_witness :
  let w := run (mounted None) [TypeThreshold "3.205"; SubmitThreshold] in
  reachable w
  /\ Num.isFinite (threshold (state w)) = true
  /\ Num.below_1e21 (threshold (state w)) = true
  /\ Str.unsigned_decimals 2 (header_threshold (state w)) = true
  /\ header_threshold (state w) = "3.21".
Proof.
  assert (Hr : reachable (run (mounted None)
                              [TypeThreshold "3.205"; SubmitThreshold]))
    by still_mounted.
  split; [exact Hr |]. split; [reflexivity |].
  split; [reflexivity |]. split; [| reflexivity].
  apply (proj1 (header_threshold_format _ Hr)); reflexivity.
Defined.

(** ** Reading back a rendered Number *)

Module DigitFacts.

Lemma digit_val_digit_char d : 0 <= d < 10 -> Str.digit_val (Str.digit_char d) = d.
Proof.
  intros H.
  assert (d = 0 \/ d = 1 \/ d = 2 \/ d = 3 \/ d = 4 \/ d = 5 \/ d = 6 \/
          d = 7 \/ d = 8 \/ d = 9) as Hd by lia.
  repeat (destruct Hd as [-> | Hd]; [reflexivity |]). subst d. reflexivity.
Qed.

Lemma digits_value_app a : forall acc b,
  Str.digits_value acc (a ++ b) = Str.digits_value (Str.digits_value acc a) b.
Proof. induction a as [| c a IH]; intros acc b; simpl; auto. Qed.

Lemma digits_value_shift s : forall acc,
  Str.digits_value acc s
  = acc * 10 ^ Z.of_nat (String.length s) + Str.digits_value 0 s.
Proof.
  induction s as [| c s IH]; intros acc.
  - simpl. lia.
  - cbn [Str.digits_value String.length].
    rewrite (IH (10 * acc + Str.digit_val c)), (IH (10 * 0 + Str.digit_val c)).
    rewrite Nat2Z.inj_succ, Z.pow_succ_r by lia. ring.
Qed.

Lemma digits_value_zeros n : forall acc,
  Str.digits_value acc (Str.zeros n) = acc * 10 ^ Z.of_nat n.
Proof.
  induction n as [| n IH]; intros acc.
  - simpl. lia.
  - cbn [Str.zeros Str.digits_value]. rewrite IH.
    rewrite Nat2Z.inj_succ, Z.pow_succ_r by lia.
    change (Str.digit_val "0") with 0. ring.
Qed.

Lemma digits_of_value fuel : forall z acc,
  0 <= z < 10 ^ Z.of_nat fuel ->
  Str.digits_value 0 (Str.digits_of fuel z acc)
  = z * 10 ^ Z.of_nat (String.length acc) + Str.digits_value 0 acc.
Proof.
  induction fuel as [| f IH]; intros z acc Hz.
  - simpl in Hz. replace z with 0 by lia. simpl. lia.
  - cbn [Str.digits_of]. destruct (z <? 10) eqn:E.
    + apply Z.ltb_lt in E. rewrite Z.mod_small by lia.
      cbn [Str.digits_value]. rewrite digits_value_shift.
      rewrite digit_val_digit_char by lia. lia.
    + apply Z.ltb_ge in E. rewrite IH.
      * cbn [String.length Str.digits_value].
        rewrite (digits_value_shift acc).
        rewrite digit_val_digit_char by (apply Z.mod_pos_bound; lia).
        rewrite Nat2Z.inj_succ, Z.pow_succ_r by lia.
        pose proof (Z.div_mod z 10 ltac:(lia)). nia.
      * rewrite Nat2Z.inj_succ, Z.pow_succ_r in Hz by lia.
        split; [apply Z.div_pos; lia |].
        apply Z.div_lt_upper_bound; lia.
Qed.

Lemma of_Z_fuel z : 0 <= z -> z < 10 ^ Z.of_nat (S (Z.to_nat (Z.log2 z))).
Proof.
  intros Hz. rewrite Nat2Z.inj_succ, Z2Nat.id by apply Z.log2_nonneg.
  destruct (Z.eq_dec z 0) as [-> | Hne]; [reflexivity |].
  destruct (Z.log2_spec z ltac:(lia)) as [_ Hu].
  apply Z.lt_le_trans with (1 := Hu).
  apply Z.pow_le_mono_l. pose proof (Z.log2_nonneg z). lia.
Qed.

(** The digits of a non-negative integer read back as that integer. *)
Lemma of_Z_value z : 0 <= z -> Str.digits_value 0 (Str.of_Z z) = z.
Proof.
  intros Hz. unfold Str.of_Z.
  rewrite digits_of_value by (split; [exact Hz | apply of_Z_fuel, Hz]).
  simpl. lia.
Qed.

Lemma digits_of_length k : forall fuel z acc,
  (k <= fuel)%nat -> (0 < k)%nat ->
  10 ^ (Z.of_nat k - 1) <= z < 10 ^ Z.of_nat k ->
  String.length (Str.digits_of fuel z acc) = (String.length acc + k)%nat.
Proof.
  induction k as [| k IH]; intros fuel z acc Hf Hk Hz; [lia |].
  destruct fuel as [| f]; [lia |]. cbn [Str.digits_of].
  destruct (z <? 10) eqn:E.
  - apply Z.ltb_lt in E. destruct k as [| k].
    + simpl. lia.
    + exfalso. rewrite Nat2Z.inj_succ in Hz.
      replace (Z.succ (Z.of_nat (S k)) - 1) with (Z.succ (Z.of_nat k)) in Hz by lia.
      rewrite Z.pow_succ_r in Hz by lia.
      pose proof (Z.pow_pos_nonneg 10 (Z.of_nat k) ltac:(lia) ltac:(lia)). lia.
  - apply Z.ltb_ge in E. destruct k as [| k].
    + simpl in Hz. lia.
    + rewrite (IH f (z / 10)); [simpl; lia | lia | lia |].
      rewrite !Nat2Z.inj_succ in *.
      replace (Z.succ (Z.succ (Z.of_nat k)) - 1) with (Z.succ (Z.of_nat k)) in Hz by lia.
      replace (Z.succ (Z.of_nat k) - 1) with (Z.of_nat k) by lia.
      rewrite (Z.pow_succ_r 10 (Z.succ (Z.of_nat k))) in Hz by lia.
      rewrite (Z.pow_succ_r 10 (Z.of_nat k)) in * by lia.
      split.
      * apply Z.div_le_lower_bound; lia.
      * apply Z.div_lt_upper_bound; lia.
Qed.

Lemma of_Z_length z k :
  0 < k -> 10 ^ (k - 1) <= z < 10 ^ k ->
  Z.of_nat (String.length (Str.of_Z z)) = k.
Proof.
  intros Hk Hz. unfold Str.of_Z.
  assert (Hpos : 0 < z) by (pose proof (Z.pow_pos_nonneg 10 (k - 1)); lia).
  rewrite (digits_of_length (Z.to_nat k)); [simpl; lia | | lia |
    rewrite Z2Nat.id by lia; exact Hz].
  assert (k - 1 <= Z.log2 z).
  { apply Z.log2_le_pow2; [lia |].
    apply Z.le_trans with (10 ^ (k - 1)); [| lia].
    apply Z.pow_le_mono_l. lia. }
  pose proof (Z.log2_nonneg z). lia.
Qed.

End DigitFacts.

Module ReadBack.

Import DigitFacts.

Lemma of_decimal_scale v e :
  0 <= v -> 0 <= e ->
  Num.of_decimal false (v * 10 ^ e) 0 = Num.of_decimal false v e.
Proof.
  intros Hv He. destruct v as [| p | p]; [reflexivity | | lia].
  unfold Num.of_decimal at 2. apply Z.leb_le in He. rewrite He.
  apply Z.leb_le in He.
  pose proof (Z.pow_pos_nonneg 10 e ltac:(lia) He) as Hp.
  destruct (10 ^ e) as [| q | q]; try lia.
  cbn [Z.mul]. unfold Num.of_decimal. cbn [Z.leb Z.compare Z.pow Z.mul].
  rewrite Pos.mul_1_r. reflexivity.
Qed.

(** A text that starts with a digit has no white space, sign or
    [Infinity] in front. *)
Lemma digit_start c r :
  Str.is_digit c = true ->
  Str.trim_start (String c r) = String c r
  /\ Num.strip_sign (String c r) = (false, String c r)
  /\ prefix "Infinity" (String c r) = false.
Proof.
  destruct c as [[] [] [] [] [] [] [] []]; try discriminate;
    intros _; repeat split; reflexivity.
Qed.

Lemma app_empty s : s ++ "" = s.
Proof. induction s; simpl; congruence. Qed.

Lemma span_all_digits ds :
  Str.all_digits ds = true -> Str.span_digits ds = (ds, "").
Proof.
  intros H. rewrite <- (app_empty ds) at 1.
  apply StrFacts.span_digits_app; [exact H | exact I].
Qed.

Lemma nonempty_digit_start ip :
  ip <> "" -> Str.all_digits ip = true ->
  exists c r, ip = String c r /\ Str.is_digit c = true.
Proof.
  destruct ip as [| c r]; [congruence |]. intros _ H. simpl in H.
  apply andb_true_iff in H as [H _]. eauto.
Qed.

(** The exponent part as [toString] writes it reads back as the
    exponent. *)
Lemma exponent_part_render e :
  Num.exponent_part ("e" ++ (if e <? 0 then "-" else "+") ++ Str.of_Z (Z.abs e))
  = (e, "").
Proof.
  pose proof (StrFacts.all_digits_of_Z (Z.abs e)) as Hd.
  pose proof (StrFacts.of_Z_nonempty (Z.abs e)) as Hn.
  pose proof (of_Z_value (Z.abs e) (Z.abs_nonneg e)) as Hv.
  destruct (e <? 0) eqn:E;
    [change ("e" ++ "-" ++ Str.of_Z (Z.abs e))
       with (String "e" (String "-" (Str.of_Z (Z.abs e))))
    | change ("e" ++ "+" ++ Str.of_Z (Z.abs e))
       with (String "e" (String "+" (Str.of_Z (Z.abs e))))];
    unfold Num.exponent_part;
    cbn [Ascii.eqb Bool.eqb orb Num.strip_sign];
    rewrite (span_all_digits _ Hd);
    destruct (Str.of_Z (Z.abs e)) eqn:Ez; try (simpl in Hn; lia);
    rewrite Hv; f_equal;
    [apply Z.ltb_lt in E | apply Z.ltb_ge in E]; lia.
Qed.

Lemma exponent_part_empty : Num.exponent_part "" = (0, "").
Proof. reflexivity. Qed.

(** Digits, a point and digits, then nothing or an exponent part. *)
Lemma parseFloat_point ip fp rest e :
  ip <> "" -> Str.all_digits ip = true -> Str.all_digits fp = true ->
  (rest = "" \/ exists tail, rest = String "e" tail) ->
  Num.exponent_part rest = (e, "") ->
  Num.parseFloat (ip ++ "." ++ fp ++ rest)
  = Num.of_decimal false (Str.digits_value 0 (ip ++ fp))
                   (e - Z.of_nat (String.length fp)).
Proof.
  intros Hne Hip Hfp Hrest He.
  destruct (nonempty_digit_start ip Hne Hip) as (c & r & -> & Hc).
  unfold Num.parseFloat, Num.scan_decimal.
  change (String c r ++ "." ++ fp ++ rest)
    with (String c (r ++ "." ++ fp ++ rest)).
  destruct (digit_start c (r ++ "." ++ fp ++ rest) Hc) as (-> & -> & ->).
  change (String c (r ++ "." ++ fp ++ rest))
    with (String c r ++ "." ++ fp ++ rest).
  rewrite (StrFacts.span_digits_app (String c r) ("." ++ fp ++ rest) Hip);
    [| reflexivity].
  cbn [append].
  rewrite (StrFacts.span_digits_app fp rest Hfp);
    [| destruct Hrest as [-> | [tail ->]]; [exact I | reflexivity]].
  rewrite He. reflexivity.
Qed.

(** Digits, then nothing or an exponent part. *)
Lemma parseFloat_integer ip rest e :
  ip <> "" -> Str.all_digits ip = true ->
  (rest = "" \/ exists tail, rest = String "e" tail) ->
  Num.exponent_part rest = (e, "") ->
  Num.parseFloat (ip ++ rest)
  = Num.of_decimal false (Str.digits_value 0 ip) e.
Proof.
  intros Hne Hip Hrest He.
  destruct (nonempty_digit_start ip Hne Hip) as (c & r & -> & Hc).
  unfold Num.parseFloat, Num.scan_decimal.
  change (String c r ++ rest) with (String c (r ++ rest)).
  destruct (digit_start c (r ++ rest) Hc) as (-> & -> & ->).
  change (String c (r ++ rest)) with (String c r ++ rest).
  rewrite (StrFacts.span_digits_app (String c r) rest Hip);
    [| destruct Hrest as [-> | [tail ->]]; [exact I | reflexivity]].
  destruct Hrest as [-> | [tail ->]]; rewrite He, app_empty, Z.sub_0_r;
    reflexivity.
Qed.

End ReadBack.

Module RoundTrip.

Import DigitFacts ReadBack.

Lemma all_digits_take_drop n ds :
  Str.all_digits ds = true ->
  Str.all_digits (Str.take n ds) = true /\ Str.all_digits (Str.drop n ds) = true.
Proof.
  intros H. rewrite <- (StrFacts.take_drop n ds), StrFacts.all_digits_app in H.
  apply andb_true_iff in H. exact H.
Qed.

Lemma take_nonempty n ds :
  (0 < n)%nat -> ds <> "" -> Str.take n ds <> "".
Proof. destruct n, ds; simpl; try lia; congruence. Qed.

(** Each layout of [Number::toString] reads back as the digits scaled by
    the decimal exponent. *)
Lemma parseFloat_render ds n :
  ds <> "" -> Str.all_digits ds = true ->
  Num.parseFloat (Num.render_digits ds n)
  = Num.of_decimal false (Str.digits_value 0 ds)
                   (n - Z.of_nat (String.length ds)).
Proof.
  intros Hne Hd. unfold Num.render_digits.
  set (k := Z.of_nat (String.length ds)).
  assert (Hk : 0 < k).
  { subst k. destruct ds; [congruence | simpl; lia]. }
  assert (Hv : 0 <= Str.digits_value 0 ds).
  { clear - Hd. assert (G : forall s acc, Str.all_digits s = true -> 0 <= acc ->
                           0 <= Str.digits_value acc s).
    { induction s as [| c s IH]; intros acc H Ha; [exact Ha |].
      cbn [Str.all_digits] in H. apply andb_true_iff in H as [Hc Hs].
      cbn [Str.digits_value]. apply IH; [exact Hs |].
      assert (0 <= Str.digit_val c).
      { unfold Str.is_digit in Hc. cbv zeta in Hc. unfold Str.digit_val.
        apply andb_true_iff in Hc as [Hc _]. apply Nat.leb_le in Hc.
        apply Nat2Z.inj_le in Hc. change (Z.of_nat 48) with 48 in Hc. lia. }
      lia. }
    apply G; [exact Hd | lia]. }
  destruct ((k <=? n) && (n <=? 21)) eqn:C1.
  { apply andb_true_iff in C1 as [C1 _]. apply Z.leb_le in C1.
    rewrite <- (app_empty (ds ++ Str.zeros (Z.to_nat (n - k)))).
    rewrite (parseFloat_integer _ "" 0);
      [| destruct ds; [congruence | discriminate]
       | rewrite StrFacts.all_digits_app, Hd, StrFacts.all_digits_zeros;
         reflexivity
       | left; reflexivity | reflexivity].
    rewrite digits_value_app, digits_value_zeros, Z2Nat.id by lia.
    apply of_decimal_scale; lia. }
  destruct ((0 <? n) && (n <=? 21)) eqn:C2.
  { apply andb_true_iff in C2 as [C2 C2']. apply Z.ltb_lt in C2.
    apply Z.leb_le in C2'.
    assert (Hnk : n < k).
    { apply andb_false_iff in C1 as [C1 | C1];
        [apply Z.leb_gt in C1 | apply Z.leb_gt in C1]; lia. }
    destruct (all_digits_take_drop (Z.to_nat n) ds Hd) as [Ht Hdr].
    rewrite <- (app_empty (Str.drop (Z.to_nat n) ds)).
    rewrite (parseFloat_point _ _ "" 0);
      [| apply take_nonempty; [lia | exact Hne] | exact Ht | exact Hdr
       | left; reflexivity | reflexivity].
    rewrite StrFacts.take_drop, StrFacts.length_drop. f_equal.
    subst k. lia. }
  destruct ((-6 <? n) && (n <=? 0)) eqn:C3.
  { apply andb_true_iff in C3 as [_ C3]. apply Z.leb_le in C3.
    change ("0." ++ Str.zeros (Z.to_nat (- n)) ++ ds)
      with ("0" ++ "." ++ Str.zeros (Z.to_nat (- n)) ++ ds).
    rewrite <- (app_empty ds) at 1.
    replace (Str.zeros (Z.to_nat (- n)) ++ ds ++ "")
      with ((Str.zeros (Z.to_nat (- n)) ++ ds) ++ "")
      by (rewrite !app_empty; reflexivity).
    rewrite (parseFloat_point "0" _ "" 0);
      [| discriminate | reflexivity
       | rewrite StrFacts.all_digits_app, StrFacts.all_digits_zeros, Hd;
         reflexivity
       | left; reflexivity | reflexivity].
    change ("0" ++ Str.zeros (Z.to_nat (- n)) ++ ds)
      with (String "0" (Str.zeros (Z.to_nat (- n)) ++ ds)).
    cbn [Str.digits_value]. change (10 * 0 + Str.digit_val "0") with 0.
    rewrite digits_value_app, digits_value_zeros.
    rewrite StrFacts.length_app, StrFacts.length_zeros.
    f_equal. subst k. lia. }
  cbv zeta.
  destruct (k =? 1) eqn:C4.
  { apply Z.eqb_eq in C4.
    rewrite (parseFloat_integer ds _ (n - 1));
      [| exact Hne | exact Hd | right; eexists; reflexivity
       | apply exponent_part_render].
    f_equal. lia. }
  apply Z.eqb_neq in C4.
  destruct (all_digits_take_drop 1 ds Hd) as [Ht Hdr].
  rewrite (parseFloat_point _ _ _ (n - 1));
    [| apply take_nonempty; [lia | exact Hne] | exact Ht | exact Hdr
     | right; eexists; reflexivity | apply exponent_part_render].
  rewrite StrFacts.take_drop, StrFacts.length_drop. f_equal. subst k. lia.
Qed.

Lemma shortest_candidate_spec x n k d :
  Num.shortest_candidate x n k = Some d ->
  10 ^ (k - 1) <= d < 10 ^ k
  /\ Num.of_decimal false d (n - k) = SFabs x.
Proof.
  unfold Num.shortest_candidate.
  destruct (Num.abs_fraction x) as [num den]. cbv zeta.
  set (a := if 0 <=? n - k then num else num * 10 ^ (- (n - k))).
  set (b := if 0 <=? n - k then den * 10 ^ (n - k) else den).
  assert (G : forall s,
            (10 ^ (k - 1) <=? s) && (s <? 10 ^ k)
            && Num.same_value (Num.of_decimal false s (n - k)) (SFabs x) = true ->
            10 ^ (k - 1) <= s < 10 ^ k
            /\ Num.of_decimal false s (n - k) = SFabs x).
  { intros s H. apply andb_true_iff in H as [H H3].
    apply andb_true_iff in H as [H1 H2].
    apply Z.leb_le in H1. apply Z.ltb_lt in H2.
    apply same_value_eq in H3. auto. }
  pose proof (G (a / b)) as Glo. pose proof (G (a / b + 1)) as Ghi.
  destruct ((10 ^ (k - 1) <=? a / b) && (a / b <? 10 ^ k)
            && Num.same_value (Num.of_decimal false (a / b) (n - k)) (SFabs x));
    destruct ((10 ^ (k - 1) <=? a / b + 1) && (a / b + 1 <? 10 ^ k)
              && Num.same_value (Num.of_decimal false (a / b + 1) (n - k))
                                (SFabs x));
    try (destruct (2 * (a mod b) <? b);
         [| destruct (b <? 2 * (a mod b)); [| destruct (Z.even (a / b))]]);
    intros [= <-]; auto.
Qed.

Lemma shortest_digits_spec fuel : forall x n0 k d n,
  0 < k ->
  Num.shortest_digits fuel x n0 k = Some (d, n) ->
  exists k', 0 < k' /\ 10 ^ (k' - 1) <= d < 10 ^ k'
             /\ Num.of_decimal false d (n - k') = SFabs x.
Proof.
  induction fuel as [| f IH]; intros x n0 k d n Hk; [discriminate |].
  cbn [Num.shortest_digits].
  destruct (Num.shortest_candidate x n0 k) as [s |] eqn:E1.
  { intros [= <- <-]. exists k. split; [exact Hk |].
    apply shortest_candidate_spec, E1. }
  destruct (Num.shortest_candidate x (n0 + 1) k) as [s |] eqn:E2.
  { intros [= <- <-]. exists k. split; [exact Hk |].
    apply shortest_candidate_spec, E2. }
  apply IH. lia.
Qed.

(** The text [toString] writes for a positive Number reads back, with
    [parseFloat], as that Number. *)
Lemma parseFloat_toString x :
  positive_number x -> Num.toString x <> "" ->
  Num.parseFloat (Num.toString x) = x.
Proof.
  destruct x as [sg | [] | | [] m e]; try contradiction; intros _;
    [intros _; reflexivity |].
  unfold Num.toString.
  destruct (Num.shortest_digits 17 _ _ 1) as [[d n] |] eqn:E;
    [| intros H; exfalso; apply H; reflexivity].
  intros _.
  destruct (shortest_digits_spec _ _ _ _ _ _ Z.lt_0_1 E)
    as (k & Hk & Hd & Hx).
  change ("" ++ Num.render_digits (Str.of_Z d) n)
    with (Num.render_digits (Str.of_Z d) n).
  assert (Hpos : 0 < d)
    by (pose proof (Z.pow_pos_nonneg 10 (k - 1)); lia).
  rewrite parseFloat_render.
  - rewrite of_Z_value by lia. rewrite (of_Z_length d k Hk Hd). exact Hx.
  - pose proof (StrFacts.of_Z_nonempty d) as Hn.
    destruct (Str.of_Z d); [simpl in Hn; lia | discriminate].
  - apply StrFacts.all_digits_of_Z.
Qed.

End RoundTrip.

(** ** Submitting the text written back *)

Lemma parseInt10_all_digits t :
  t <> "" -> Str.all_digits t = true -> Num.parseInt10 t = Num.parseFloat t.
Proof.
  intros Hne Hd.
  rewrite <- (ReadBack.app_empty t) at 2.
  rewrite (ReadBack.parseFloat_integer t "" 0 Hne Hd (or_introl eq_refl) eq_refl).
  destruct (ReadBack.nonempty_digit_start t Hne Hd) as (c & r & -> & Hc).
  unfold Num.parseInt10.
  destruct (ReadBack.digit_start c r Hc) as (-> & -> & _).
  rewrite (ReadBack.span_all_digits _ Hd). reflexivity.
Qed.

Lemma state_of_commit w :
  state (commit w) = state w \/ state (commit w) = fetchRate_begin (state w).
Proof.
  unfold commit. destruct (effect_deps w) as [[f i] |]; [| left; reflexivity].
  destruct (_ && _); [left | right]; reflexivity.
Qed.

Lemma world_eta w :
  mkWorld (state w) (Notification_api w) (in_flight w) (interval_timer w)
          (effect_deps w) (trace w) (unmounted w) = w.
Proof. destruct w; reflexivity. Qed.

Lemma resubmit_fixed w h :
  reachable w -> h (state w) = state w -> commit (with_state h w) = w.
Proof.
  intros Hr Hh. rewrite commit_in_sync.
  - unfold with_state. rewrite Hh. apply world_eta.
  - apply reachable_in_sync, Hr.
  - rewrite Hh. repeat split.
Qed.

(** X11: the text written back into the threshold input reads back as the
    threshold installed.  After a successful submit of the threshold form,
    as long as the text written back is not empty, [parseFloat] of that
    text is the threshold in force, and a second submit changes nothing at
    all: no setting moves, no check is started, the timer stays.  (The
    text of [Num.toString] is empty only when its search, which tries up
    to 17 digits, finds no digits that read back as the Number.) *)
Theorem threshold_text_reads_back :
  forall w : World,
    reachable w ->
    valid_positive (Num.parseFloat (inputThreshold (state w))) = true ->
    let w1 := step w SubmitThreshold in
    inputThreshold (state w1) <> "" ->
    inputThreshold (state w1) = Num.toString (threshold (state w1))
    /\ Num.parseFloat (inputThreshold (state w1)) = threshold (state w1)
    /\ step w1 SubmitThreshold = w1.
Proof.
  intros w Hr Hok w1 Hne.
  set (x := Num.parseFloat (inputThreshold (state w))) in *.
  assert (Hst : threshold (state w1) = x
                /\ inputThreshold (state w1) = Num.toString x
                /\ thresholdError (state w1) = None).
  { subst w1. rewrite (step_reachable _ _ Hr). cbn [mounted_step].
    destruct (handleSetThreshold_cases (state w)) as [[_ E] | [Hno _]];
      [| fold x in Hno; congruence].
    destruct (state_of_commit (with_state handleSetThreshold w)) as [-> | ->];
      cbn [with_state state]; rewrite E; repeat split. }
  destruct Hst as (Ht & Hi & He).
  assert (Hb : Num.parseFloat (inputThreshold (state w1)) = x).
  { rewrite Hi. apply RoundTrip.parseFloat_toString.
    - apply FloatFacts.valid_positive_iff, Hok.
    - rewrite <- Hi. exact Hne. }
  split; [rewrite Hi, Ht; reflexivity |]. split; [rewrite Hb, Ht; reflexivity |].
  assert (Hr1 : reachable w1)
    by (apply (reachable_unsettled w SubmitThreshold Hr); reflexivity).
  rewrite (step_reachable w1 _ Hr1). cbn [mounted_step].
  apply resubmit_fixed; [exact Hr1 |].
  unfold handleSetThreshold. rewrite Hb, Hok.
  destruct (state w1). cbn in *. subst. reflexivity.
Qed.

Lemma threshold_text_reads_back_witness :
  let w := run (mounted (Some PGranted)) [TypeThreshold "3.250"] in
  let w1 := step w SubmitThreshold in
  reachable w
  /\ valid_positive (Num.parseFloat (inputThreshold (state w))) = true
  /\ inputThreshold (state w1) = "3.25"
  /\ Num.parseFloat (inputThreshold (state w1)) = threshold (state w1)
  /\ step w1 SubmitThreshold = w1.
Proof.
  assert (Hv : valid_positive
                 (Num.parseFloat
                    (inputThreshold
                       (state (run (mounted (Some PGranted))
                                   [TypeThreshold "3.250"])))) = true)
    by (vm_compute; reflexivity).
  assert (Ht : inputThreshold
                 (state (step (run (mounted (Some PGranted))
                                   [TypeThreshold "3.250"]) SubmitThreshold))
               = "3.25")
    by (vm_compute; reflexivity).
  assert (Hne : inputThreshold
                  (state (step (run (mounted (Some PGranted))
                                    [TypeThreshold "3.250"]) SubmitThreshold))
                <> "")
    by (rewrite Ht; discriminate).
  assert (Hr : reachable (run (mounted (Some PGranted))
                              [TypeThreshold "3.250"]))
    by still_mounted.
  pose proof (threshold_text_reads_back _ Hr Hv Hne) as (_ & H2 & H3).
  split; [exact Hr |]. split; [exact Hv |].
  split; [exact Ht |]. split; [exact H2 | exact H3].
Defined.

(** X12: the text written back into the interval input reads back as the
    interval installed whenever it is a plain run of digits: after a
    successful submit of the interval form that leaves such a text,
    [parseInt] of the text is the interval in force and a second submit
    changes nothing at all. *)
Theorem interval_text_reads_back :
  forall w : World,
    reachable w ->
    valid_positive (Num.parseInt10 (inputCheckInterval (state w))) = true ->
    let w1 := step w SubmitInterval in
    inputCheckInterval (state w1) <> "" ->
    Str.all_digits (inputCheckInterval (state w1)) = true ->
    Num.parseInt10 (inputCheckInterval (state w1)) = checkInterval (state w1)
    /\ step w1 SubmitInterval = w1.
Proof.
  intros w Hr Hok w1 Hne Hd.
  set (x := Num.parseInt10 (inputCheckInterval (state w))) in *.
  assert (Hst : checkInterval (state w1) = x
                /\ inputCheckInterval (state w1) = Num.toString x
                /\ intervalError (state w1) = None).
  { subst w1. rewrite (step_reachable _ _ Hr). cbn [mounted_step].
    destruct (handleSetCheckInterval_cases (state w)) as [[_ E] | [Hno _]];
      [| fold x in Hno; congruence].
    destruct (state_of_commit (with_state handleSetCheckInterval w))
      as [-> | ->]; cbn [with_state state]; rewrite E; repeat split. }
  destruct Hst as (Ht & Hi & He).
  assert (Hb : Num.parseInt10 (inputCheckInterval (state w1)) = x).
  { rewrite (parseInt10_all_digits _ Hne Hd), Hi.
    apply RoundTrip.parseFloat_toString.
    - apply FloatFacts.valid_positive_iff, Hok.
    - rewrite <- Hi. exact Hne. }
  split; [rewrite Hb, Ht; reflexivity |].
  assert (Hr1 : reachable w1)
    by (apply (reachable_unsettled w SubmitInterval Hr); reflexivity).
  rewrite (step_reachable w1 _ Hr1). cbn [mounted_step].
  apply resubmit_fixed; [exact Hr1 |].
  unfold handleSetCheckInterval. rewrite Hb, Hok.
  destruct (state w1). cbn in *. subst. reflexivity.
Qed.

Lemma interval_text_reads_back_witness :
  let w := run (mounted (Some PGranted)) [TypeInterval "007"] in
  let w1 := step w SubmitInterval in
  reachable w
  /\ valid_positive (Num.parseInt10 (inputCheckInterval (state w))) = true
  /\ inputCheckInterval (state w1) = "7"
  /\ Num.parseInt10 (inputCheckInterval (state w1)) = checkInterval (state w1)
  /\ step w1 SubmitInterval = w1.
Proof.
  assert (Hv : valid_positive
                 (Num.parseInt10
                    (inputCheckInterval
                       (state (run (mounted (Some PGranted))
                                   [TypeInterval "007"])))) = true)
    by (vm_compute; reflexivity).
  assert (Ht : inputCheckInterval
                 (state (step (run (mounted (Some PGranted))
                                   [TypeInterval "007"]) SubmitInterval))
               = "7")
    by (vm_compute; reflexivity).
  assert (Hne : inputCheckInterval
                  (state (step (run (mounted (Some PGranted))
                                    [TypeInterval "007"]) SubmitInterval))
                <> "")
    by (rewrite Ht; discriminate).
  assert (Hd : Str.all_digits
                 (inputCheckInterval
                    (state (step (run (mounted (Some PGranted))
                                      [TypeInterval "007"]) SubmitInterval)))
               = true)
    by (rewrite Ht; reflexivity).
  assert (Hr : reachable (run (mounted (Some PGranted))
                              [TypeInterval "007"]))
    by still_mounted.
  pose proof (interval_text_reads_back _ Hr Hv Hne Hd) as (H2 & H3).
  split; [exact Hr |]. split; [exact Hv |].
  split; [exact Ht |]. split; [exact H2 | exact H3].
Defined.

(** A text in exponent form does not read back: the interval 10^21 is
    written back as [1e+21], of which [parseInt] reads 1. *)
Example interval_exponent_text :
  let w := run (mounted None)
               [TypeInterval "1000000000000000000000"; SubmitInterval] in
  checkInterval (state w) = Num.of_decimal false 1 21
  /\ inputCheckInterval (state w) = "1e+21"
  /\ checkInterval (state (step w SubmitInterval)) = Num.of_Z 1.
Proof. vm_compute. repeat split; reflexivity. Qed.

(** ** The permission the component displays and the one the browser holds *)

Lemma playbacks_app a b : playbacks (a ++ b) = (playbacks a ++ playbacks b)%list.
Proof. apply filter_app. Qed.

Lemma commit_playbacks w : playbacks (trace (commit w)) = playbacks (trace w).
Proof.
  unfold commit. destruct (effect_deps w) as [[f i] |]; [| reflexivity].
  destruct (_ && _); [reflexivity |].
  cbn. rewrite !playbacks_app. cbn. rewrite !app_nil_r. reflexivity.
Qed.

Lemma commit_permission w :
  notificationPermission (state (commit w)) = notificationPermission (state w)
  /\ Notification_api (commit w) = Notification_api w.
Proof.
  unfold commit. destruct (effect_deps w) as [[f i] |]; [| split; reflexivity].
  destruct (_ && _); split; reflexivity.
Qed.

Lemma handler_permission st :
  notificationPermission (handleSetThreshold st) = notificationPermission st
  /\ notificationPermission (handleSetCheckInterval st) = notificationPermission st.
Proof.
  split.
  - destruct (handleSetThreshold_cases st) as [[_ ->] | [_ ->]]; reflexivity.
  - destruct (handleSetCheckInterval_cases st) as [[_ ->] | [_ ->]]; reflexivity.
Qed.

Lemma typing_permission v st :
  notificationPermission (handleThresholdChange v st) = notificationPermission st
  /\ notificationPermission (handleCheckIntervalChange v st)
     = notificationPermission st.
Proof.
  unfold handleThresholdChange, handleCheckIntervalChange.
  split; destruct (truthy_opt _); reflexivity.
Qed.

Lemma playbacks_step_settle w i c f :
  nth_error (in_flight w) i = Some f ->
  playbacks (trace (step w (Settle i c)))
  = (playbacks (trace w)
     ++ playbacks (snd (fetchRate_settle (cb_threshold f) (cb_sound f)
                                         (Notification_api w) c (state w))))%list.
Proof.
  intros Hi. destruct (trace_step_settle w i c f Hi) as (rest & -> & Hrest).
  rewrite !playbacks_app.
  destruct Hrest as [-> | ->]; cbn; rewrite app_nil_r; reflexivity.
Qed.

(** The permission the component holds, through the events that are not a
    click on Enable. *)
Lemma permission_held w ev :
  (forall answer, ev <> ClickEnable answer) ->
  notificationPermission (state (step w ev)) = notificationPermission (state w).
Proof.
  intros H. destruct (is_settle ev) eqn:Es.
  { destruct ev as [| | i c | | | | | | |]; try discriminate.
    apply (settings_step_settle w i c). }
  unfold step. destruct (unmounted w);
    [rewrite state_unmounted_step; reflexivity |].
  destruct ev as [| | i c | v | | v | | v | answer | p]; try discriminate;
    cbn [mounted_step].
  - destruct (interval_timer w); reflexivity.
  - destruct (isLoading (state w)); reflexivity.
  - apply (typing_permission v (state w)).
  - rewrite (proj1 (commit_permission _)). apply handler_permission.
  - apply (typing_permission v (state w)).
  - rewrite (proj1 (commit_permission _)). apply handler_permission.
  - rewrite (proj1 (commit_permission _)). reflexivity.
  - destruct (H answer eq_refl).
  - rewrite state_site_setting. reflexivity.
Qed.

(** X13: the permission the banner shows is read from the browser at the
    mount and after a click on Enable, and nowhere else: once the
    component holds [granted] or [denied], no event changes what it holds
    or what the banner renders, whatever the browser's permission becomes;
    and no event but a click on Enable ever changes it. *)
Theorem banner_permission_is_frozen :
  forall (w : World) (ev : Event),
    notificationPermission (state w) <> PDefault
    \/ (forall answer, ev <> ClickEnable answer) ->
    notificationPermission (state (step w ev)) = notificationPermission (state w)
    /\ NotificationBanner (notificationPermission (state (step w ev)))
       = NotificationBanner (notificationPermission (state w)).
Proof.
  intros w ev H.
  assert (E : notificationPermission (state (step w ev))
              = notificationPermission (state w)).
  { destruct H as [H | H]; [| apply permission_held, H].
    destruct ev as [| | | | | | | | answer |];
      try (apply permission_held; discriminate).
    unfold step. destruct (unmounted w); [reflexivity |].
    cbn [mounted_step].
    destruct (notificationPermission (state w)) eqn:Ep; try exact Ep.
    congruence. }
  split; [exact E | rewrite E; reflexivity].
Qed.

Lemma banner_permission_is_frozen_witness :
  let w := mounted (Some PGranted) in
  let w' := step w (SiteSetting PDenied) in
  let above := Settle 0 (rate_reply (Num.parseFloat "3.25") 7 None) in
  notificationPermission (state w) <> PDefault
  /\ Notification_api w' = Some PDenied
  /\ NotificationBanner (notificationPermission (state w')) = NoBanner
  /\ alerts (trace (step w' above)) = [].
Proof.
  assert (H : notificationPermission (state (mounted (Some PGranted)))
              <> PDefault) by (vm_compute; discriminate).
  pose proof (banner_permission_is_frozen (mounted (Some PGranted))
                (SiteSetting PDenied) (or_introl H)) as (_ & H2).
  split; [exact H |]. split; [reflexivity |].
  split; [rewrite H2; reflexivity | vm_compute; reflexivity].
Defined.

Lemma settle_trace_without_grant t s api c tr :
  api <> Some PGranted -> settle_trace t s api c tr ->
  alerts tr = [] /\ playbacks tr = [].
Proof.
  intros Hn [| msg | x Hapi Hd Hgt]; [split; reflexivity .. | congruence].
Qed.

Lemma step_without_api w ev :
  Notification_api w = None ->
  Notification_api (step w ev) = None
  /\ alerts (trace (step w ev)) = alerts (trace w)
  /\ playbacks (trace (step w ev)) = playbacks (trace w).
Proof.
  intros Hn. destruct (is_settle ev) eqn:Es.
  { destruct ev as [| | i c | | | | | | |]; try discriminate.
    split; [rewrite api_step_settle; exact Hn |].
    destruct (nth_error (in_flight w) i) as [f |] eqn:Hi;
      [| rewrite (step_settle_missing w i c Hi); auto].
    pose proof (fetchRate_settle_trace (cb_threshold f) (cb_sound f)
                  (Notification_api w) c (state w)) as Htr.
    assert (Hg : Notification_api w <> Some PGranted)
      by (rewrite Hn; discriminate).
    destruct (settle_trace_without_grant _ _ _ _ _ Hg Htr) as [Ea Ep].
    rewrite (alerts_step_settle w i c f Hi), (playbacks_step_settle w i c f Hi).
    rewrite Ea, Ep, !app_nil_r. auto. }
  unfold step. destruct (unmounted w).
  { destruct ev; try discriminate; cbn [unmounted_step]; auto.
    unfold site_setting. rewrite Hn. auto. }
  destruct ev as [| | i c | v | | v | | v | answer | p]; try discriminate;
    cbn [mounted_step].
  - destruct (interval_timer w); [| auto].
    cbn. rewrite alerts_app, playbacks_app, !app_nil_r. auto.
  - destruct (isLoading (state w)); [auto |].
    cbn. rewrite alerts_app, playbacks_app, !app_nil_r. auto.
  - auto.
  - rewrite (proj2 (commit_permission _)), commit_alerts, commit_playbacks. auto.
  - auto.
  - rewrite (proj2 (commit_permission _)), commit_alerts, commit_playbacks. auto.
  - rewrite (proj2 (commit_permission _)), commit_alerts, commit_playbacks. auto.
  - destruct (notificationPermission (state w)); auto.
    unfold requestNotificationPermission. rewrite Hn. auto.
  - unfold site_setting. rewrite Hn. auto.
Qed.

(** X14: in a browser without the Notification API the component never
    shows a notification and never plays a sound, whatever happens; it
    keeps holding the permission [default], so the banner with the Enable
    button is what it renders as long as it is mounted. *)
Theorem no_api_no_alert :
  forall evs : list Event,
    let w := run (mount (initial_world None)) evs in
    alerts (trace w) = []
    /\ playbacks (trace w) = []
    /\ NotificationBanner (notificationPermission (state w))
       = Banner "Enable notifications for alerts" true.
Proof.
  intros evs w.
  assert (H : Notification_api w = None
              /\ alerts (trace w) = [] /\ playbacks (trace w) = []
              /\ notificationPermission (state w) = PDefault).
  { subst w. induction evs as [| ev evs IH] using rev_ind.
    - repeat split.
    - rewrite run_snoc.
      remember (run (mount (initial_world None)) evs) as w0 eqn:E0. clear E0.
      destruct IH as (Hn & Ha & Hp & Hs).
      destruct (step_without_api _ ev Hn) as (Hn' & Ha' & Hp').
      rewrite Hn', Ha', Hp'. repeat split; auto.
      destruct ev as [| | | | | | | | answer |];
        try (rewrite permission_held; [exact Hs | discriminate]).
      unfold step. destruct (unmounted w0); [exact Hs |].
      cbn [mounted_step]. rewrite Hs.
      unfold requestNotificationPermission. rewrite Hn. exact Hs. }
  destruct H as (_ & Ha & Hp & Hs). rewrite Hs. auto.
Qed.

(** X15: in a browser without the Notification API a rate above the
    threshold that reaches the mounted component is stored and displayed,
    and then the check ends in the status [Error], because reading
    [Notification.permission] throws; a rate that is not above the
    threshold raises nothing.  The component stays mounted. *)
Theorem no_api_check_fails :
  forall (w : World) (i : nat) (f : Callback) (c : Completion) (x : Num.number),
    unmounted w = false ->
    Notification_api w = None ->
    nth_error (in_flight w) i = Some f ->
    delivers c (VJson (JNumber x)) ->
    let w' := step w (Settle i c) in
    rate (state w') = VJson (JNumber x)
    /\ lastChecked (state w') = Some (now c)
    /\ (Num.gt x (cb_threshold f) = true ->
        status (state w') = StatusError /\ error (state w') <> None)
    /\ (Num.gt x (cb_threshold f) = false ->
        error (state w') = error (state w))
    /\ unmounted w' = false.
Proof.
  intros w i f c x Hu Hn Hi Hd w'. subst w'.
  rewrite (step_mounted _ _ Hu). cbn [mounted_step].
  assert (H : let st' := fst (fetchRate_settle (cb_threshold f) (cb_sound f)
                                (Notification_api w) c (state w)) in
              rate st' = VJson (JNumber x)
              /\ lastChecked st' = Some (now c)
              /\ (Num.gt x (cb_threshold f) = true ->
                  status st' = StatusError /\ error st' <> None)
              /\ (Num.gt x (cb_threshold f) = false ->
                  error st' = error (state w))).
  { rewrite Hn, (fetchRate_settle_number _ _ _ _ _ _ Hd).
    unfold settle_number.
    destruct (Num.gt x (cb_threshold f)); cbn [fst]; repeat split;
      try discriminate. }
  cbv zeta in H. destruct H as (H1 & H2 & H3 & H4).
  rewrite (state_settle i c w f Hi).
  split; [exact H1 |]. split; [exact H2 |]. split; [exact H3 |].
  split; [exact H4 |].
  destruct (settle_cases i c w f Hi) as [[_ ->] | [Hth _]]; [exact Hu |].
  rewrite (renders_number _ x H1) in Hth. discriminate.
Qed.

Lemma no_api_check_fails_witness :
  let w := mount (initial_world None) in
  let c := rate_reply (Num.parseFloat "3.25") 7 None in
  Notification_api w = None
  /\ nth_error (in_flight w) 0 = Some (current_fetchRate initial_state)
  /\ delivers c (VJson (JNumber (Num.parseFloat "3.25")))
  /\ Num.gt (Num.parseFloat "3.25") (threshold initial_state) = true
  /\ rate (state (step w (Settle 0 c))) = VJson (JNumber (Num.parseFloat "3.25"))
  /\ status (state (step w (Settle 0 c))) = StatusError.
Proof.
  pose proof (no_api_check_fails (mount (initial_world None)) 0
                (current_fetchRate initial_state)
                (rate_reply (Num.parseFloat "3.25") 7 None)
                (Num.parseFloat "3.25") eq_refl eq_refl eq_refl
                (rate_reply_delivers _ _ _)) as (H1 & _ & H3 & _).
  assert (Hg : Num.gt (Num.parseFloat "3.25") (threshold initial_state) = true)
    by (vm_compute; reflexivity).
  split; [reflexivity |]. split; [reflexivity |].
  split; [apply rate_reply_delivers |]. split; [exact Hg |].
  split; [exact H1 | exact (proj1 (H3 Hg))].
Defined.

(** ** A request and the settings of the render that started it *)

Lemma commit_in_flight w :
  exists l, in_flight (commit w) = (in_flight w ++ l)%list.
Proof.
  unfold commit. destruct (effect_deps w) as [[f i] |];
    [| exists []; symmetry; apply app_nil_r].
  destruct (_ && _); [exists []; symmetry; apply app_nil_r |].
  eexists. reflexivity.
Qed.

Lemma step_in_flight_unsettled w ev :
  is_settle ev = false ->
  exists l, in_flight (step w ev) = (in_flight w ++ l)%list.
Proof.
  assert (Hnil : exists l, in_flight w = (in_flight w ++ l)%list)
    by (exists []; symmetry; apply app_nil_r).
  intros E. unfold step. destruct (unmounted w).
  { destruct ev; try discriminate; cbn [unmounted_step]; try exact Hnil.
    unfold site_setting. destruct (Notification_api w); exact Hnil. }
  destruct ev as [| | i c | v | | v | | v | answer | p];
    cbn [mounted_step]; try discriminate; try exact Hnil;
    try (apply (commit_in_flight (with_state _ w))).
  - destruct (interval_timer w); [eexists; reflexivity | exact Hnil].
  - destruct (isLoading (state w)); [exact Hnil | eexists; reflexivity].
  - destruct (notificationPermission (state w)); try exact Hnil.
    unfold requestNotificationPermission.
    destruct (Notification_api w); exact Hnil.
  - unfold site_setting. destruct (Notification_api w); exact Hnil.
Qed.

Lemma run_unsettled w evs i f :
  existsb is_settle evs = false ->
  nth_error (in_flight w) i = Some f ->
  nth_error (in_flight (run w evs)) i = Some f
  /\ alerts (trace (run w evs)) = alerts (trace w).
Proof.
  revert w. induction evs as [| ev evs IH]; intros w He Hi; [auto |].
  cbn [existsb] in He. apply orb_false_iff in He as [He1 He2].
  cbn [run fold_left]. fold (run (step w ev) evs).
  destruct (step_in_flight_unsettled w ev He1) as [l El].
  destruct (IH (step w ev) He2) as [H1 H2].
  - rewrite El, nth_error_app1; [exact Hi |].
    apply nth_error_Some. congruence.
  - split; [exact H1 |]. rewrite H2. apply step_alerts_unsettled, He1.
Qed.

(** X16: a request decides its alert with the threshold and the sound of the
    render that started it.  Whatever happens between its start and its
    completion (typing, submitting new settings, other requests starting,
    but no completion), the request is still in flight with the same
    threshold and sound; when it then delivers a Number while the
    permission is [granted], a notification is shown exactly when the
    Number is above that threshold, and its text names that threshold,
    not the one in force by then. *)
Theorem request_keeps_settings_of_start :
  forall (w : World) (evs : list Event) (i : nat) (f : Callback)
         (c : Completion) (x : Num.number),
    nth_error (in_flight w) i = Some f ->
    existsb is_settle evs = false ->
    let w1 := run w evs in
    Notification_api w1 = Some PGranted ->
    delivers c (VJson (JNumber x)) ->
    nth_error (in_flight w1) i = Some f
    /\ alerts (trace (step w1 (Settle i c)))
       = (alerts (trace w)
          ++ if Num.gt x (cb_threshold f)
             then [ENotification alert_title
                     (alert_body (cb_threshold f) (Num.toFixed x 4))
                     (Js.truthy (cb_sound f))]
             else [])%list.
Proof.
  intros w evs i f c x Hi He w1 Hapi Hd.
  destruct (run_unsettled w evs i f He Hi) as [H1 H2]. fold w1 in H1, H2.
  split; [exact H1 |].
  rewrite (alerts_step_settle w1 i c f H1), Hapi.
  rewrite (fetchRate_settle_number _ _ _ _ _ _ Hd).
  rewrite H2, alerts_settle_number. cbn [is_granted]. rewrite andb_true_r.
  reflexivity.
Qed.

Lemma request_keeps_settings_of_start_witness :
  let w := mounted (Some PGranted) in
  let w1 := run w [TypeThreshold "3.5"; SubmitThreshold] in
  let c := rate_reply (Num.parseFloat "3.3") 7 None in
  nth_error (in_flight w) 0 = Some (current_fetchRate initial_state)
  /\ Notification_api w1 = Some PGranted
  /\ threshold (state w1) = Num.parseFloat "3.5"
  /\ Num.gt (Num.parseFloat "3.3") (threshold (state w1)) = false
  /\ alerts (trace (step w1 (Settle 0 c)))
     = [ENotification alert_title
          "SGD is now 3.3000 MYR, exceeding the 3.2 threshold." false].
Proof.
  assert (Hd : delivers (rate_reply (Num.parseFloat "3.3") 7 None)
                        (VJson (JNumber (Num.parseFloat "3.3"))))
    by apply rate_reply_delivers.
  assert (Hi : nth_error (in_flight (mounted (Some PGranted))) 0
               = Some (current_fetchRate initial_state))
    by (vm_compute; reflexivity).
  assert (Ha : Notification_api
                 (run (mounted (Some PGranted))
                      [TypeThreshold "3.5"; SubmitThreshold])
               = Some PGranted)
    by (vm_compute; reflexivity).
  pose proof (request_keeps_settings_of_start
                (mounted (Some PGranted))
                [TypeThreshold "3.5"; SubmitThreshold] 0
                (current_fetchRate initial_state)
                (rate_reply (Num.parseFloat "3.3") 7 None)
                (Num.parseFloat "3.3") Hi eq_refl Ha Hd) as (_ & H2).
  split; [exact Hi |]. split; [exact Ha |].
  split; [vm_compute; reflexivity |]. split; [vm_compute; reflexivity |].
  rewrite H2. vm_compute. reflexivity.
Defined.

(** ** A rate that cannot be rendered *)

Lemma unmounted_is_inert w ev :
  unmounted w = true ->
  match ev with
  | Settle _ _ | SiteSetting _ => True
  | _ => step w ev = w
  end.
Proof.
  intros H. destruct ev; try exact I; rewrite (step_unmounted _ _ H);
    reflexivity.
Qed.

(** X17: the component survives a completion exactly when it can render
    the rate delivered.  When a request of the mounted component delivers
    a value, the value is stored, and the component is unmounted exactly
    when [RateDisplay] throws on it (a truthy value that is not a Number);
    then the timer is cleared, and afterwards no tick, click, keystroke or
    submit has any effect. *)
Theorem unrenderable_rate_unmounts :
  forall (w : World) (i : nat) (f : Callback) (c : Completion) (v : Value),
    reachable w ->
    nth_error (in_flight w) i = Some f ->
    delivers c v ->
    let w' := step w (Settle i c) in
    rate (state w') = v
    /\ unmounted w'
       = match rate_view v with Raise _ => true | Ok _ => false end
    /\ (unmounted w' = true ->
        interval_timer w' = None
        /\ timers_cleared (trace w') = S (timers_cleared (trace w))
        /\ forall ev, match ev with
                      | Settle _ _ | SiteSetting _ => True
                      | _ => step w' ev = w'
                      end).
Proof.
  intros w i f c v Hr Hi Hd w'. subst w'.
  pose proof (reachable_is_mounted w Hr) as Hm.
  rewrite (step_mounted _ _ Hm). cbn [mounted_step].
  destruct (fetchRate_settle_delivers (cb_threshold f) (cb_sound f)
              (Notification_api w) c (state w) v Hd) as (H1 & _ & H3).
  cbv zeta in H1, H3.
  pose proof (fetchRate_settle_trace (cb_threshold f) (cb_sound f)
                (Notification_api w) c (state w)) as Htr.
  apply settle_trace_timers in Htr as [_ Hc].
  assert (Hth : render_throws
                  (fst (fetchRate_settle (cb_threshold f) (cb_sound f)
                          (Notification_api w) c (state w)))
                = match rate_view v with Raise _ => true | Ok _ => false end).
  { unfold render_throws. rewrite H1, H3, RateDisplay_rate_view.
    reflexivity. }
  rewrite (state_settle i c w f Hi). split; [exact H1 |].
  destruct (settle_cases i c w f Hi) as [[Hok E] | [Hno E]]; rewrite E;
    cbn [unmounted interval_timer trace]; rewrite <- Hth.
  - rewrite Hok, Hm. split; [reflexivity | discriminate].
  - rewrite Hno. split; [reflexivity |]. intros _.
    split; [reflexivity |]. split.
    + repeat rewrite (proj2 (timers_app _ _)). rewrite Hc. cbn. lia.
    + intros ev. apply unmounted_is_inert. reflexivity.
Qed.

Lemma unrenderable_rate_unmounts_witness :
  let w := mounted (Some PGranted) in
  let c := reply_with (JString "3.3") 5 in
  let w' := step w (Settle 0 c) in
  reachable w
  /\ nth_error (in_flight w) 0 = Some (current_fetchRate initial_state)
  /\ delivers c (VJson (JString "3.3"))
  /\ unmounted w' = true
  /\ interval_timer w' = None
  /\ step w' ClickRefresh = w'
  /\ step w' TimerTick = w'
  /\ unmounted (step w (Settle 0 (reply_with JNull 5))) = false.
Proof.
  assert (Hd : forall v, delivers (reply_with v 5) (VJson v)).
  { intros v. eexists _, _, _. repeat split; reflexivity. }
  pose proof (unrenderable_rate_unmounts (mounted (Some PGranted)) 0
                (current_fetchRate initial_state)
                (reply_with (JString "3.3") 5) (VJson (JString "3.3"))
                (reachable_mounted _) eq_refl (Hd _)) as (_ & H2 & H3).
  pose proof (unrenderable_rate_unmounts (mounted (Some PGranted)) 0
                (current_fetchRate initial_state)
                (reply_with JNull 5) (VJson JNull)
                (reachable_mounted _) eq_refl (Hd _)) as (_ & H4 & _).
  cbv zeta in H2, H3, H4. cbn [rate_view] in H2, H4.
  destruct (H3 H2) as (H5 & _ & H6).
  split; [apply reachable_mounted |]. split; [reflexivity |].
  split; [apply Hd |]. split; [exact H2 |]. split; [exact H5 |].
  split; [exact (H6 ClickRefresh) |]. split; [exact (H6 TimerTick) | exact H4].
Defined.
